(** * Procedural forest terrain: phase-model generator and chunk streaming

    A shallow embedding of [src/main.py] and the properties of its
    specification.

    Conventions of the embedding:
    - Python [int] is [Z]; Python [float] is a real number ([R]) and the
      float operators are the exact real operations, so IEEE rounding is
      outside the model.  Decimal literals of the source ([0.1234], [3.14])
      are the corresponding decimal fractions and [pi] is [PI].  The one
      exception is the module [binary64]: the invariant of [QuantumState]
      depends on the rounding of the operator [%], which that module
      models on binary64 numbers;
    - [str] is [string], [None] is the [None] of [option];
    - dictionaries are [gmap], sets are [gset], lists are [list];
    - a method that mutates an object returns the object as the call leaves
      it; a method that can raise returns an [option];
    - the attribute [self.textures] is written once, by [load_textures] in
      the constructor, and only read afterwards: the methods take the table
      as the parameter [textures];
    - the standard [random] module is an interface ([RandomGen]);
    - what the game uses of the [arcade] library (key codes, the physics
      engine, the position of a new camera) is an interface ([Arcade]), and
      the files that can be loaded are a predicate on paths.

    Part I holds the definitions, Part II the lemmas and theorems of the
    specification, Part III further properties of the code. *)

From Stdlib Require Import Reals Lra Lia ZArith.
From stdpp Require Import gmap strings list pretty.

(** * Part I: definitions *)

(** ** Operators of the language *)

Section python_operators.
Local Open Scope R_scope.

(** [a % b] on floats, in exact arithmetic: the remainder takes the sign of
    the divisor, [a - b * floor (a / b)].  The operator with its rounding
    is [binary64.py_fmod]. *)
Definition py_fmod (a b : R) : R := a - b * IZR (Int_part (a / b)).

(** [int(a)] on a float: truncation toward zero. *)
Definition py_int (a : R) : Z :=
  if Rlt_dec a 0 then (- Int_part (- a))%Z else Int_part a.

(** The mathematical floor of a real number. *)
Definition floor (a : R) : Z := Int_part a.

(** [range(a, b)]. *)
Definition py_range (a b : Z) : list Z := seqZ a (b - a).

(** [needle in hay] on strings. *)
Fixpoint str_contains (needle hay : string) : bool :=
  String.prefix needle hay ||
  match hay with
  | EmptyString => false
  | String _ rest => str_contains needle rest
  end.

(** A [for] loop whose body can raise: the loop stops at the first failure. *)
Fixpoint for_each {A S : Type} (body : A -> S -> option S) (l : list A) (s : S)
  : option S :=
  match l with
  | [] => Some s
  | x :: l' => s' ← body x s; for_each body l' s'
  end.

End python_operators.

(** ** Module constants (lines 7-34) *)

Definition SCREEN_WIDTH : Z := 1280.
Definition SCREEN_HEIGHT : Z := 720.
Definition TILE_WIDTH : Z := 128.
Definition TILE_HEIGHT : Z := 64.
Definition CHUNK_SIZE : Z := 16.
Definition RENDER_DISTANCE : Z := 4.
Definition MASTER_SEED : Z := 12345.
Definition LAYER_NAME_GROUND : string := "Ground".
Definition LAYER_NAME_OBJECTS : string := "Objects".
Definition LAYER_NAME_WALLS : string := "Walls".
Definition LAYER_NAME_CHARACTERS : string := "Characters".

(** ** class QuantumState (lines 37-53) *)

Record QuantumState : Type := { phase : R }.

(** A method of [QuantumState] reads the object and returns its result
    together with the object as the call leaves it. *)
Definition Method (A : Type) : Type := QuantumState -> A * QuantumState.

#[export] Instance Method_ret : MRet Method := fun _ a q => (a, q).
#[export] Instance Method_bind : MBind Method :=
  fun _ _ f m q => let '(a, q') := m q in f a q'.

Section quantum_state.
Local Open Scope R_scope.

Definition QuantumState_init (x y : Z) : QuantumState :=
  {| phase := py_fmod (IZR x * 0.1234 + IZR y * 0.4321
                       + sin (IZR x * 0.1) * cos (IZR y * 0.1)) (2 * PI) |}.

Definition hadamard : Method unit :=
  fun self => (tt, {| phase := py_fmod (phase self + PI / 4) (2 * PI) |}).

Definition rotate (angle : R) : Method unit :=
  fun self => (tt, {| phase := py_fmod (phase self + angle) (2 * PI) |}).

Definition measure : Method R :=
  fun self => ((cos (phase self) + 1) / 2, self).

End quantum_state.

(** ** Binary64 arithmetic: the remainder with its rounding *)

(** The operator [%] of two floats is the one place of [QuantumState] where
    rounding decides a property: CPython computes the [fmod] of C, which is
    exact, and moves it by the divisor when its sign differs from the sign
    of the divisor; that addition is a float addition, and it is rounded.
    This module models binary64 numbers as the reals they denote and gives
    [rotate] with the roundings of its float operations. *)
Module binary64.
Section arithmetic.
Local Open Scope R_scope.

(** The binade of a nonzero real: the [e] with [2^e <= |x| < 2^(e+1)]. *)
Definition binade (x : R) : Z := Int_part (ln (Rabs x) / ln 2).

(** The nearest integer, a tie going to the even one. *)
Definition nearest_even (y : R) : Z :=
  let f := Int_part y in
  let r := y - IZR f in
  if Rlt_dec r (1 / 2) then f
  else if Rlt_dec (1 / 2) r then (f + 1)%Z
  else if Z.even f then f else (f + 1)%Z.

(** Rounding to the nearest binary64 number, ties to even: 53 bits of
    precision above the exponent -1022, the spacing [2^-1074] of the
    subnormal numbers below.  Overflow is outside the model. *)
Definition round (x : R) : R :=
  if Req_dec_T x 0 then 0
  else
    let e := Z.max (binade x) (-1022) in
    IZR (nearest_even (x / powerRZ 2 (e - 52))) * powerRZ 2 (e - 52).

(** [math.pi], the binary64 number nearest to π. *)
Definition pi : R := 884279719003555 / 281474976710656.

(** [fmod] of C: the remainder of the quotient truncated toward zero; it is
    a binary64 number whenever its operands are, and is not rounded. *)
Definition fmod (a b : R) : R := a - b * IZR (py_int (a / b)).

(** [a % b] on two floats ([float_rem] of CPython), [b] not zero, for a given
    rounding of the addition. *)
Definition float_rem (rounding : R -> R) (a b : R) : R :=
  let remainder := fmod a b in
  if Req_dec_T remainder 0 then 0
  else if xorb (if Rlt_dec b 0 then true else false)
               (if Rlt_dec remainder 0 then true else false)
       then rounding (remainder + b)
       else remainder.

Definition py_fmod (a b : R) : R := float_rem round a b.

(** [QuantumState.rotate] (lines 47-49) on binary64 numbers. *)
Definition rotate (angle : R) : Method unit :=
  fun self =>
    (tt, {| phase := py_fmod (round (phase self + angle)) (round (2 * pi)) |}).

End arithmetic.
End binary64.

(** ** quantum_terrain (lines 56-86) *)

Section quantum_terrain.
Local Open Scope R_scope.

(** Lines 58-64: the first oscillator. *)
Definition quantum_density (tile_x tile_y : Z) : R :=
  let q := QuantumState_init tile_x tile_y in
  let angle := py_fmod (IZR tile_x * 0.314 + IZR tile_y * 0.271
                        + sin (IZR tile_x * 0.05) * 3.14) (2 * PI) in
  fst ((hadamard;;
        rotate angle;;
        hadamard;;
        rotate (py_fmod (IZR (tile_x * tile_y) * 0.001) (2 * PI));;
        measure) q).

(** Lines 66-69: the second oscillator, coordinates swapped. *)
Definition quantum_variation (tile_x tile_y : Z) : R :=
  let q2 := QuantumState_init tile_y tile_x in
  fst ((hadamard;;
        rotate (IZR tile_x * 0.1);;
        measure) q2).

(** Line 71. *)
Definition quantum_combined (tile_x tile_y : Z) : R :=
  let density := quantum_density tile_x tile_y in
  let variation := quantum_variation tile_x tile_y in
  (density + variation * 0.5) / 1.5.

(** Lines 73-86: the chain of comparisons on [combined]. *)
Definition quantum_band (combined : R) (tile_x tile_y : Z) : option string :=
  if Rlt_dec combined 0.65 then None
  else if Rlt_dec combined 0.68 then Some "tree_thin_fall"
  else if Rlt_dec combined 0.70 then Some "tree_default_fall"
  else if Rlt_dec combined 0.72 then Some "tree_oak_fall"
  else if Rlt_dec combined 0.75 then Some "stone_large"
  else if Rlt_dec combined 0.77 then Some "log"
  else if ((tile_x + tile_y) mod 3 =? 0)%Z then Some "stone_tall"
  else Some "bush_small".

Definition quantum_terrain (tile_x tile_y : Z) : option string :=
  quantum_band (quantum_combined tile_x tile_y) tile_x tile_y.

End quantum_terrain.

(** ** The generator as the specification words it (sections 4.1, 4.2)

    [PhaseModel] is a phase, [normalize v] is [v mod 2π] in [[0, 2π)].  The
    factor of the sine term of the first rotation is left as the parameter
    [scale]. *)

Section specification.
Local Open Scope R_scope.

Definition normalize (v : R) : R := v - IZR (floor (v / (2 * PI))) * (2 * PI).

Definition PhaseModel_new (x y : Z) : R :=
  normalize (IZR x * 0.1234 + IZR y * 0.4321 + sin (IZR x * 0.1) * cos (IZR y * 0.1)).
Definition PhaseModel_hadamard (p : R) : R := normalize (p + PI / 4).
Definition PhaseModel_rotate (angle p : R) : R := normalize (p + angle).
Definition PhaseModel_measure (p : R) : R := (cos p + 1) / 2.

Definition spec_density (scale : R) (x y : Z) : R :=
  let angle := normalize (IZR x * 0.314 + IZR y * 0.271 + sin (IZR x * 0.05) * scale) in
  PhaseModel_measure
    (PhaseModel_rotate (normalize (IZR x * IZR y * 0.001))
       (PhaseModel_hadamard
          (PhaseModel_rotate angle
             (PhaseModel_hadamard (PhaseModel_new x y))))).

Definition spec_variation (x y : Z) : R :=
  PhaseModel_measure
    (PhaseModel_rotate (IZR x * 0.1) (PhaseModel_hadamard (PhaseModel_new y x))).

Definition spec_combined (scale : R) (x y : Z) : R :=
  (spec_density scale x y + spec_variation x y * 0.5) / 1.5.

(** Section 4.2, step 4 and section 9: an ordered table of
    (upper bound, kind) scanned in ascending order; the first band whose
    bound exceeds the score wins. *)
Definition spec_bands : list (R * option string) :=
  [ (0.65, None);
    (0.68, Some "tree_thin_fall");
    (0.70, Some "tree_default_fall");
    (0.72, Some "tree_oak_fall");
    (0.75, Some "stone_large");
    (0.77, Some "log") ].

Fixpoint scan_bands (bands : list (R * option string)) (otherwise : option string)
  (combined : R) : option string :=
  match bands with
  | [] => otherwise
  | (bound, kind) :: rest =>
      if Rlt_dec combined bound then kind else scan_bands rest otherwise combined
  end.

Definition spec_feature (combined : R) (x y : Z) : option string :=
  scan_bands spec_bands
    (if decide ((x + y) mod 3 = 0)%Z then Some "stone_tall" else Some "bush_small")
    combined.

(** The eight values of the quantum mode. *)
Definition quantum_kinds : list (option string) :=
  [ None; Some "tree_thin_fall"; Some "tree_default_fall"; Some "tree_oak_fall";
    Some "stone_large"; Some "log"; Some "stone_tall"; Some "bush_small" ].

(** The values of the random mode. *)
Definition random_kinds : list (option string) :=
  [ None; Some "tree_blocks_fall"; Some "tree_oak_fall"; Some "tree_default_fall";
    Some "tree_fat_fall"; Some "tree_thin_fall"; Some "stone_tall";
    Some "stone_large"; Some "log"; Some "log_large"; Some "bush_small" ].

End specification.

(** ** Sprites, the scene and the window state *)

(** A texture is identified by the resource path it was loaded from. *)
Definition Texture : Type := string.

(** [arcade.hitbox.HitBox(points, position=...)]. *)
Record HitBox : Type := { hb_points : list (R * R); hb_position : R * R }.

(** The attributes of an [arcade.Sprite] that [create_chunk] assigns.
    [iso_tile] is [(iso_x, iso_y)], set on feature sprites only; [hit_box]
    is [None] while the sprite keeps the hit box arcade derives for it. *)
Record Sprite : Type := {
  texture : Texture;
  center_x : R;
  center_y : R;
  iso_tile : option (Z * Z);
  hit_box : option HitBox
}.

(** The dictionary [chunk_sprites] of [create_chunk], of fixed keys. *)
Record ChunkSprites : Type := {
  ground : list Sprite;
  objects : list Sprite;
  walls : list Sprite
}.

(** The attributes of [ProceduralForestTerrain] that the terrain code reads
    or writes: [scene] maps a layer name to its sprite list. *)
Record Window : Type := {
  scene : gmap string (list Sprite);
  chunks : gmap (Z * Z) ChunkSprites;
  terrain_mode : string;
  camera_position : R * R
}.

Definition set_scene (sc : gmap string (list Sprite)) (self : Window) : Window :=
  {| scene := sc; chunks := chunks self;
     terrain_mode := terrain_mode self; camera_position := camera_position self |}.

Definition set_chunks (ch : gmap (Z * Z) ChunkSprites) (self : Window) : Window :=
  {| scene := scene self; chunks := ch;
     terrain_mode := terrain_mode self; camera_position := camera_position self |}.

Definition set_camera_position (pos : R * R) (self : Window) : Window :=
  {| scene := scene self; chunks := chunks self;
     terrain_mode := terrain_mode self; camera_position := pos |}.

Definition set_terrain_mode (mode : string) (self : Window) : Window :=
  {| scene := scene self; chunks := chunks self;
     terrain_mode := mode; camera_position := camera_position self |}.

(** [Scene.add_sprite(name, sprite)]: appends to the layer's sprite list. *)
Definition add_sprite (name : string) (sprite : Sprite)
  (sc : gmap string (list Sprite)) : gmap string (list Sprite) :=
  <[name := default [] (sc !! name) ++ [sprite]]> sc.

(** The sprite list of a layer, [scene[name]]. *)
Definition layer (name : string) (sc : gmap string (list Sprite)) : list Sprite :=
  default [] (sc !! name).

(** The standard [random] module: [random.Random(seed)] and [rng.random()],
    which returns the draw and leaves the generator advanced. *)
Class RandomGen : Type := {
  Rng : Type;
  Random : Z -> Rng;
  rng_random : Rng -> R * Rng
}.

(** ** load_textures (lines 207-234) *)

(** The assignments of the [try] block, in order. *)
Definition texture_files : list (string * string) :=
  [ ("grass", "assets/terrain/ground_grass_NE.png");
    ("tree_blocks_fall", "assets/terrain/tree_blocks_fall_NE.png");
    ("tree_default_fall", "assets/terrain/tree_default_fall_NE.png");
    ("tree_fat_fall", "assets/terrain/tree_fat_fall_NE.png");
    ("tree_thin_fall", "assets/terrain/tree_thin_fall_NE.png");
    ("tree_oak_fall", "assets/terrain/tree_oak_fall_NE.png");
    ("stone_tall", "assets/terrain/stone_tallG_NE.png");
    ("stone_large", "assets/terrain/stone_largeC_NE.png");
    ("bush_small", "assets/terrain/plant_bushSmall_NE.png");
    ("log", "assets/terrain/log_NE.png");
    ("log_large", "assets/terrain/log_large_NE.png") ].

(** [arcade.load_texture(path)], given which paths can be loaded. *)
Definition load_texture (loadable : string -> bool) (path : string) : option Texture :=
  if loadable path then Some path else None.

(** The [try] block: the first load that raises abandons the rest. *)
Fixpoint load_all (loadable : string -> bool) (files : list (string * string))
  (textures : gmap string Texture) : gmap string Texture * bool :=
  match files with
  | [] => (textures, true)
  | (key, path) :: rest =>
      match load_texture loadable path with
      | Some t => load_all loadable rest (<[key := t]> textures)
      | None => (textures, false)
      end
  end.

Definition load_textures (loadable : string -> bool) : option (gmap string Texture) :=
  let '(textures, ok) := load_all loadable texture_files ∅ in
  if ok then Some textures
  else
    t ← load_texture loadable ":resources:images/tiles/grassCenter.png";
    Some (<["grass" := t]> textures).

(** ** class ProceduralForestTerrain: terrain methods (lines 271-465) *)

Section terrain.
Context `{RandomGen}.
Variable textures : gmap string Texture.
Local Open Scope R_scope.

(** Lines 271-275. *)
Definition iso_to_screen (self : Window) (iso_x iso_y : Z) : R * R :=
  let screen_x := IZR (iso_x - iso_y) * (IZR TILE_WIDTH / 2) in
  let screen_y := IZR (iso_x + iso_y) * (IZR TILE_HEIGHT / 2) in
  (screen_x, screen_y).

(** Lines 277-282. *)
Definition screen_to_chunk (self : Window) (screen_x screen_y : R) : Z * Z :=
  let tiles_per_chunk := CHUNK_SIZE in
  let chunk_x := py_int (screen_x / (IZR (TILE_WIDTH * tiles_per_chunk) / 2)) in
  let chunk_y := py_int (screen_y / (IZR (TILE_HEIGHT * tiles_per_chunk) / 2)) in
  (chunk_x, chunk_y).

(** Lines 284-293. *)
Definition get_chunk_seed (self : Window) (chunk_x chunk_y : Z) : Z :=
  let center_x := (chunk_x * CHUNK_SIZE + CHUNK_SIZE `div` 2)%Z in
  let center_y := (chunk_y * CHUNK_SIZE + CHUNK_SIZE `div` 2)%Z in
  let combined :=
    IZR MASTER_SEED * sin (IZR center_x * 0.1) * cos (IZR center_y * 0.1) in
  let combined :=
    combined + IZR (Z.lxor (center_x * 73856093) (center_y * 19349663)) in
  let activated_seed := py_int (py_fmod (Rabs (combined * 1000)) (IZR (2 ^ 31 - 1))) in
  activated_seed.

(** Lines 295-343. *)
Definition get_hitbox_for_element (self : Window) (element : string) : list (R * R) :=
  let hitbox_width := IZR TILE_WIDTH * 0.3 in
  let hitbox_height := IZR TILE_HEIGHT * 0.3 in
  if str_contains "tree" element then
    [ (- hitbox_width * 0.45, - hitbox_height * 3.0);
      (hitbox_width * 0.45, - hitbox_height * 3.0);
      (hitbox_width * 0.45, hitbox_height * 0.8);
      (- hitbox_width * 0.45, hitbox_height * 0.8) ]
  else if String.eqb element "stone_large" then
    [ (- hitbox_width * 0.8, - hitbox_height * 1.2);
      (hitbox_width * 0.8, - hitbox_height * 1.2);
      (hitbox_width * 0.8, hitbox_height * 0.6);
      (- hitbox_width * 0.8, hitbox_height * 0.6) ]
  else if bool_decide (element ∈ ["log"; "log_large"]) then
    [ (- hitbox_width * 0.9, - hitbox_height * 1.0);
      (hitbox_width * 0.9, - hitbox_height * 1.0);
      (hitbox_width * 0.9, hitbox_height * 0.5);
      (- hitbox_width * 0.9, hitbox_height * 0.5) ]
  else if String.eqb element "stone_tall" then
    [ (- hitbox_width * 0.6, - hitbox_height * 0.8);
      (hitbox_width * 0.6, - hitbox_height * 0.8);
      (hitbox_width * 0.6, hitbox_height * 0.4);
      (- hitbox_width * 0.6, hitbox_height * 0.4) ]
  else
    [ (- hitbox_width / 2, - hitbox_height / 2);
      (hitbox_width / 2, - hitbox_height / 2);
      (hitbox_width / 2, hitbox_height / 2);
      (- hitbox_width / 2, hitbox_height / 2) ].

(** Lines 345-352. *)
Definition collision_types : gset string :=
  {[ "tree_blocks_fall"; "tree_fat_fall"; "tree_thin_fall"; "tree_tall_fall";
     "tree_default_fall"; "tree_oak_fall";
     "stone_tall"; "stone_large"; "log"; "log_large" ]}.

Definition has_collision (self : Window) (element_type : string) : bool :=
  bool_decide (element_type ∈ collision_types).

(** Lines 354-382: the element and the generator as the call leaves it. *)
Definition generate_terrain_element (self : Window) (tile_x tile_y : Z) (rng : Rng)
  : option string * Rng :=
  if String.eqb (terrain_mode self) "quantum" then
    (quantum_terrain tile_x tile_y, rng)
  else
    let '(noise, rng) := rng_random rng in
    if Rlt_dec noise 0.35 then
      let '(tree_type, rng) := rng_random rng in
      if Rlt_dec tree_type 0.3 then (Some "tree_blocks_fall", rng)
      else if Rlt_dec tree_type 0.5 then (Some "tree_oak_fall", rng)
      else if Rlt_dec tree_type 0.7 then (Some "tree_default_fall", rng)
      else if Rlt_dec tree_type 0.85 then (Some "tree_fat_fall", rng)
      else (Some "tree_thin_fall", rng)
    else if Rlt_dec noise 0.40 then
      let '(draw, rng) := rng_random rng in
      (if Rlt_dec draw 0.7 then Some "stone_tall" else Some "stone_large", rng)
    else if Rlt_dec noise 0.43 then
      let '(draw, rng) := rng_random rng in
      (if Rlt_dec draw 0.6 then Some "log" else Some "log_large", rng)
    else if Rlt_dec noise 0.48 then (Some "bush_small", rng)
    else (None, rng).

(** Lines 401-437: the body of the inner loop of [create_chunk], on the
    mutable objects of the loop: the generator, [chunk_sprites] and the
    window (for its scene).  [self.textures['grass']] raises on a table
    without that key. *)
Definition create_chunk_tile (start_tile_x start_tile_y x y : Z)
  (st : Rng * ChunkSprites * Window) : option (Rng * ChunkSprites * Window) :=
  let '(rng, chunk_sprites, self) := st in
  let tile_x := (start_tile_x + x)%Z in
  let tile_y := (start_tile_y + y)%Z in
  let '(screen_x, screen_y) := iso_to_screen self tile_x tile_y in
  grass ← textures !! "grass";
  let grass_sprite :=
    {| texture := grass; center_x := screen_x; center_y := screen_y;
       iso_tile := None; hit_box := None |} in
  let self := set_scene (add_sprite LAYER_NAME_GROUND grass_sprite (scene self)) self in
  let chunk_sprites :=
    {| ground := ground chunk_sprites ++ [grass_sprite];
       objects := objects chunk_sprites; walls := walls chunk_sprites |} in
  let '(element, rng) := generate_terrain_element self tile_x tile_y rng in
  match element ≫= (fun e => if String.eqb e "" then None else (e,.) <$> textures !! e) with
  | Some (e, detail_texture) =>
      if has_collision self e then
        let detail_sprite :=
          {| texture := detail_texture; center_x := screen_x; center_y := screen_y;
             iso_tile := Some (tile_x, tile_y);
             hit_box := Some {| hb_points := get_hitbox_for_element self e;
                                hb_position := (screen_x, screen_y) |} |} in
        Some (rng,
              {| ground := ground chunk_sprites; objects := objects chunk_sprites;
                 walls := walls chunk_sprites ++ [detail_sprite] |},
              set_scene (add_sprite LAYER_NAME_WALLS detail_sprite (scene self)) self)
      else
        let detail_sprite :=
          {| texture := detail_texture; center_x := screen_x; center_y := screen_y;
             iso_tile := Some (tile_x, tile_y); hit_box := None |} in
        Some (rng,
              {| ground := ground chunk_sprites;
                 objects := objects chunk_sprites ++ [detail_sprite];
                 walls := walls chunk_sprites |},
              set_scene (add_sprite LAYER_NAME_OBJECTS detail_sprite (scene self)) self)
  | None => Some (rng, chunk_sprites, self)
  end.

(** Lines 384-439: the chunk's sprites and the window as the call leaves it. *)
Definition create_chunk (self : Window) (chunk_x chunk_y : Z)
  : option (ChunkSprites * Window) :=
  let chunk_seed := get_chunk_seed self chunk_x chunk_y in
  let rng := Random chunk_seed in
  let start_tile_x := (chunk_x * CHUNK_SIZE)%Z in
  let start_tile_y := (chunk_y * CHUNK_SIZE)%Z in
  let chunk_sprites := {| ground := []; objects := []; walls := [] |} in
  '(_, chunk_sprites, self) ←
    for_each
      (fun x => for_each (create_chunk_tile start_tile_x start_tile_y x)
                  (py_range 0 CHUNK_SIZE))
      (py_range 0 CHUNK_SIZE)
      (rng, chunk_sprites, self);
  Some (chunk_sprites, self).

(** Lines 448-451: the set [chunks_needed], for a window of radius
    [render_distance] around the centre chunk. *)
Definition chunks_needed_around (center : Z * Z) (render_distance : Z) : gset (Z * Z) :=
  foldl (fun chunks_needed dx =>
           foldl (fun chunks_needed dy =>
                    chunks_needed ∪ {[ (center.1 + dx, center.2 + dy)%Z ]})
                 chunks_needed
                 (py_range (- render_distance) (render_distance + 1)))
        ∅
        (py_range (- render_distance) (render_distance + 1)).

(** Lines 448-465: the body of [update_chunks] after the centre chunk is
    known, with the radius of the window as a parameter. *)
Definition reconcile (center : Z * Z) (render_distance : Z) (self : Window)
  : option Window :=
  let chunks_needed := chunks_needed_around center render_distance in
  let chunks_to_remove :=
    filter (fun chunk_pos => chunk_pos ∉ chunks_needed) (map_to_list (chunks self)).*1 in
  let self :=
    foldl (fun self chunk_pos => set_chunks (delete chunk_pos (chunks self)) self)
          self chunks_to_remove in
  for_each
    (fun chunk_pos self =>
       if decide (chunk_pos ∉ dom (chunks self)) then
         ('(chunk_sprites, self) ← create_chunk self chunk_pos.1 chunk_pos.2;
          Some (set_chunks (<[chunk_pos := chunk_sprites]> (chunks self)) self))
       else Some self)
    (elements chunks_needed) self.

(** Lines 441-465. *)
Definition update_chunks (self : Window) : option Window :=
  let center :=
    screen_to_chunk self
      ((camera_position self).1 + IZR SCREEN_WIDTH / 2)
      ((camera_position self).2 + IZR SCREEN_HEIGHT / 2) in
  reconcile center RENDER_DISTANCE self.

End terrain.

(** ** Placement records (specification, section 2 and 4.6)

    What a chunk emits, tile by tile: a ground placement for every tile and,
    for a tile whose generated element has a texture, a feature placement
    with its collidable flag and, if collidable, its hitbox. *)

Section placements.
Context `{RandomGen}.
Variable textures : gmap string Texture.

(** The tiles of a chunk in the order of the two loops of [create_chunk]. *)
Definition chunk_tiles (chunk_x chunk_y : Z) : list (Z * Z) :=
  x ← py_range 0 CHUNK_SIZE;
  y ← py_range 0 CHUNK_SIZE;
  [ ((chunk_x * CHUNK_SIZE + x)%Z, (chunk_y * CHUNK_SIZE + y)%Z) ].

(** The elements generated for a list of tiles, the generator being
    threaded from tile to tile. *)
Fixpoint chunk_elements (self : Window) (tiles : list (Z * Z)) (rng : Rng)
  : list ((Z * Z) * option string) :=
  match tiles with
  | [] => []
  | tile :: rest =>
      let '(element, rng) := generate_terrain_element self tile.1 tile.2 rng in
      (tile, element) :: chunk_elements self rest rng
  end.

Definition ground_placement (self : Window) (grass : Texture) (tile : Z * Z) : Sprite :=
  {| texture := grass;
     center_x := (iso_to_screen self tile.1 tile.2).1;
     center_y := (iso_to_screen self tile.1 tile.2).2;
     iso_tile := None; hit_box := None |}.

(** The feature placement of a tile, if any: the collidable flag and the
    sprite, which carries the hitbox when the flag is set. *)
Definition feature_placement (self : Window) (tile : Z * Z) (element : option string)
  : option (bool * Sprite) :=
  e ← element;
  if String.eqb e "" then None
  else
    detail_texture ← textures !! e;
    let position := iso_to_screen self tile.1 tile.2 in
    Some (has_collision self e,
          {| texture := detail_texture;
             center_x := position.1; center_y := position.2;
             iso_tile := Some tile;
             hit_box :=
               if has_collision self e
               then Some {| hb_points := get_hitbox_for_element self e;
                            hb_position := position |}
               else None |}).

Definition wall_of (placement : option (bool * Sprite)) : option Sprite :=
  match placement with Some (true, s) => Some s | _ => None end.

Definition object_of (placement : option (bool * Sprite)) : option Sprite :=
  match placement with Some (false, s) => Some s | _ => None end.

(** The placement lists of a list of tiles. *)
Definition placements (self : Window) (grass : Texture) (tiles : list (Z * Z)) (rng : Rng)
  : ChunkSprites :=
  let generated := chunk_elements self tiles rng in
  {| ground := ground_placement self grass <$> tiles;
     objects := omap (fun te => object_of (feature_placement self te.1 te.2)) generated;
     walls := omap (fun te => wall_of (feature_placement self te.1 te.2)) generated |}.

(** The placement lists of a chunk. *)
Definition chunk_placements (self : Window) (grass : Texture) (chunk_x chunk_y : Z)
  : ChunkSprites :=
  placements self grass (chunk_tiles chunk_x chunk_y)
    (Random (get_chunk_seed self chunk_x chunk_y)).

End placements.

(** ** Proof vocabulary *)

(** Two angles that differ by a whole number of turns. *)
Definition same_angle (u v : R) : Prop := exists k : Z, u = (v - IZR k * (2 * PI))%R.

(** Field-wise concatenation of placement lists. *)
Definition sprites_app (a b : ChunkSprites) : ChunkSprites :=
  {| ground := ground a ++ ground b;
     objects := objects a ++ objects b;
     walls := walls a ++ walls b |}.

(** [sc'] is [sc] with the sprites of [added] appended to the three terrain
    layers, and nothing else changed. *)
Definition scene_extended (sc sc' : gmap string (list Sprite)) (added : ChunkSprites) : Prop :=
  layer LAYER_NAME_GROUND sc' = layer LAYER_NAME_GROUND sc ++ ground added /\
  layer LAYER_NAME_OBJECTS sc' = layer LAYER_NAME_OBJECTS sc ++ objects added /\
  layer LAYER_NAME_WALLS sc' = layer LAYER_NAME_WALLS sc ++ walls added /\
  forall name : string,
    name <> LAYER_NAME_GROUND -> name <> LAYER_NAME_OBJECTS -> name <> LAYER_NAME_WALLS ->
    sc' !! name = sc !! name.

(** The square of chunk coordinates of radius [r] around [center]. *)
Definition in_window (center : Z * Z) (r : Z) (p : Z * Z) : Prop :=
  (center.1 - r <= p.1 <= center.1 + r)%Z /\ (center.2 - r <= p.2 <= center.2 + r)%Z.

(** Every sprite of [cs] is still held by its layer of the scene. *)
Definition sprites_in_scene (cs : ChunkSprites) (sc : gmap string (list Sprite)) : Prop :=
  (forall s, s ∈ ground cs -> s ∈ layer LAYER_NAME_GROUND sc) /\
  (forall s, s ∈ objects cs -> s ∈ layer LAYER_NAME_OBJECTS sc) /\
  (forall s, s ∈ walls cs -> s ∈ layer LAYER_NAME_WALLS sc).

(** No layer of [sc] has lost a sprite in [sc']. *)
Definition scene_grows (sc sc' : gmap string (list Sprite)) : Prop :=
  forall (name : string) (s : Sprite), s ∈ layer name sc -> s ∈ layer name sc'.

(** The invariant of the creation loop of [update_chunks], [start] being
    the window when the loop is entered and [visited] the positions the
    loop has been through. *)
Definition creation_inv `{RandomGen} (textures : gmap string Texture) (grass : Texture)
  (start : Window) (visited : list (Z * Z)) (self : Window) : Prop :=
  terrain_mode self = terrain_mode start /\
  camera_position self = camera_position start /\
  scene_grows (scene start) (scene self) /\
  (forall p, p ∈ dom (chunks self) <-> p ∈ dom (chunks start) \/ p ∈ visited) /\
  (forall p cs, chunks start !! p = Some cs -> chunks self !! p = Some cs) /\
  (forall p, p ∈ visited -> chunks start !! p = None ->
     chunks self !! p = Some (chunk_placements textures start grass p.1 p.2) /\
     sprites_in_scene (chunk_placements textures start grass p.1 p.2) (scene self)).

(** ** Concrete configurations *)

(** A generator whose every draw is 0.0.  The quantum mode never draws. *)
Definition zero_rng : RandomGen :=
  {| Rng := unit; Random := fun _ => tt; rng_random := fun _ => (0%R, tt) |}.

(** A generator that replays a script of draws. *)
Definition scripted_rng : RandomGen :=
  {| Rng := list R; Random := fun _ => []; rng_random := fun l => (hd 0%R l, tl l) |}.

(** The table when every file loads. *)
Definition all_textures : gmap string Texture := list_to_map texture_files.

(** The table when the image of the tall stone fails to load: the keys
    assigned before it, and the fallback grass. *)
Definition loadable_without_stone_tall (path : string) : bool :=
  negb (String.eqb path "assets/terrain/stone_tallG_NE.png").

Definition textures_without_stone_tall : gmap string Texture :=
  list_to_map
    [ ("grass", ":resources:images/tiles/grassCenter.png");
      ("tree_blocks_fall", "assets/terrain/tree_blocks_fall_NE.png");
      ("tree_default_fall", "assets/terrain/tree_default_fall_NE.png");
      ("tree_fat_fall", "assets/terrain/tree_fat_fall_NE.png");
      ("tree_thin_fall", "assets/terrain/tree_thin_fall_NE.png");
      ("tree_oak_fall", "assets/terrain/tree_oak_fall_NE.png") ].

(** The window as [setup] leaves it before its first [update_chunks]: the
    terrain layers exist and are empty, no chunk is resident, the mode is
    the default one. *)
Definition initial_window : Window :=
  {| scene := {[ LAYER_NAME_GROUND := []; LAYER_NAME_OBJECTS := [];
                 LAYER_NAME_WALLS := [] ]};
     chunks := ∅;
     terrain_mode := "quantum";
     camera_position := (0%R, 0%R) |}.

(** ** Polygons *)

Section polygons.
Local Open Scope R_scope.

Definition cross (p q : R * R) : R := p.1 * q.2 - q.1 * p.2.

(** Twice the signed area of a polygon, by the shoelace formula: positive
    for a counter-clockwise polygon. *)
Fixpoint shoelace_from (first : R * R) (points : list (R * R)) : R :=
  match points with
  | [] => 0
  | p :: rest =>
      match rest with
      | [] => cross p first
      | q :: _ => cross p q + shoelace_from first rest
      end
  end.

Definition polygon_area2 (points : list (R * R)) : R :=
  match points with
  | [] => 0
  | first :: _ => shoelace_from first points
  end.

(** The rectangle of half-width [a] that reaches [b] below and [c] above the
    origin, from the lower left corner counter-clockwise. *)
Definition rectangle (a b c : R) : list (R * R) :=
  [ (- a, - b); (a, - b); (a, c); (- a, c) ].

End polygons.

(** ** Repetition of a method *)

(** [n] calls of a method of [QuantumState], one after the other. *)
Fixpoint times (n : nat) (m : Method unit) : Method unit :=
  match n with
  | O => mret tt
  | S n' => m;; times n' m
  end.

(** ** Character settings (lines 18-21) *)

Definition CHARACTER_SPEED : Z := 8.
Definition TURN_SPEED : R := 0.1%R.
Definition CHARACTER_SCALE : R := 1.0%R.

(** ** class Character (lines 89-170) *)

(** [l[i]] on a list: a negative index counts from the end, an index out of
    range raises. *)
Definition py_getitem {A : Type} (l : list A) (i : Z) : option A :=
  if (0 <=? i)%Z then l !! Z.to_nat i
  else if (- Z.of_nat (length l) <=? i)%Z then l !! Z.to_nat (Z.of_nat (length l) + i)
  else None.

(** A [Character] is an [arcade.Sprite]: [sprite] holds the attributes of
    the base class that [Sprite] records, [change_x] and [change_y] its
    velocity.  The attributes [iso_x] and [iso_y] are the [iso_tile] of
    [sprite]. *)
Record Character : Type := {
  sprite : Sprite;
  change_x : R;
  change_y : R;
  scale : R;
  idle_textures : list Texture;
  run_textures : list Texture;
  current_frame : Z;
  frame_counter : Z;
  direction : R
}.

Definition set_texture (t : Texture) (s : Sprite) : Sprite :=
  {| texture := t; center_x := center_x s; center_y := center_y s;
     iso_tile := iso_tile s; hit_box := hit_box s |}.

Definition set_center (x y : R) (s : Sprite) : Sprite :=
  {| texture := texture s; center_x := x; center_y := y;
     iso_tile := iso_tile s; hit_box := hit_box s |}.

Definition set_iso_tile (t : option (Z * Z)) (s : Sprite) : Sprite :=
  {| texture := texture s; center_x := center_x s; center_y := center_y s;
     iso_tile := t; hit_box := hit_box s |}.

Definition set_sprite (s : Sprite) (self : Character) : Character :=
  {| sprite := s; change_x := change_x self; change_y := change_y self;
     scale := scale self; idle_textures := idle_textures self;
     run_textures := run_textures self; current_frame := current_frame self;
     frame_counter := frame_counter self; direction := direction self |}.

Definition set_change (dx dy : R) (self : Character) : Character :=
  {| sprite := sprite self; change_x := dx; change_y := dy;
     scale := scale self; idle_textures := idle_textures self;
     run_textures := run_textures self; current_frame := current_frame self;
     frame_counter := frame_counter self; direction := direction self |}.

Definition set_current_frame (n : Z) (self : Character) : Character :=
  {| sprite := sprite self; change_x := change_x self; change_y := change_y self;
     scale := scale self; idle_textures := idle_textures self;
     run_textures := run_textures self; current_frame := n;
     frame_counter := frame_counter self; direction := direction self |}.

Definition set_frame_counter (n : Z) (self : Character) : Character :=
  {| sprite := sprite self; change_x := change_x self; change_y := change_y self;
     scale := scale self; idle_textures := idle_textures self;
     run_textures := run_textures self; current_frame := current_frame self;
     frame_counter := n; direction := direction self |}.

Definition set_direction (d : R) (self : Character) : Character :=
  {| sprite := sprite self; change_x := change_x self; change_y := change_y self;
     scale := scale self; idle_textures := idle_textures self;
     run_textures := run_textures self; current_frame := current_frame self;
     frame_counter := frame_counter self; direction := d |}.

(** [arcade.make_soft_square_texture(32, arcade.color.BLUE, 255, 255)]: a
    generated texture, which no file holds. *)
Definition soft_square_texture : Texture :=
  "make_soft_square_texture(32, BLUE, 255, 255)".

Section character.
Variable loadable : string -> bool.

(** [try: texture = arcade.load_texture(path); textures.append(texture)]
    with a handler that goes on. *)
Definition try_append (path : string) (acc : list Texture) : list Texture :=
  match load_texture loadable path with
  | Some t => acc ++ [t]
  | None => acc
  end.

(** The inner loop of the idle textures (lines 102-109): the first pattern
    that loads is appended, and the loop is left. *)
Fixpoint load_first (patterns : list string) (acc : list Texture) : list Texture :=
  match patterns with
  | [] => acc
  | pattern :: rest =>
      match load_texture loadable pattern with
      | Some t => acc ++ [t]
      | None => load_first rest acc
      end
  end.

Definition idle_patterns (i : Z) : list string :=
  [ "assets/characters/character_idle/character_" +:+ pretty i +:+ "-3.png";
    "assets/characters/character_idle/character_" +:+ pretty i +:+ "-2.png" ].

(** Lines 121-130. *)
Definition run_patterns (character_folder : string) : list string :=
  [ character_folder +:+ "/character_1-4.png";
    character_folder +:+ "/character_2-3.png";
    character_folder +:+ "/character_3-3.png";
    character_folder +:+ "/character_4-3.png";
    character_folder +:+ "/character_5-3.png";
    character_folder +:+ "/character_6-3.png";
    character_folder +:+ "/character_7-3.png";
    character_folder +:+ "/character_8-4.png" ].

(** [Character.__init__] (lines 92-159).  Every load sits in a [try] of its
    own whose handler goes on, so nothing reaches the outer handler. *)
Definition Character_init (character_folder : string) : option Character :=
  let idle_textures :=
    foldl (fun acc i => load_first (idle_patterns i) acc) [] (py_range 1 9) in
  let run_textures :=
    if String.eqb character_folder "assets/characters/character_run" then
      foldl (fun acc i =>
               try_append (character_folder +:+ "/sprite_3_" +:+ pretty i +:+ ".png") acc)
            [] (py_range 0 8)
    else if String.eqb character_folder "assets/characters/character2_run" then
      foldl (fun acc pattern => try_append pattern acc) [] (run_patterns character_folder)
    else [] in
  let idle_textures :=
    match idle_textures with
    | [] => [soft_square_texture]
    | _ :: _ => idle_textures
    end in
  let run_textures :=
    match run_textures with
    | [] => idle_textures
    | _ :: _ => run_textures
    end in
  texture ← match run_textures with
            | _ :: _ => py_getitem run_textures 0
            | [] => py_getitem idle_textures 0
            end;
  Some {| sprite := {| texture := texture; center_x := 0; center_y := 0;
                       iso_tile := Some (0, 0)%Z; hit_box := None |};
          change_x := 0; change_y := 0;
          scale := CHARACTER_SCALE;
          idle_textures := idle_textures;
          run_textures := run_textures;
          current_frame := 0;
          frame_counter := 0;
          direction := 0 |}.

End character.

(** [Character.update_animation] (lines 161-170). *)
Definition update_animation (self : Character) (delta_time : R) : option Character :=
  let self := set_frame_counter (frame_counter self + 1) self in
  if (6 <=? frame_counter self)%Z then
    let self := set_frame_counter 0 self in
    match run_textures self with
    | [] => Some self
    | _ :: _ =>
        let self :=
          set_current_frame
            ((current_frame self + 1) `mod` Z.of_nat (length (run_textures self))) self in
        texture ← py_getitem (run_textures self) (current_frame self);
        Some (set_sprite (set_texture texture (sprite self)) self)
    end
  else Some self.

(** [n] calls of [update_animation], one after the other. *)
Fixpoint animate (n : nat) (self : Character) (delta_time : R) : option Character :=
  match n with
  | O => Some self
  | S n' => self ← update_animation self delta_time; animate n' self delta_time
  end.

(** ** class ProceduralForestTerrain: the game (lines 174-205, 236-269, 467-542) *)

(** What the code uses of the [arcade] library: the key codes of
    [arcade.key], [PhysicsEngineSimple.update], which is given the sprite
    list of the walls and the player and leaves the player moved, and the
    position of a new [Camera2D]. *)
Class Arcade : Type := {
  key_LEFT : Z;
  key_RIGHT : Z;
  key_A : Z;
  key_D : Z;
  key_Q : Z;
  key_R : Z;
  PhysicsEngineSimple_update : list Sprite -> Character -> Character;
  Camera2D_position : R * R
}.

(** The window with its game state.  [window] holds the attributes of the
    terrain code; [character] is [None] until [setup].  The attribute
    [physics_engine] is created by [setup] from the character and the wall
    list of the scene, holds both by reference and has no other state: the
    model hands the two to [PhysicsEngineSimple_update]. *)
Record Game : Type := {
  window : Window;
  character : option Character;
  turn_direction : Z;
  game_over : bool;
  distance_traveled : R
}.

Definition set_window (w : Window) (self : Game) : Game :=
  {| window := w; character := character self;
     turn_direction := turn_direction self; game_over := game_over self;
     distance_traveled := distance_traveled self |}.

Definition set_turn_direction (d : Z) (self : Game) : Game :=
  {| window := window self; character := character self;
     turn_direction := d; game_over := game_over self;
     distance_traveled := distance_traveled self |}.

Definition set_game_over (b : bool) (self : Game) : Game :=
  {| window := window self; character := character self;
     turn_direction := turn_direction self; game_over := b;
     distance_traveled := distance_traveled self |}.

Definition set_distance_traveled (d : R) (self : Game) : Game :=
  {| window := window self; character := character self;
     turn_direction := turn_direction self; game_over := game_over self;
     distance_traveled := d |}.

(** A write to the character object.  The sprite list of the characters
    holds that same object (only [setup] adds to the list, and it adds the
    character), so its entries show the write. *)
Definition set_character (c : Character) (self : Game) : Game :=
  {| window :=
       set_scene (alter (fmap (fun _ => sprite c)) LAYER_NAME_CHARACTERS
                        (scene (window self)))
                 (window self);
     character := Some c;
     turn_direction := turn_direction self; game_over := game_over self;
     distance_traveled := distance_traveled self |}.

Section game.
Context `{RandomGen} {arcade : Arcade}.
Variable textures : gmap string Texture.
Variable loadable : string -> bool.
Local Open Scope R_scope.

(** [setup] (lines 236-269). *)
Definition setup (self : Game) : option Game :=
  let sc : gmap string (list Sprite) := ∅ in
  let sc := <[LAYER_NAME_GROUND := []]> sc in
  let sc := <[LAYER_NAME_OBJECTS := []]> sc in
  let sc := <[LAYER_NAME_WALLS := []]> sc in
  let sc := <[LAYER_NAME_CHARACTERS := []]> sc in
  character ← Character_init loadable "character_run";
  let character :=
    set_sprite (set_center (IZR SCREEN_WIDTH / 2) (IZR SCREEN_HEIGHT / 2)
                           (sprite character)) character in
  let character := set_sprite (set_iso_tile (Some (0, 0)%Z) (sprite character)) character in
  let character := set_direction (PI / 4) character in
  let sc := add_sprite LAYER_NAME_CHARACTERS (sprite character) sc in
  w ← update_chunks textures (set_scene sc (window self));
  Some {| window := w; character := Some character;
          turn_direction := turn_direction self;
          game_over := false; distance_traveled := 0 |}.

(** [on_key_press] (lines 467-485). *)
Definition on_key_press (self : Game) (key modifiers : Z) : option Game :=
  if game_over self then
    if (key =? key_R)%Z then setup self else Some self
  else if (key =? key_LEFT)%Z || (key =? key_A)%Z then
    Some (set_turn_direction (-1) self)
  else if (key =? key_RIGHT)%Z || (key =? key_D)%Z then
    Some (set_turn_direction 1 self)
  else if (key =? key_Q)%Z then
    if String.eqb (terrain_mode (window self)) "quantum" then
      Some (set_window (set_terrain_mode "random" (window self)) self)
    else
      Some (set_window (set_terrain_mode "quantum" (window self)) self)
  else Some self.

(** [on_key_release] (lines 487-494). *)
Definition on_key_release (self : Game) (key modifiers : Z) : Game :=
  if (key =? key_LEFT)%Z || (key =? key_A)%Z then
    if (turn_direction self =? -1)%Z then set_turn_direction 0 self else self
  else if (key =? key_RIGHT)%Z || (key =? key_D)%Z then
    if (turn_direction self =? 1)%Z then set_turn_direction 0 self else self
  else self.

(** [on_update] (lines 496-542).  Before [setup] there is no character, and
    the first access to it raises. *)
Definition on_update (self : Game) (delta_time : R) : option Game :=
  if game_over self then Some self
  else
    c ← character self;
    let c :=
      if (turn_direction self =? 0)%Z then c
      else set_direction (direction c + IZR (turn_direction self) * TURN_SPEED) c in
    let c := set_change (cos (direction c) * IZR CHARACTER_SPEED)
                        (sin (direction c) * IZR CHARACTER_SPEED) c in
    let old_x := center_x (sprite c) in
    let old_y := center_y (sprite c) in
    let c := PhysicsEngineSimple_update
               (layer LAYER_NAME_WALLS (scene (window self))) c in
    let self := set_character c self in
    let actual_move_x := center_x (sprite c) - old_x in
    let actual_move_y := center_y (sprite c) - old_y in
    if (if Rlt_dec (Rabs actual_move_x) (Rabs (change_x c) * 0.5) then true
        else if Rlt_dec (Rabs actual_move_y) (Rabs (change_y c) * 0.5) then true
        else false)
    then Some (set_game_over true self)
    else
      let move_x := center_x (sprite c) - old_x in
      let move_y := center_y (sprite c) - old_y in
      let self :=
        set_distance_traveled
          (distance_traveled self + sqrt (move_x ^ 2 + move_y ^ 2)) self in
      let current_pos := camera_position (window self) in
      let self :=
        set_window (set_camera_position (current_pos.1 + move_x, current_pos.2 + move_y)
                                        (window self)) self in
      w ← update_chunks textures (window self);
      let self := set_window w self in
      c ← update_animation c delta_time;
      Some (set_character c self).

End game.

(** [ProceduralForestTerrain.__init__] (lines 174-205): the texture table
    and the window.  The scene is [None] until [setup]. *)
Definition ProceduralForestTerrain_init {arcade : Arcade} (loadable : string -> bool)
  : option (gmap string Texture * Game) :=
  textures ← load_textures loadable;
  Some (textures,
        {| window := {| scene := ∅; chunks := ∅; terrain_mode := "quantum";
                        camera_position := Camera2D_position |};
           character := None;
           turn_direction := 0;
           game_over := false;
           distance_traveled := 0 |}).

(** [main] (lines 608-611), up to the event loop. *)
Definition main `{RandomGen} {arcade : Arcade} (loadable : string -> bool)
  : option (gmap string Texture * Game) :=
  '(textures, window) ← ProceduralForestTerrain_init loadable;
  window ← setup textures loadable window;
  Some (textures, window).

(** ** The event loop *)

(** What [arcade.run] calls the window with.  [on_draw] (lines 544-605)
    assigns no attribute of the window and is not an event of the model. *)
Inductive Event : Type :=
  | KeyPress (key modifiers : Z)
  | KeyRelease (key modifiers : Z)
  | Update (delta_time : R).

Section event_loop.
Context `{RandomGen} {arcade : Arcade}.
Variable textures : gmap string Texture.
Variable loadable : string -> bool.

Definition dispatch (event : Event) (self : Game) : option Game :=
  match event with
  | KeyPress key modifiers => on_key_press textures loadable self key modifiers
  | KeyRelease key modifiers => Some (on_key_release self key modifiers)
  | Update delta_time => on_update textures self delta_time
  end.

(** The handlers called in the order of the events; an exception that
    leaves a handler ends the run. *)
Definition run_events (events : list Event) (self : Game) : option Game :=
  for_each dispatch events self.

End event_loop.

(** ** Vocabulary of the game properties *)

Section game_vocabulary.
Local Open Scope R_scope.

(** The chunk [update_chunks] takes for the centre of the window. *)
Definition camera_chunk (w : Window) : Z * Z :=
  screen_to_chunk w ((camera_position w).1 + IZR SCREEN_WIDTH / 2)
                    ((camera_position w).2 + IZR SCREEN_HEIGHT / 2).

(** The resident chunks are those of the window around the camera. *)
Definition window_satisfied (w : Window) : Prop :=
  forall p, p ∈ dom (chunks w) <-> in_window (camera_chunk w) RENDER_DISTANCE p.

(** The character as [on_update] hands it to the physics engine: turned by
    the turn input, its velocity set along its direction. *)
Definition steer (turn_direction : Z) (c : Character) : Character :=
  let c :=
    if (turn_direction =? 0)%Z then c
    else set_direction (direction c + IZR turn_direction * TURN_SPEED) c in
  set_change (cos (direction c) * IZR CHARACTER_SPEED)
             (sin (direction c) * IZR CHARACTER_SPEED) c.

(** The test of [on_update] for a blocked move from [(old_x, old_y)]. *)
Definition blocked (old_x old_y : R) (c : Character) : Prop :=
  Rabs (center_x (sprite c) - old_x) < Rabs (change_x c) * 0.5 \/
  Rabs (center_y (sprite c) - old_y) < Rabs (change_y c) * 0.5.

(** The state of a game that [setup] has started: there is a character, it
    is the one sprite of its layer, the resident chunks are those around
    the camera, and the inputs are within their values. *)
Definition started (self : Game) : Prop :=
  (exists c, character self = Some c /\
             layer LAYER_NAME_CHARACTERS (scene (window self)) = [sprite c]) /\
  window_satisfied (window self) /\
  (turn_direction self = -1 \/ turn_direction self = 0 \/ turn_direction self = 1)%Z /\
  (terrain_mode (window self) = "quantum" \/ terrain_mode (window self) = "random") /\
  0 <= distance_traveled self.

End game_vocabulary.

(** ** Configurations of the game examples *)

(** The key codes of [arcade.key], a camera that starts at the origin, and
    a physics engine that meets no wall. *)
Definition free_arcade : Arcade :=
  {| key_LEFT := 65361; key_RIGHT := 65363; key_A := 97; key_D := 100;
     key_Q := 113; key_R := 114;
     PhysicsEngineSimple_update := fun _ c =>
       set_sprite (set_center (center_x (sprite c) + change_x c)
                              (center_y (sprite c) + change_y c) (sprite c)) c;
     Camera2D_position := (0%R, 0%R) |}.

(** The same with a physics engine that lets nothing move. *)
Definition stuck_arcade : Arcade :=
  {| key_LEFT := 65361; key_RIGHT := 65363; key_A := 97; key_D := 100;
     key_Q := 113; key_R := 114;
     PhysicsEngineSimple_update := fun _ c => c;
     Camera2D_position := (0%R, 0%R) |}.

(** The character of [setup] when no character file loads. *)
Definition example_character : Character :=
  {| sprite := {| texture := soft_square_texture;
                  center_x := IZR SCREEN_WIDTH / 2; center_y := IZR SCREEN_HEIGHT / 2;
                  iso_tile := Some (0, 0)%Z; hit_box := None |};
     change_x := 0; change_y := 0;
     scale := CHARACTER_SCALE;
     idle_textures := [soft_square_texture];
     run_textures := [soft_square_texture];
     current_frame := 0;
     frame_counter := 0;
     direction := PI / 4 |}.

(** A game in progress on the initial window. *)
Definition example_game : Game :=
  {| window := initial_window;
     character := Some example_character;
     turn_direction := 0;
     game_over := false;
     distance_traveled := 0 |}.

(** A window at the origin whose chunks are all resident (and empty). *)
Definition satisfied_window : Window :=
  set_chunks
    (gset_to_gmap {| ground := []; objects := []; walls := [] |}
                  (chunks_needed_around (0, 0)%Z RENDER_DISTANCE))
    initial_window.

(** A game that is over. *)
Definition finished_game : Game :=
  {| window := satisfied_window;
     character := Some example_character;
     turn_direction := 1;
     game_over := true;
     distance_traveled := 100 |}.

(** * Part II: lemmas and theorems *)

(** ** The float operators *)

Section python_operator_facts.
Local Open Scope R_scope.

Lemma Int_part_bounds (r : R) : IZR (Int_part r) <= r < IZR (Int_part r) + 1.
Proof. destruct (base_Int_part r) as [Hle Hgt]. split; lra. Qed.

Lemma Int_part_unique (r : R) (z : Z) : IZR z <= r < IZR z + 1 -> Int_part r = z.
Proof. intros [Hlo Hhi]. symmetry. apply Int_part_spec. lra. Qed.

Lemma py_fmod_range (a b : R) : 0 < b -> 0 <= py_fmod a b < b.
Proof.
  intros Hb. unfold py_fmod.
  destruct (Int_part_bounds (a / b)) as [Hlo Hhi].
  assert (Ha : a = b * (a / b)) by (field; lra).
  split.
  - apply (Rmult_le_compat_l b) in Hlo; lra.
  - apply (Rmult_lt_compat_l b) in Hhi; lra.
Qed.

Lemma py_int_nonneg (a : R) : 0 <= a -> py_int a = Int_part a.
Proof. intros Ha. unfold py_int. destruct (Rlt_dec a 0); [lra | reflexivity]. Qed.

Lemma py_int_neg (a : R) : a < 0 -> py_int a = (- Int_part (- a))%Z.
Proof. intros Ha. unfold py_int. destruct (Rlt_dec a 0); [reflexivity | lra]. Qed.

Lemma normalize_py_fmod (v : R) : normalize v = py_fmod v (2 * PI).
Proof. unfold normalize, py_fmod, floor. ring. Qed.

Lemma two_PI_pos : 0 < 2 * PI.
Proof. pose proof PI_RGT_0. lra. Qed.

Lemma same_angle_refl (u : R) : same_angle u u.
Proof. exists 0%Z. ring. Qed.

Lemma same_angle_fmod (u v : R) : same_angle u v -> same_angle (py_fmod u (2 * PI)) v.
Proof.
  intros [k ->]. unfold py_fmod.
  exists (k + Int_part ((v - IZR k * (2 * PI)) / (2 * PI)))%Z.
  rewrite plus_IZR. ring.
Qed.

Lemma same_angle_add (u u' v v' : R) :
  same_angle u u' -> same_angle v v' -> same_angle (u + v) (u' + v').
Proof. intros [k ->] [m ->]. exists (k + m)%Z. rewrite plus_IZR. ring. Qed.

Lemma cos_same_angle (u v : R) : same_angle u v -> cos u = cos v.
Proof.
  intros [k ->].
  destruct (Z_le_gt_dec 0 k) as [Hk | Hk].
  - rewrite <- (cos_period (v - IZR k * (2 * PI)) (Z.to_nat k)).
    rewrite INR_IZR_INZ, Z2Nat.id by assumption. f_equal. ring.
  - rewrite <- (cos_period v (Z.to_nat (- k))).
    rewrite INR_IZR_INZ, Z2Nat.id by lia. rewrite opp_IZR. f_equal. ring.
Qed.

End python_operator_facts.

Create HintDb angle.
#[local] Hint Resolve same_angle_refl same_angle_fmod same_angle_add : angle.

(** ** QuantumState *)

Section quantum_state_facts.
Local Open Scope R_scope.

(** In exact arithmetic the phase lies in [[0, 2π)] after construction
    from any pair of integers, after [hadamard] and after [rotate] by any
    angle; [measure] returns [(cos phase + 1) / 2], a value of [[0, 1]],
    and leaves the object as it was.  On binary64 numbers the upper bound
    is reached, as the section on [binary64.rotate] shows. *)
Lemma phase_normalized_exact :
  (forall x y : Z, 0 <= phase (QuantumState_init x y) < 2 * PI) /\
  (forall q : QuantumState, 0 <= phase (snd (hadamard q)) < 2 * PI) /\
  (forall (angle : R) (q : QuantumState), 0 <= phase (snd (rotate angle q)) < 2 * PI) /\
  (forall q : QuantumState,
      fst (measure q) = (cos (phase q) + 1) / 2 /\
      0 <= fst (measure q) <= 1 /\
      snd (measure q) = q).
Proof.
  repeat split; intros; simpl;
    try (apply py_fmod_range, two_PI_pos);
    pose proof (COS_bound (phase q)) as [Hlo Hhi]; lra.
Qed.

End quantum_state_facts.

(** ** Binary64: rounding of the remainder *)

Section binary64_facts.
Local Open Scope R_scope.








End binary64_facts.

(** ** QuantumState on binary64 numbers *)

Section binary64_quantum_state.
Local Open Scope R_scope.






(** Without rounding the operator is the exact remainder of the other
    definitions. *)
Lemma float_rem_exact (a b : R) :
  0 < b -> binary64.float_rem (fun x => x) a b = py_fmod a b.
Proof.
  intros Hb. unfold binary64.float_rem, binary64.fmod, py_fmod.
  destruct (Int_part_bounds (a / b)) as [Hlo Hhi].
  assert (Hq : a = a / b * b) by (field; lra).
  destruct (Rlt_dec b 0) as [Hneg | _]; [lra |].
  destruct (Rlt_dec (a / b) 0) as [Hqneg | Hqpos].
  - rewrite (py_int_neg (a / b)) by lra.
    destruct (Req_dec (IZR (Int_part (a / b))) (a / b)) as [Hint | Hfrac].
    + assert (Hceil : Int_part (- (a / b)) = (- Int_part (a / b))%Z).
      { apply Int_part_unique. rewrite opp_IZR. lra. }
      rewrite Hceil, Z.opp_involutive.
      assert (Hzero : a - b * IZR (Int_part (a / b)) = 0) by (rewrite Hint; lra).
      rewrite Hzero. destruct (Req_dec_T 0 0); [reflexivity | contradiction].
    + assert (Hceil : Int_part (- (a / b)) = (- Int_part (a / b) - 1)%Z).
      { apply Int_part_unique. rewrite minus_IZR, opp_IZR. lra. }
      rewrite Hceil. replace (- (- Int_part (a / b) - 1))%Z with (Int_part (a / b) + 1)%Z by lia.
      rewrite plus_IZR.
      assert (Hrem : a - b * (IZR (Int_part (a / b)) + 1) < 0) by nra.
      destruct (Req_dec_T (a - b * (IZR (Int_part (a / b)) + 1)) 0); [lra |].
      destruct (Rlt_dec (a - b * (IZR (Int_part (a / b)) + 1)) 0); [| contradiction].
      cbn [xorb]. lra.
  - rewrite (py_int_nonneg (a / b)) by lra.
    destruct (Req_dec_T (a - b * IZR (Int_part (a / b))) 0) as [Hzero | Hnz];
      [lra |].
    assert (Hrem : 0 <= a - b * IZR (Int_part (a / b))) by nra.
    destruct (Rlt_dec (a - b * IZR (Int_part (a / b))) 0); [lra |].
    reflexivity.
Qed.


End binary64_quantum_state.

(** ** quantum_terrain *)

Section quantum_terrain_facts.
Local Open Scope R_scope.

(** The sum of all the phase increments of the first oscillator, for a
    given factor of the sine term. *)
Lemma spec_density_closed_form (scale : R) (x y : Z) :
  spec_density scale x y =
  (cos (IZR x * 0.1234 + IZR y * 0.4321 + sin (IZR x * 0.1) * cos (IZR y * 0.1)
        + PI / 4
        + (IZR x * 0.314 + IZR y * 0.271 + sin (IZR x * 0.05) * scale)
        + PI / 4
        + IZR x * IZR y * 0.001) + 1) / 2.
Proof.
  unfold spec_density, PhaseModel_measure, PhaseModel_rotate, PhaseModel_hadamard,
    PhaseModel_new.
  rewrite !normalize_py_fmod.
  f_equal. f_equal. apply cos_same_angle. auto 20 with angle.
Qed.

Lemma spec_variation_closed_form (x y : Z) :
  spec_variation x y =
  (cos (IZR y * 0.1234 + IZR x * 0.4321 + sin (IZR y * 0.1) * cos (IZR x * 0.1)
        + PI / 4 + IZR x * 0.1) + 1) / 2.
Proof.
  unfold spec_variation, PhaseModel_measure, PhaseModel_rotate, PhaseModel_hadamard,
    PhaseModel_new.
  rewrite !normalize_py_fmod.
  f_equal. f_equal. apply cos_same_angle. auto 20 with angle.
Qed.

Lemma quantum_density_spec (x y : Z) : quantum_density x y = spec_density 3.14 x y.
Proof.
  unfold quantum_density, spec_density, PhaseModel_measure, PhaseModel_rotate,
    PhaseModel_hadamard, PhaseModel_new.
  rewrite !normalize_py_fmod, mult_IZR. reflexivity.
Qed.

Lemma quantum_variation_spec (x y : Z) : quantum_variation x y = spec_variation x y.
Proof.
  unfold quantum_variation, spec_variation, PhaseModel_measure, PhaseModel_rotate,
    PhaseModel_hadamard, PhaseModel_new.
  rewrite !normalize_py_fmod. reflexivity.
Qed.

Lemma quantum_combined_spec (x y : Z) : quantum_combined x y = spec_combined 3.14 x y.
Proof.
  unfold quantum_combined, spec_combined.
  rewrite quantum_density_spec, quantum_variation_spec. reflexivity.
Qed.

(** C1 (amended): the generator follows the steps of the specification with
    the sine term of the first rotation scaled by the literal 3.14. *)
Theorem quantum_terrain_follows_steps (x y : Z) :
  quantum_density x y = spec_density 3.14 x y /\
  quantum_variation x y = spec_variation x y /\
  quantum_combined x y = spec_combined 3.14 x y /\
  quantum_combined x y = (quantum_density x y + quantum_variation x y * 0.5) / 1.5.
Proof.
  split; [apply quantum_density_spec |].
  split; [apply quantum_variation_spec |].
  split; [apply quantum_combined_spec | reflexivity].
Qed.

(** A lower bound on [PI] from the first four terms of Machin's series. *)
Lemma PI_gt_314 : 3.14 < PI.
Proof.
  destruct (PI_2_3_7_ineq 1) as [Hlo _].
  unfold sum_f_R0, tg_alt, PI_2_3_7_tg, Ratan_seq in Hlo.
  simpl in Hlo. lra.
Qed.

Lemma PI_lt_4 : 3 < PI <= 4.
Proof. pose proof PI_gt_314. pose proof PI_4. lra. Qed.

Lemma sin_small_bounds (a : R) : 0 < a <= 1 -> 0 < sin a < a.
Proof.
  intros [Hlo Hhi]. pose proof PI_lt_4. split.
  - apply sin_gt_0; lra.
  - apply sin_lt_x; lra.
Qed.

Lemma spec_density_scale_differs : spec_density 3.14 1 0 <> spec_density PI 1 0.
Proof.
  rewrite !spec_density_closed_form. intros Hd.
  assert (Hcos : forall u v : R, (u + 1) / 2 = (v + 1) / 2 -> u = v) by (intros; lra).
  apply Hcos in Hd. clear Hcos.
  repeat first [rewrite Rmult_0_l in Hd | rewrite Rmult_1_l in Hd
               | rewrite Rmult_0_r in Hd].
  rewrite cos_0 in Hd.
  pose proof (sin_small_bounds 0.1 ltac:(lra)) as [Hs1 Hs1'].
  pose proof (sin_small_bounds 0.05 ltac:(lra)) as [Hs2 Hs2'].
  pose proof PI_gt_314 as Hpi. pose proof PI_4 as Hpi4.
  apply cos_inj in Hd.
  - assert (Hz : sin 0.05 * (PI - 3.14) = 0) by lra.
    apply Rmult_integral in Hz. lra.
  - split; nra.
  - split; nra.
Qed.

(** C1 (counterexample): at tile (1, 0) the density and the score of the
    generator differ from those computed with the sine term scaled by π. *)
Lemma quantum_density_not_pi_scaled :
  quantum_density 1 0 <> spec_density PI 1 0 /\
  quantum_combined 1 0 <> spec_combined PI 1 0.
Proof.
  pose proof spec_density_scale_differs as Hd.
  rewrite quantum_density_spec, quantum_combined_spec. unfold spec_combined.
  split; [exact Hd | lra].
Qed.

(** The chain of comparisons is the ordered scan of the table. *)
Lemma quantum_band_scan (c : R) (x y : Z) : quantum_band c x y = spec_feature c x y.
Proof.
  unfold quantum_band, spec_feature, spec_bands, scan_bands.
  repeat (destruct (Rlt_dec c _); [reflexivity |]).
  destruct (Z.eqb_spec ((x + y) mod 3) 0) as [Heq | Hne];
    destruct (decide ((x + y) mod 3 = 0)%Z); congruence.
Qed.

(** C2: the score is mapped to a kind by the ordered bands of the
    specification, the first band whose bound exceeds the score winning;
    a score equal to a bound falls in the band above it, so exactly 0.65
    is a thin tree. *)
Theorem quantum_bands_ordered :
  (forall (c : R) (x y : Z), quantum_band c x y = spec_feature c x y) /\
  (forall x y : Z, quantum_terrain x y = spec_feature (quantum_combined x y) x y) /\
  (forall x y : Z,
      quantum_band 0.65 x y = Some "tree_thin_fall" /\
      quantum_band 0.68 x y = Some "tree_default_fall" /\
      quantum_band 0.70 x y = Some "tree_oak_fall" /\
      quantum_band 0.72 x y = Some "stone_large" /\
      quantum_band 0.75 x y = Some "log" /\
      quantum_band 0.77 x y =
        (if decide ((x + y) mod 3 = 0)%Z then Some "stone_tall" else Some "bush_small")).
Proof.
  split; [exact quantum_band_scan |].
  split; [intros; apply quantum_band_scan |].
  intros x y. rewrite !quantum_band_scan. unfold spec_feature, spec_bands, scan_bands.
  repeat split;
    repeat match goal with
           | |- context [Rlt_dec ?a ?b] => destruct (Rlt_dec a b); try lra
           end; reflexivity.
Qed.

(** Every value of the quantum mode is one of its eight kinds. *)
Lemma quantum_band_kinds (c : R) (x y : Z) : quantum_band c x y ∈ quantum_kinds.
Proof.
  unfold quantum_band, quantum_kinds.
  repeat (destruct (Rlt_dec c _); [set_solver |]).
  destruct ((x + y) mod 3 =? 0)%Z; set_solver.
Qed.

End quantum_terrain_facts.

(** ** Coordinates and seeds *)

Section addressing_facts.
Local Open Scope R_scope.

Lemma py_int_fmod_range (m : Z) (a : R) :
  (0 < m)%Z -> (0 <= py_int (py_fmod a (IZR m)) <= m - 1)%Z.
Proof.
  intros Hm.
  assert (Hm' : 0 < IZR m) by (apply IZR_lt; lia).
  destruct (py_fmod_range a (IZR m) Hm') as [Hlo Hhi].
  rewrite py_int_nonneg by assumption.
  destruct (Int_part_bounds (py_fmod a (IZR m))) as [Hf1 Hf2].
  split.
  - assert (Hgt : IZR (-1) < IZR (Int_part (py_fmod a (IZR m)))) by (simpl; lra).
    apply lt_IZR in Hgt. lia.
  - assert (Hlt : IZR (Int_part (py_fmod a (IZR m))) < IZR m) by lra.
    apply lt_IZR in Hlt. lia.
Qed.

(** C8: the chunk seed depends on the chunk coordinate only, not on the
    state of the window, and is an integer of [[0, 2^31 - 2]]. *)
Theorem get_chunk_seed_stable_and_bounded (self self' : Window) (cx cy : Z) :
  get_chunk_seed self cx cy = get_chunk_seed self' cx cy /\
  get_chunk_seed self 3 (-2) = get_chunk_seed self' 3 (-2) /\
  (0 <= get_chunk_seed self cx cy <= 2 ^ 31 - 2)%Z.
Proof.
  split; [reflexivity |]. split; [reflexivity |].
  unfold get_chunk_seed.
  pose proof (py_int_fmod_range (2 ^ 31 - 1)
    (Rabs ((IZR MASTER_SEED
              * sin (IZR (cx * CHUNK_SIZE + CHUNK_SIZE `div` 2) * 0.1)
              * cos (IZR (cy * CHUNK_SIZE + CHUNK_SIZE `div` 2) * 0.1)
            + IZR (Z.lxor ((cx * CHUNK_SIZE + CHUNK_SIZE `div` 2) * 73856093)
                          ((cy * CHUNK_SIZE + CHUNK_SIZE `div` 2) * 19349663)))
           * 1000)) ltac:(lia)) as Hrange.
  lia.
Qed.

(** Where [int()] and the floor agree, and where they differ. *)
Lemma py_int_floor_nonneg (a : R) : 0 <= a -> py_int a = floor a.
Proof. apply py_int_nonneg. Qed.

Lemma py_int_above_floor (a : R) :
  a < 0 -> IZR (floor a) <> a -> py_int a = (floor a + 1)%Z.
Proof.
  intros Ha Hfrac. rewrite py_int_neg by assumption. unfold floor in *.
  destruct (Int_part_bounds a) as [Hlo Hhi].
  rewrite (Int_part_unique (- a) (- Int_part a - 1)); [lia |].
  rewrite minus_IZR, opp_IZR. split; lra.
Qed.

(** C3 (the code at the failing input): a position one unit left of and
    below the origin is bucketed into chunk (0, 0), while the floor of
    both quotients is -1. *)
Theorem screen_to_chunk_truncates (self : Window) :
  screen_to_chunk self (-1) (-1) = (0, 0)%Z /\
  floor (-1 / (IZR (TILE_WIDTH * CHUNK_SIZE) / 2)) = (-1)%Z /\
  floor (-1 / (IZR (TILE_HEIGHT * CHUNK_SIZE) / 2)) = (-1)%Z.
Proof.
  unfold screen_to_chunk, floor, TILE_WIDTH, TILE_HEIGHT, CHUNK_SIZE.
  rewrite !mult_IZR. repeat split.
  - f_equal; rewrite py_int_neg by lra;
      rewrite (Int_part_unique _ 0); try reflexivity; lra.
  - apply Int_part_unique. lra.
  - apply Int_part_unique. lra.
Qed.

(** Left of the origin every position that is not on a chunk boundary is
    bucketed one chunk above the floor. *)
Lemma screen_to_chunk_negative (self : Window) (sx sy : R) :
  sx < 0 ->
  IZR (floor (sx / (IZR (TILE_WIDTH * CHUNK_SIZE) / 2))) <> sx / (IZR (TILE_WIDTH * CHUNK_SIZE) / 2) ->
  (screen_to_chunk self sx sy).1 = (floor (sx / (IZR (TILE_WIDTH * CHUNK_SIZE) / 2)) + 1)%Z.
Proof.
  intros Hx Hfrac. unfold screen_to_chunk. cbn [fst].
  apply py_int_above_floor; [| exact Hfrac].
  unfold TILE_WIDTH, CHUNK_SIZE. rewrite mult_IZR.
  replace (sx / (128 * 16 / 2)) with (sx * / 1024) by (field; lra).
  pose proof (Rinv_0_lt_compat 1024 ltac:(lra)). nra.
Qed.

(** On the non-negative quadrant the bucketing is the floor. *)
Lemma screen_to_chunk_floor_nonneg (self : Window) (sx sy : R) :
  0 <= sx -> 0 <= sy ->
  screen_to_chunk self sx sy =
  (floor (sx / (IZR (TILE_WIDTH * CHUNK_SIZE) / 2)),
   floor (sy / (IZR (TILE_HEIGHT * CHUNK_SIZE) / 2))).
Proof.
  intros Hx Hy. unfold screen_to_chunk, TILE_WIDTH, TILE_HEIGHT, CHUNK_SIZE.
  rewrite !mult_IZR. f_equal; apply py_int_floor_nonneg.
  - apply Rmult_le_pos; [assumption |]. apply Rlt_le, Rinv_0_lt_compat. lra.
  - apply Rmult_le_pos; [assumption |]. apply Rlt_le, Rinv_0_lt_compat. lra.
Qed.

End addressing_facts.

(** ** Loops *)

Lemma for_each_app {A S : Type} (body : A -> S -> option S) (l1 l2 : list A) (s : S) :
  for_each body (l1 ++ l2) s = for_each body l1 s ≫= for_each body l2.
Proof.
  revert s. induction l1 as [| x l1 IH]; intros s; simpl; [reflexivity |].
  destruct (body x s) as [s' |]; simpl; [apply IH | reflexivity].
Qed.

Section loop_facts.
Context {A B S : Type}.

Lemma for_each_nested (body : A -> B -> S -> option S) (xs : list A) (ys : list B) (s : S) :
  for_each (fun x => for_each (body x) ys) xs s =
  for_each (fun p => body p.1 p.2) (x ← xs; y ← ys; [(x, y)]) s.
Proof.
  revert s. induction xs as [| x xs IH]; intros s; [reflexivity |].
  change (for_each (body x) ys s ≫= for_each (fun x => for_each (body x) ys) xs =
          for_each (fun p => body p.1 p.2)
            ((y ← ys; [(x, y)]) ++ (x ← xs; y ← ys; [(x, y)])) s).
  rewrite for_each_app.
  assert (Hinner : forall s0, for_each (body x) ys s0 =
            for_each (fun p => body p.1 p.2) (y ← ys; [(x, y)]) s0).
  { clear. induction ys as [| y ys IHy]; intros s0; simpl; [reflexivity |].
    destruct (body x y s0); simpl; [apply IHy | reflexivity]. }
  rewrite Hinner. destruct (for_each _ (y ← ys; [(x, y)]) s); simpl; [apply IH | reflexivity].
Qed.

(** An invariant indexed by the elements already visited. *)
Lemma for_each_invariant (P : list A -> S -> Prop) (body : A -> S -> option S)
  (l : list A) (s : S) :
  P [] s ->
  (forall visited x s, P visited s -> x ∈ l ->
     exists s', body x s = Some s' /\ P (visited ++ [x]) s') ->
  exists s', for_each body l s = Some s' /\ P l s'.
Proof.
  intros Hinit Hstep.
  assert (Hgen : forall rest visited s,
             (forall x, x ∈ rest -> x ∈ l) -> P visited s ->
             exists s', for_each body rest s = Some s' /\ P (visited ++ rest) s').
  { induction rest as [| x rest IH]; intros visited s0 Hsub HP; simpl.
    - exists s0. rewrite app_nil_r. auto.
    - destruct (Hstep visited x s0 HP) as (s1 & Hbody & HP1); [apply Hsub; left |].
      rewrite Hbody. simpl.
      destruct (IH (visited ++ [x]) s1) as (s2 & Hrest & HP2); [| assumption |].
      + intros z Hz. apply Hsub. right. assumption.
      + exists s2. split; [assumption |]. rewrite <- app_assoc in HP2. exact HP2. }
  apply (Hgen l [] s); auto.
Qed.

Lemma for_each_unchanged (body : A -> S -> option S) (l : list A) (s : S) :
  (forall x, x ∈ l -> body x s = Some s) -> for_each body l s = Some s.
Proof.
  induction l as [| x l IH]; intros Hbody; simpl; [reflexivity |].
  rewrite Hbody by left. simpl. apply IH. intros z Hz. apply Hbody. right. assumption.
Qed.

End loop_facts.

(** ** The scene *)

Section scene_facts.

Lemma layer_add_sprite_eq (name : string) (s : Sprite) (sc : gmap string (list Sprite)) :
  layer name (add_sprite name s sc) = layer name sc ++ [s].
Proof. unfold layer, add_sprite. rewrite lookup_insert_eq. reflexivity. Qed.

Lemma lookup_add_sprite_ne (name name' : string) (s : Sprite)
  (sc : gmap string (list Sprite)) :
  name <> name' -> add_sprite name s sc !! name' = sc !! name'.
Proof. intros Hne. unfold add_sprite. apply lookup_insert_ne. assumption. Qed.

Lemma layer_add_sprite_ne (name name' : string) (s : Sprite)
  (sc : gmap string (list Sprite)) :
  name <> name' -> layer name' (add_sprite name s sc) = layer name' sc.
Proof. intros Hne. unfold layer. rewrite lookup_add_sprite_ne by assumption. reflexivity. Qed.

Lemma scene_extended_nil (sc : gmap string (list Sprite)) :
  scene_extended sc sc {| ground := []; objects := []; walls := [] |}.
Proof. unfold scene_extended. simpl. rewrite !app_nil_r. auto. Qed.

Lemma scene_extended_trans (sc1 sc2 sc3 : gmap string (list Sprite)) (a b : ChunkSprites) :
  scene_extended sc1 sc2 a -> scene_extended sc2 sc3 b ->
  scene_extended sc1 sc3 (sprites_app a b).
Proof.
  intros (Hg1 & Ho1 & Hw1 & Hr1) (Hg2 & Ho2 & Hw2 & Hr2).
  unfold scene_extended. simpl.
  rewrite Hg2, Hg1, Ho2, Ho1, Hw2, Hw1, !app_assoc.
  repeat split. intros name H1 H2 H3. rewrite Hr2, Hr1 by assumption. reflexivity.
Qed.

Lemma scene_extended_layer_mono (sc sc' : gmap string (list Sprite)) (added : ChunkSprites)
  (name : string) (s : Sprite) :
  scene_extended sc sc' added -> s ∈ layer name sc -> s ∈ layer name sc'.
Proof.
  intros (Hg & Ho & Hw & Hr) Hin.
  destruct (decide (name = LAYER_NAME_GROUND)) as [-> |];
    [rewrite Hg; set_solver |].
  destruct (decide (name = LAYER_NAME_OBJECTS)) as [-> |];
    [rewrite Ho; set_solver |].
  destruct (decide (name = LAYER_NAME_WALLS)) as [-> |];
    [rewrite Hw; set_solver |].
  unfold layer in *. rewrite Hr by assumption. assumption.
Qed.

End scene_facts.

(** ** create_chunk *)

Section create_chunk_facts.
Context `{RandomGen}.
Variable textures : gmap string Texture.

Lemma generate_terrain_element_mode (self self' : Window) (x y : Z) (rng : Rng) :
  terrain_mode self = terrain_mode self' ->
  generate_terrain_element self x y rng = generate_terrain_element self' x y rng.
Proof. intros Hmode. unfold generate_terrain_element. rewrite Hmode. reflexivity. Qed.

Lemma chunk_elements_mode (self self' : Window) (tiles : list (Z * Z)) (rng : Rng) :
  terrain_mode self = terrain_mode self' ->
  chunk_elements self tiles rng = chunk_elements self' tiles rng.
Proof.
  intros Hmode. revert rng. induction tiles as [| tile tiles IH]; intros rng; simpl;
    [reflexivity |].
  rewrite (generate_terrain_element_mode self self') by assumption.
  destruct (generate_terrain_element self' tile.1 tile.2 rng) as [e rng'].
  rewrite IH. reflexivity.
Qed.

Lemma placements_mode (self self' : Window) (grass : Texture) (tiles : list (Z * Z))
  (rng : Rng) :
  terrain_mode self = terrain_mode self' ->
  placements textures self grass tiles rng = placements textures self' grass tiles rng.
Proof.
  intros Hmode. unfold placements.
  rewrite (chunk_elements_mode self self') by assumption. reflexivity.
Qed.

Lemma placements_cons (self : Window) (grass : Texture) (tile : Z * Z)
  (tiles : list (Z * Z)) (rng : Rng) :
  placements textures self grass (tile :: tiles) rng =
  sprites_app (placements textures self grass [tile] rng)
    (placements textures self grass tiles
       (generate_terrain_element self tile.1 tile.2 rng).2).
Proof.
  unfold placements, sprites_app. simpl.
  destruct (generate_terrain_element self tile.1 tile.2 rng) as [e rng']. simpl.
  f_equal.
  - destruct (object_of _); reflexivity.
  - destruct (wall_of _); reflexivity.
Qed.

Lemma sprites_app_assoc (a b c : ChunkSprites) :
  sprites_app (sprites_app a b) c = sprites_app a (sprites_app b c).
Proof. unfold sprites_app. simpl. rewrite !app_assoc. reflexivity. Qed.

Lemma sprites_app_nil_r (a : ChunkSprites) :
  sprites_app a {| ground := []; objects := []; walls := [] |} = a.
Proof. destruct a. unfold sprites_app. simpl. rewrite !app_nil_r. reflexivity. Qed.

Lemma sprites_app_nil_l (a : ChunkSprites) :
  sprites_app {| ground := []; objects := []; walls := [] |} a = a.
Proof. destruct a. reflexivity. Qed.

Lemma layer_names_distinct :
  LAYER_NAME_GROUND <> LAYER_NAME_OBJECTS /\ LAYER_NAME_GROUND <> LAYER_NAME_WALLS /\
  LAYER_NAME_OBJECTS <> LAYER_NAME_WALLS.
Proof. repeat split; discriminate. Qed.

Lemma scene_extended_ground (sc : gmap string (list Sprite)) (g : Sprite) :
  scene_extended sc (add_sprite LAYER_NAME_GROUND g sc)
    {| ground := [g]; objects := []; walls := [] |}.
Proof.
  destruct layer_names_distinct as (Hgo & Hgw & How).
  unfold scene_extended. simpl.
  rewrite layer_add_sprite_eq, !layer_add_sprite_ne, !app_nil_r by assumption.
  repeat split. intros name Hg _ _. apply lookup_add_sprite_ne. congruence.
Qed.

Lemma scene_extended_object (sc : gmap string (list Sprite)) (s : Sprite) :
  scene_extended sc (add_sprite LAYER_NAME_OBJECTS s sc)
    {| ground := []; objects := [s]; walls := [] |}.
Proof.
  destruct layer_names_distinct as (Hgo & Hgw & How).
  unfold scene_extended. simpl.
  rewrite layer_add_sprite_eq, !layer_add_sprite_ne, !app_nil_r by congruence.
  repeat split. intros name _ Ho _. apply lookup_add_sprite_ne. congruence.
Qed.

Lemma scene_extended_wall (sc : gmap string (list Sprite)) (s : Sprite) :
  scene_extended sc (add_sprite LAYER_NAME_WALLS s sc)
    {| ground := []; objects := []; walls := [s] |}.
Proof.
  destruct layer_names_distinct as (Hgo & Hgw & How).
  unfold scene_extended. simpl.
  rewrite layer_add_sprite_eq, !layer_add_sprite_ne, !app_nil_r by congruence.
  repeat split. intros name _ _ Hw. apply lookup_add_sprite_ne. congruence.
Qed.

(** One iteration of the inner loop appends the placements of its tile. *)
Lemma create_chunk_tile_spec (grass : Texture) (sx sy x y : Z) (rng : Rng)
  (cs : ChunkSprites) (self : Window) :
  textures !! "grass" = Some grass ->
  exists sc',
    create_chunk_tile textures sx sy x y (rng, cs, self) =
      Some ((generate_terrain_element self (sx + x) (sy + y) rng).2,
            sprites_app cs
              (placements textures self grass [((sx + x)%Z, (sy + y)%Z)] rng),
            set_scene sc' self) /\
    scene_extended (scene self) sc'
      (placements textures self grass [((sx + x)%Z, (sy + y)%Z)] rng).
Proof.
  intros Hgrass.
  unfold create_chunk_tile, placements, chunk_elements, sprites_app, feature_placement.
  cbn [fst snd iso_to_screen fmap list_fmap].
  rewrite Hgrass. cbn [mbind option_bind].
  rewrite (generate_terrain_element_mode (set_scene _ self) self) by reflexivity.
  destruct (generate_terrain_element self (sx + x) (sy + y) rng) as [element rng'].
  cbn [fst snd omap list_omap].
  destruct element as [e |]; cbn [mbind option_bind].
  - destruct (String.eqb e "").
    + eexists. split; [cbn [object_of wall_of ground objects walls]; rewrite !app_nil_r; reflexivity |].
      apply scene_extended_ground.
    + destruct (textures !! e) as [detail_texture |];
        cbn [fmap option_fmap option_map mbind option_bind].
      * change (has_collision (set_scene _ self) e) with (has_collision self e).
        destruct (has_collision self e);
          cbn [object_of wall_of ground objects walls].
        -- eexists. split; [rewrite !app_nil_r; reflexivity |].
           apply (scene_extended_trans _ _ _ _ _ (scene_extended_ground _ _)
                    (scene_extended_wall _ _)).
        -- eexists. split; [rewrite !app_nil_r; reflexivity |].
           apply (scene_extended_trans _ _ _ _ _ (scene_extended_ground _ _)
                    (scene_extended_object _ _)).
      * eexists. split; [cbn [object_of wall_of ground objects walls]; rewrite !app_nil_r; reflexivity |].
        apply scene_extended_ground.
  - eexists. split; [cbn [object_of wall_of ground objects walls]; rewrite !app_nil_r; reflexivity |].
    apply scene_extended_ground.
Qed.

Lemma set_scene_id (self : Window) : set_scene (scene self) self = self.
Proof. destruct self. reflexivity. Qed.

Lemma pairs_fmap {X Y Z' : Type} (f : X -> Y -> Z') (xs : list X) (ys : list Y) :
  (x ← xs; y ← ys; [f x y]) = (fun p => f p.1 p.2) <$> (x ← xs; y ← ys; [(x, y)]).
Proof.
  induction xs as [| x xs IH]; [reflexivity |].
  change ((y ← ys; [f x y]) ++ (x ← xs; y ← ys; [f x y]) =
          (fun p => f p.1 p.2) <$> ((y ← ys; [(x, y)]) ++ (x ← xs; y ← ys; [(x, y)]))).
  rewrite fmap_app, IH. f_equal.
  clear. induction ys as [| y ys IHy]; [reflexivity |].
  simpl. f_equal. exact IHy.
Qed.

(** The loops of [create_chunk] append the placements of the tiles they
    visit, in order. *)
Lemma create_chunk_loop (grass : Texture) (sx sy : Z) (offsets : list (Z * Z))
  (rng : Rng) (cs : ChunkSprites) (self : Window) :
  textures !! "grass" = Some grass ->
  let tiles := (fun p => ((sx + p.1)%Z, (sy + p.2)%Z)) <$> offsets in
  exists rng' sc',
    for_each (fun p => create_chunk_tile textures sx sy p.1 p.2) offsets (rng, cs, self) =
      Some (rng', sprites_app cs (placements textures self grass tiles rng),
            set_scene sc' self) /\
    scene_extended (scene self) sc' (placements textures self grass tiles rng).
Proof.
  intros Hgrass. simpl.
  revert rng cs self. induction offsets as [| [x y] offsets IH]; intros rng cs self.
  - exists rng, (scene self). simpl. split.
    + rewrite set_scene_id. unfold placements. simpl. rewrite sprites_app_nil_r.
      reflexivity.
    + apply scene_extended_nil.
  - destruct (create_chunk_tile_spec grass sx sy x y rng cs self Hgrass)
      as (sc1 & Hbody & Hext1).
    cbn [for_each fst snd]. rewrite Hbody. cbn [mbind option_bind].
    destruct (IH (generate_terrain_element self (sx + x) (sy + y) rng).2
                 (sprites_app cs
                    (placements textures self grass [((sx + x)%Z, (sy + y)%Z)] rng))
                 (set_scene sc1 self)) as (rng' & sc' & Hloop & Hext2).
    rewrite (placements_mode (set_scene sc1 self) self) in Hloop, Hext2 by reflexivity.
    exists rng', sc'. rewrite fmap_cons. cbn [fst snd].
    pose proof (placements_cons self grass ((sx + x)%Z, (sy + y)%Z)
                  ((fun p => ((sx + p.1)%Z, (sy + p.2)%Z)) <$> offsets) rng) as Hcons.
    cbn [fst snd] in Hcons. rewrite Hcons. split.
    + rewrite Hloop. rewrite sprites_app_assoc. reflexivity.
    + exact (scene_extended_trans _ _ _ _ _ Hext1 Hext2).
Qed.

(** [create_chunk] returns the placement lists of the chunk and appends them
    to the terrain layers of the scene; nothing else changes. *)
Lemma create_chunk_spec (grass : Texture) (self : Window) (cx cy : Z) :
  textures !! "grass" = Some grass ->
  exists sc',
    create_chunk textures self cx cy =
      Some (chunk_placements textures self grass cx cy, set_scene sc' self) /\
    scene_extended (scene self) sc' (chunk_placements textures self grass cx cy).
Proof.
  intros Hgrass. unfold create_chunk, chunk_placements, chunk_tiles.
  rewrite for_each_nested.
  rewrite (pairs_fmap (fun x y => ((cx * CHUNK_SIZE + x)%Z, (cy * CHUNK_SIZE + y)%Z))).
  destruct (create_chunk_loop grass (cx * CHUNK_SIZE) (cy * CHUNK_SIZE)
              (x ← py_range 0 CHUNK_SIZE; y ← py_range 0 CHUNK_SIZE; [(x, y)])
              (Random (get_chunk_seed self cx cy))
              {| ground := []; objects := []; walls := [] |} self Hgrass)
    as (rng' & sc' & Hloop & Hext).
  exists sc'. rewrite Hloop. cbn [mbind option_bind].
  rewrite sprites_app_nil_l. split; [reflexivity | exact Hext].
Qed.

Lemma create_chunk_raises (self : Window) (cx cy : Z) :
  textures !! "grass" = None -> create_chunk textures self cx cy = None.
Proof.
  intros Hgrass. unfold create_chunk.
  assert (Hfirst : forall st,
    for_each (fun x => for_each (create_chunk_tile textures (cx * CHUNK_SIZE)
                                   (cy * CHUNK_SIZE) x) (py_range 0 CHUNK_SIZE))
      (py_range 0 CHUNK_SIZE) st = None).
  { intros [[rng cs] s].
    assert (Hrange : py_range 0 CHUNK_SIZE = 0%Z :: py_range 1 CHUNK_SIZE)
      by reflexivity.
    rewrite Hrange. cbn [for_each].
    unfold create_chunk_tile. cbn [iso_to_screen]. rewrite Hgrass. reflexivity. }
  rewrite Hfirst. reflexivity.
Qed.

End create_chunk_facts.

(** ** The window of needed chunks *)

Section window_facts.

Lemma elem_of_py_range (a b z : Z) : z ∈ py_range a b <-> (a <= z < b)%Z.
Proof. unfold py_range. rewrite elem_of_seqZ. lia. Qed.

Lemma foldl_union_singletons {X : Type} (g : X -> Z * Z) (l : list X) (acc : gset (Z * Z)) :
  foldl (fun acc x => acc ∪ {[ g x ]}) acc l = acc ∪ list_to_set (g <$> l).
Proof.
  revert acc. induction l as [| x l IH]; intros acc; simpl.
  - rewrite right_id_L; [reflexivity | apply _].
  - rewrite IH, assoc_L; [reflexivity | apply _].
Qed.

Lemma foldl_union_pairs (center : Z * Z) (xs ys : list Z) (acc : gset (Z * Z)) :
  foldl (fun chunks_needed dx =>
           foldl (fun chunks_needed dy =>
                    chunks_needed ∪ {[ ((center.1 + dx)%Z, (center.2 + dy)%Z) ]})
                 chunks_needed ys) acc xs =
  acc ∪ list_to_set (dx ← xs; (fun dy => ((center.1 + dx)%Z, (center.2 + dy)%Z)) <$> ys).
Proof.
  revert acc. induction xs as [| x xs IH]; intros acc.
  - simpl. rewrite right_id_L; [reflexivity | apply _].
  - change (foldl (fun chunks_needed dx =>
                     foldl (fun chunks_needed dy =>
                        chunks_needed ∪ {[ ((center.1 + dx)%Z, (center.2 + dy)%Z) ]})
                       chunks_needed ys)
              (foldl (fun chunks_needed dy =>
                        chunks_needed ∪ {[ ((center.1 + x)%Z, (center.2 + dy)%Z) ]})
                 acc ys) xs =
            acc ∪ list_to_set
              (((fun dy => ((center.1 + x)%Z, (center.2 + dy)%Z)) <$> ys) ++
               (dx ← xs; (fun dy => ((center.1 + dx)%Z, (center.2 + dy)%Z)) <$> ys))).
    rewrite IH, (foldl_union_singletons (fun dy => ((center.1 + x)%Z, (center.2 + dy)%Z))).
    rewrite list_to_set_app_L, assoc_L; [reflexivity | apply _].
Qed.

(** The needed set holds the offsets of the two loops. *)
Lemma chunks_needed_around_list (center : Z * Z) (r : Z) :
  chunks_needed_around center r =
  list_to_set (dx ← py_range (- r) (r + 1);
               (fun dy => ((center.1 + dx)%Z, (center.2 + dy)%Z)) <$> py_range (- r) (r + 1)).
Proof.
  unfold chunks_needed_around. rewrite foldl_union_pairs.
  rewrite left_id_L; [reflexivity | apply _].
Qed.

Lemma elem_of_chunks_needed_around (center : Z * Z) (r : Z) (p : Z * Z) :
  p ∈ chunks_needed_around center r <-> in_window center r p.
Proof.
  rewrite chunks_needed_around_list, elem_of_list_to_set, list_elem_of_bind.
  unfold in_window. destruct p as [px py]. simpl. split.
  - intros (dx & Hp & Hdx). apply list_elem_of_fmap in Hp as (dy & Hp & Hdy).
    apply elem_of_py_range in Hdx, Hdy. inversion Hp; subst. lia.
  - intros [Hx Hy]. exists (px - center.1)%Z. split.
    + apply list_elem_of_fmap. exists (py - center.2)%Z. split.
      * f_equal; lia.
      * apply elem_of_py_range. lia.
    + apply elem_of_py_range. lia.
Qed.

Lemma size_chunks_needed_around (center : Z * Z) (r : Z) :
  (0 <= r)%Z -> size (chunks_needed_around center r) = Z.to_nat ((2 * r + 1) ^ 2).
Proof.
  intros Hr. rewrite chunks_needed_around_list, size_list_to_set.
  - assert (Hlen : forall (xs ys : list Z),
      length (dx ← xs; (fun dy => ((center.1 + dx)%Z, (center.2 + dy)%Z)) <$> ys) =
      (length xs * length ys)%nat).
    { induction xs as [| x xs IH]; intros ys; [reflexivity |].
      change (length (((fun dy => ((center.1 + x)%Z, (center.2 + dy)%Z)) <$> ys) ++
                (dx ← xs; (fun dy => ((center.1 + dx)%Z, (center.2 + dy)%Z)) <$> ys)) =
              (S (length xs) * length ys)%nat).
      rewrite length_app, length_fmap, IH. lia. }
    rewrite Hlen. unfold py_range. rewrite length_seqZ. nia.
  - apply NoDup_bind.
    + intros x1 x2 y _ _ H1 H2.
      apply list_elem_of_fmap in H1 as (d1 & -> & _).
      apply list_elem_of_fmap in H2 as (d2 & Heq & _).
      inversion Heq. lia.
    + intros x _. apply NoDup_fmap_2; [| apply NoDup_seqZ].
      intros d1 d2 Heq. inversion Heq. lia.
    + apply NoDup_seqZ.
Qed.

End window_facts.

(** ** update_chunks *)

Section reconcile_facts.
Context `{RandomGen}.
Variable textures : gmap string Texture.

Lemma chunk_placements_mode (self self' : Window) (grass : Texture) (cx cy : Z) :
  terrain_mode self = terrain_mode self' ->
  chunk_placements textures self grass cx cy = chunk_placements textures self' grass cx cy.
Proof. intros Hmode. unfold chunk_placements. apply placements_mode. assumption. Qed.

Lemma scene_grows_refl (sc : gmap string (list Sprite)) : scene_grows sc sc.
Proof. intros name s Hs. exact Hs. Qed.

Lemma scene_grows_trans (sc1 sc2 sc3 : gmap string (list Sprite)) :
  scene_grows sc1 sc2 -> scene_grows sc2 sc3 -> scene_grows sc1 sc3.
Proof. intros H12 H23 name s Hs. apply H23, H12, Hs. Qed.

Lemma scene_extended_grows (sc sc' : gmap string (list Sprite)) (added : ChunkSprites) :
  scene_extended sc sc' added -> scene_grows sc sc'.
Proof. intros Hext name s Hs. eapply scene_extended_layer_mono; eassumption. Qed.

Lemma scene_extended_holds (sc sc' : gmap string (list Sprite)) (added : ChunkSprites) :
  scene_extended sc sc' added -> sprites_in_scene added sc'.
Proof.
  intros (Hg & Ho & Hw & _). unfold sprites_in_scene.
  rewrite Hg, Ho, Hw. repeat split; intros s Hs; apply elem_of_app; right; exact Hs.
Qed.

Lemma sprites_in_scene_grows (cs : ChunkSprites) (sc sc' : gmap string (list Sprite)) :
  scene_grows sc sc' -> sprites_in_scene cs sc -> sprites_in_scene cs sc'.
Proof.
  intros Hgrow (Hg & Ho & Hw). repeat split; intros s Hs; apply Hgrow; auto.
Qed.

(** The eviction loop: the keys of the list are deleted, nothing else. *)
Lemma evict_spec (l : list (Z * Z)) (self : Window) :
  let self' :=
    foldl (fun self chunk_pos => set_chunks (delete chunk_pos (chunks self)) self) self l in
  scene self' = scene self /\
  terrain_mode self' = terrain_mode self /\
  camera_position self' = camera_position self /\
  (forall p, p ∈ l -> chunks self' !! p = None) /\
  (forall p, p ∉ l -> chunks self' !! p = chunks self !! p).
Proof.
  revert self. induction l as [| q l IH]; intros self; simpl.
  - repeat split; auto. intros p Hp. inversion Hp.
  - destruct (IH (set_chunks (delete q (chunks self)) self)) as (Hs & Hm & Hc & Hin & Hout).
    simpl in *. repeat split; auto.
    + intros p Hp. destruct (decide (p ∈ l)) as [Hl | Hl]; [auto |].
      rewrite Hout by assumption. apply elem_of_cons in Hp as [-> | Hp]; [| contradiction].
      apply lookup_delete_eq.
    + intros p Hp. apply not_elem_of_cons in Hp as [Hne Hl].
      rewrite Hout by assumption. apply lookup_delete_ne. congruence.
Qed.

Lemma elem_of_chunks_to_remove (needed : gset (Z * Z)) (self : Window) (p : Z * Z) :
  p ∈ filter (fun chunk_pos => chunk_pos ∉ needed) (map_to_list (chunks self)).*1 <->
  (p ∉ needed) /\ p ∈ dom (chunks self).
Proof.
  rewrite list_elem_of_filter, list_elem_of_fmap, elem_of_dom. split.
  - intros (Hn & [q cs] & -> & Hq). split; [assumption |].
    apply elem_of_map_to_list in Hq. eauto.
  - intros (Hn & cs & Hcs). split; [assumption |].
    exists (p, cs). split; [reflexivity |]. apply elem_of_map_to_list. assumption.
Qed.

Lemma filter_none {X : Type} (P : X -> Prop) `{!forall x, Decision (P x)} (l : list X) :
  (forall x, x ∈ l -> ~ P x) -> filter P l = [].
Proof.
  induction l as [| x l IH]; intros Hl; [reflexivity |].
  rewrite filter_cons_False by (apply Hl; left).
  apply IH. intros z Hz. apply Hl. right. assumption.
Qed.

(** One iteration of the creation loop keeps the invariant. *)
Lemma creation_step (grass : Texture) (start : Window) (visited : list (Z * Z))
  (p : Z * Z) (self : Window) :
  textures !! "grass" = Some grass ->
  creation_inv textures grass start visited self ->
  exists self',
    (if decide (p ∉ dom (chunks self)) then
       ('(chunk_sprites, self) ← create_chunk textures self p.1 p.2;
        Some (set_chunks (<[p := chunk_sprites]> (chunks self)) self))
     else Some self) = Some self' /\
    creation_inv textures grass start (visited ++ [p]) self'.
Proof.
  intros Hgrass (Hmode & Hcam & Hgrow & Hdom & Hold & Hnew).
  destruct (decide (p ∉ dom (chunks self))) as [Habsent | Hpresent].
  - destruct (create_chunk_spec textures grass self p.1 p.2 Hgrass) as (sc' & Hcreate & Hext).
    rewrite Hcreate. cbn [mbind option_bind].
    eexists. split; [reflexivity |].
    rewrite (chunk_placements_mode self start) in * by assumption.
    assert (Hstart : chunks start !! p = None).
    { apply not_elem_of_dom. intros Hin. apply Habsent, Hdom. left. assumption. }
    unfold creation_inv. cbn [scene chunks terrain_mode camera_position set_chunks set_scene].
    split_and!.
    + assumption.
    + assumption.
    + eapply scene_grows_trans; [exact Hgrow | eapply scene_extended_grows; exact Hext].
    + intros q. rewrite dom_insert_L, elem_of_union, elem_of_singleton, Hdom, elem_of_app,
        list_elem_of_singleton. tauto.
    + intros q cs Hq. rewrite lookup_insert_ne; [auto | congruence].
    + intros q Hq Hnone. destruct (decide (p = q)) as [<- | Hne].
      * split; [apply lookup_insert_eq | eapply scene_extended_holds; exact Hext].
      * assert (Hv : q ∈ visited).
        { apply elem_of_app in Hq as [Hv | Hv]; [assumption |].
          apply list_elem_of_singleton in Hv. congruence. }
        destruct (Hnew q Hv Hnone) as [Hlook Hin].
        split; [rewrite lookup_insert_ne by assumption; exact Hlook |].
        eapply sprites_in_scene_grows; [eapply scene_extended_grows; exact Hext | exact Hin].
  - exists self. split; [reflexivity |].
    apply dec_stable in Hpresent.
    unfold creation_inv. split_and!.
    + assumption.
    + assumption.
    + assumption.
    + intros q. rewrite Hdom, elem_of_app, list_elem_of_singleton. split; [tauto |].
      intros [Hin | [Hin | ->]]; [tauto | tauto |]. apply Hdom. assumption.
    + assumption.
    + intros q Hq Hnone. apply Hnew; [| assumption].
      apply elem_of_app in Hq as [Hv | Hv]; [assumption |].
      apply list_elem_of_singleton in Hv. subst q.
      apply Hdom in Hpresent as [Hin | Hin]; [| assumption].
      apply elem_of_dom in Hin as [cs Hcs]. congruence.
Qed.

(** [reconcile] returns; afterwards the resident chunks are those of the
    window, no layer of the scene has lost a sprite, the chunks that stayed
    are unchanged and the chunks that entered hold their placement lists. *)
Lemma reconcile_spec (grass : Texture) (center : Z * Z) (r : Z) (self : Window) :
  textures !! "grass" = Some grass ->
  exists self',
    reconcile textures center r self = Some self' /\
    terrain_mode self' = terrain_mode self /\
    camera_position self' = camera_position self /\
    scene_grows (scene self) (scene self') /\
    (forall p, p ∈ dom (chunks self') <-> in_window center r p) /\
    (forall p cs, in_window center r p -> chunks self !! p = Some cs ->
       chunks self' !! p = Some cs) /\
    (forall p, in_window center r p -> chunks self !! p = None ->
       chunks self' !! p = Some (chunk_placements textures self grass p.1 p.2) /\
       sprites_in_scene (chunk_placements textures self grass p.1 p.2) (scene self')).
Proof.
  intros Hgrass. unfold reconcile.
  set (needed := chunks_needed_around center r).
  set (to_remove := filter (fun chunk_pos => chunk_pos ∉ needed) (map_to_list (chunks self)).*1).
  destruct (evict_spec to_remove self) as (Hsc & Hmode & Hcam & Hgone & Hkept).
  set (start := foldl (fun self chunk_pos => set_chunks (delete chunk_pos (chunks self)) self)
                      self to_remove) in *.
  destruct (for_each_invariant (creation_inv textures grass start)
              (fun chunk_pos self =>
                 if decide (chunk_pos ∉ dom (chunks self)) then
                   ('(chunk_sprites, self) ← create_chunk textures self chunk_pos.1 chunk_pos.2;
                    Some (set_chunks (<[chunk_pos := chunk_sprites]> (chunks self)) self))
                 else Some self)
              (elements needed) start)
    as (self' & Hloop & Hmode' & Hcam' & Hgrow & Hdom & Hold & Hnew).
  { unfold creation_inv. split_and!; auto using scene_grows_refl.
    - intros p. rewrite elem_of_nil. tauto.
    - intros p Hp. inversion Hp. }
  { intros visited p s Hinv _. apply creation_step; assumption. }
  assert (Hrem : forall p, p ∈ to_remove <-> (p ∉ needed) /\ p ∈ dom (chunks self))
    by (intros p; apply elem_of_chunks_to_remove).
  assert (Hstart : forall p, chunks start !! p =
                     if decide (p ∈ needed) then chunks self !! p else None).
  { intros p. destruct (decide (p ∈ needed)) as [Hn | Hn].
    - apply Hkept. rewrite Hrem. tauto.
    - destruct (chunks self !! p) as [cs |] eqn:Hp.
      + apply Hgone. rewrite Hrem. split; [assumption |].
        apply elem_of_dom. eauto.
      + rewrite Hkept; [assumption |]. rewrite Hrem.
        intros [_ Hin]. apply elem_of_dom in Hin as [cs Hcs]. congruence. }
  exists self'. split; [exact Hloop |].
  split; [congruence |]. split; [congruence |].
  split; [rewrite <- Hsc; exact Hgrow |].
  split_and!.
  - intros p. rewrite Hdom, elem_of_elements, <- elem_of_chunks_needed_around.
    fold needed. split; [| tauto].
    intros [Hin | Hin]; [| assumption].
    apply elem_of_dom in Hin as [cs Hcs]. rewrite Hstart in Hcs.
    destruct (decide (p ∈ needed)); [assumption | discriminate].
  - intros p cs Hwin Hp. apply Hold. rewrite Hstart.
    apply elem_of_chunks_needed_around in Hwin. fold needed in Hwin.
    destruct (decide (p ∈ needed)); [assumption | contradiction].
  - intros p Hwin Hp.
    apply elem_of_chunks_needed_around in Hwin. fold needed in Hwin.
    rewrite (chunk_placements_mode self start) by congruence.
    apply Hnew; [apply elem_of_elements; assumption |].
    rewrite Hstart. destruct (decide (p ∈ needed)); [assumption | reflexivity].
Qed.

End reconcile_facts.

(** ** A tile with a feature: (-2, -1) carries a tall stone *)

Section stone_tile.
Local Open Scope R_scope.

Lemma cos_ge_quadratic (a : R) : -2 <= a <= 2 -> 1 - a * a / 2 <= cos a.
Proof.
  intros [Hlo Hhi]. destruct (pre_cos_bound a 0 Hlo Hhi) as [Hcos _].
  unfold cos_approx, cos_term in Hcos. simpl in Hcos. lra.
Qed.

Lemma cos_ge_of_abs (a b : R) : - b <= a <= b -> b <= 2 -> 1 - b * b / 2 <= cos a.
Proof.
  intros [Hlo Hhi] Hb. pose proof (cos_ge_quadratic a ltac:(lra)). nra.
Qed.

Lemma sin_neg_small_bounds (a : R) : 0 < a <= 1 -> - a < sin (- a) < 0.
Proof. intros Ha. rewrite sin_neg. pose proof (sin_small_bounds a Ha). lra. Qed.

Lemma cos_unit_bounds (a : R) : -1 <= a <= 1 -> 0 < cos a <= 1.
Proof.
  intros Ha. pose proof (cos_ge_quadratic a ltac:(lra)). pose proof (COS_bound a). nra.
Qed.

Lemma quantum_combined_stone_tile : 0.9 <= quantum_combined (-2) (-1).
Proof.
  rewrite quantum_combined_spec. unfold spec_combined.
  rewrite spec_density_closed_form, spec_variation_closed_form.
  replace (IZR (-2) * 0.1) with (- (0.2)) by lra.
  replace (IZR (-1) * 0.1) with (- (0.1)) by lra.
  replace (IZR (-2) * 0.05) with (- (0.1)) by lra.
  pose proof (sin_neg_small_bounds 0.2 ltac:(lra)) as Hs2.
  pose proof (sin_neg_small_bounds 0.1 ltac:(lra)) as Hs1.
  pose proof (cos_unit_bounds (- (0.1)) ltac:(lra)) as Hc1.
  pose proof (cos_unit_bounds (- (0.2)) ltac:(lra)) as Hc2.
  pose proof PI_gt_314 as Hpi. pose proof PI_4 as Hpi4.
  set (s2 := sin (- (0.2))) in *. set (s1 := sin (- (0.1))) in *.
  set (c1 := cos (- (0.1))) in *. set (c2 := cos (- (0.2))) in *.
  clearbody s2 s1 c1 c2.
  assert (Hp1 : - 0.2 <= s2 * c1 <= 0) by nra.
  assert (Hp2 : - 0.1 <= s1 * c2 <= 0) by nra.
  set (p1 := s2 * c1) in *. set (p2 := s1 * c2) in *. clearbody p1 p2.
  match goal with
  | |- _ <= ((cos ?u + 1) / 2 + (cos ?v + 1) / 2 * 0.5) / 1.5 =>
      pose proof (cos_ge_of_abs u 0.6 ltac:(lra) ltac:(lra)) as Hu;
      pose proof (cos_ge_of_abs v 0.6 ltac:(lra) ltac:(lra)) as Hv
  end.
  lra.
Qed.

Lemma quantum_terrain_stone_tile : quantum_terrain (-2) (-1) = Some "stone_tall".
Proof.
  unfold quantum_terrain, quantum_band.
  pose proof quantum_combined_stone_tile as Hc.
  repeat match goal with
         | |- context [Rlt_dec ?a ?b] => destruct (Rlt_dec a b); [lra |]
         end.
  reflexivity.
Qed.

End stone_tile.

(** ** The window invariant *)

Section window_invariant.
Context `{RandomGen}.
Variable textures : gmap string Texture.

(** On a store whose resident chunks are those of the window, [reconcile]
    evicts nothing and creates nothing. *)
Lemma reconcile_satisfied (center : Z * Z) (r : Z) (self : Window) :
  (forall p, p ∈ dom (chunks self) <-> in_window center r p) ->
  reconcile textures center r self = Some self.
Proof.
  intros Hdom. unfold reconcile.
  rewrite filter_none.
  - simpl. apply for_each_unchanged. intros p Hp.
    apply elem_of_elements, elem_of_chunks_needed_around, Hdom in Hp.
    destruct (decide (p ∉ dom (chunks self))); [contradiction | reflexivity].
  - intros p Hp Hn. apply Hn, elem_of_chunks_needed_around, Hdom.
    apply list_elem_of_fmap in Hp as ([q cs] & -> & Hq).
    apply elem_of_map_to_list in Hq. apply elem_of_dom. eauto.
Qed.

(** C4: after [reconcile] the keys of the resident-chunk map are exactly
    the (2r+1)² coordinates of the square around the viewpoint chunk, and
    running it again on that store changes nothing. *)
Theorem reconcile_window_exact (center : Z * Z) (r : Z) (self : Window) :
  is_Some (textures !! "grass") -> (0 <= r)%Z ->
  exists self',
    reconcile textures center r self = Some self' /\
    (forall p, p ∈ dom (chunks self') <->
       (center.1 - r <= p.1 <= center.1 + r)%Z /\ (center.2 - r <= p.2 <= center.2 + r)%Z) /\
    size (dom (chunks self')) = Z.to_nat ((2 * r + 1) ^ 2) /\
    reconcile textures center r self' = Some self'.
Proof.
  intros [grass Hgrass] Hr.
  destruct (reconcile_spec textures grass center r self Hgrass)
    as (self' & Hrun & _ & _ & _ & Hdom & _).
  exists self'. split; [exact Hrun |]. split; [exact Hdom |]. split.
  - rewrite <- (size_chunks_needed_around center r Hr). f_equal.
    apply set_eq. intros p. rewrite Hdom, elem_of_chunks_needed_around. reflexivity.
  - apply reconcile_satisfied. exact Hdom.
Qed.

(** The same for [update_chunks], whose radius is [RENDER_DISTANCE]: 81
    resident chunks around the chunk of the camera. *)
Lemma update_chunks_window (self : Window) :
  is_Some (textures !! "grass") ->
  exists self',
    update_chunks textures self = Some self' /\
    size (dom (chunks self')) = 81%nat /\
    update_chunks textures self' = Some self'.
Proof.
  intros [grass Hgrass]. unfold update_chunks.
  set (center := screen_to_chunk self _ _).
  destruct (reconcile_spec textures grass center RENDER_DISTANCE self Hgrass)
    as (self' & Hrun & _ & Hcam & _ & Hdom & _).
  exists self'. split; [exact Hrun |]. split.
  - replace (dom (chunks self')) with (chunks_needed_around center RENDER_DISTANCE).
    + rewrite size_chunks_needed_around by (unfold RENDER_DISTANCE; lia). reflexivity.
    + apply set_eq. intros p. rewrite Hdom, elem_of_chunks_needed_around. reflexivity.
  - rewrite Hcam.
    change (screen_to_chunk self' ?a ?b) with (screen_to_chunk self a b).
    fold center. apply reconcile_satisfied. exact Hdom.
Qed.

End window_invariant.

Lemma all_textures_grass : all_textures !! "grass" = Some "assets/terrain/ground_grass_NE.png".
Proof. reflexivity. Qed.

(** The window theorem at the first [update_chunks] of a run. *)
Lemma reconcile_window_exact_witness :
  exists self',
    reconcile (H := zero_rng) all_textures (0, 0)%Z 4 initial_window = Some self' /\
    (forall p, p ∈ dom (chunks self') <->
       (0 - 4 <= p.1 <= 0 + 4)%Z /\ (0 - 4 <= p.2 <= 0 + 4)%Z) /\
    size (dom (chunks self')) = Z.to_nat ((2 * 4 + 1) ^ 2) /\
    reconcile (H := zero_rng) all_textures (0, 0)%Z 4 self' = Some self'.
Proof.
  apply (reconcile_window_exact (H := zero_rng) all_textures (0, 0)%Z 4 initial_window).
  - exists "assets/terrain/ground_grass_NE.png". reflexivity.
  - lia.
Defined.

(** ** Placement lists *)

Section placement_facts.
Context `{RandomGen}.
Variable textures : gmap string Texture.

(** A chunk owns the tiles of its square. *)
Lemma elem_of_chunk_tiles (cx cy : Z) (tile : Z * Z) :
  tile ∈ chunk_tiles cx cy <->
  (cx * CHUNK_SIZE <= tile.1 < cx * CHUNK_SIZE + CHUNK_SIZE)%Z /\
  (cy * CHUNK_SIZE <= tile.2 < cy * CHUNK_SIZE + CHUNK_SIZE)%Z.
Proof.
  unfold chunk_tiles. rewrite list_elem_of_bind. destruct tile as [tx ty].
  cbn [fst snd]. split.
  - intros (x & Hin & Hx). apply list_elem_of_bind in Hin as (y & Hin & Hy).
    apply list_elem_of_singleton in Hin. apply elem_of_py_range in Hx, Hy.
    inversion Hin; subst. lia.
  - intros [Hx Hy]. exists (tx - cx * CHUNK_SIZE)%Z. split.
    + apply list_elem_of_bind. exists (ty - cy * CHUNK_SIZE)%Z. split.
      * apply list_elem_of_singleton. f_equal; lia.
      * apply elem_of_py_range. lia.
    + apply elem_of_py_range. lia.
Qed.

Lemma chunk_tiles_length (cx cy : Z) :
  length (chunk_tiles cx cy) = Z.to_nat (CHUNK_SIZE * CHUNK_SIZE).
Proof. reflexivity. Qed.

(** In the quantum mode the generator is never consulted. *)
Lemma chunk_elements_quantum (self : Window) (tiles : list (Z * Z)) (rng : Rng) :
  terrain_mode self = "quantum" ->
  chunk_elements self tiles rng = (fun t => (t, quantum_terrain t.1 t.2)) <$> tiles.
Proof.
  intros Hmode. revert rng. induction tiles as [| t tiles IH]; intros rng; [reflexivity |].
  simpl. unfold generate_terrain_element at 1. rewrite Hmode. simpl.
  rewrite IH. reflexivity.
Qed.

Lemma elem_of_chunk_elements_tile (self : Window) (tiles : list (Z * Z)) (rng : Rng)
  (te : (Z * Z) * option string) :
  te ∈ chunk_elements self tiles rng -> te.1 ∈ tiles.
Proof.
  revert rng. induction tiles as [| t tiles IH]; intros rng; simpl.
  - intros Hin. inversion Hin.
  - destruct (generate_terrain_element self t.1 t.2 rng) as [e rng'].
    intros [-> | Hin]%elem_of_cons; [left | right; eapply IH; exact Hin].
Qed.

(** What a feature placement records. *)
Lemma feature_placement_Some (self : Window) (tile : Z * Z) (element : option string)
  (flag : bool) (s : Sprite) :
  feature_placement textures self tile element = Some (flag, s) ->
  exists e,
    element = Some e /\ e <> "" /\ textures !! e = Some (texture s) /\
    flag = has_collision self e /\
    iso_tile s = Some tile /\
    (center_x s, center_y s) = iso_to_screen self tile.1 tile.2 /\
    hit_box s =
      (if flag
       then Some {| hb_points := get_hitbox_for_element self e;
                    hb_position := iso_to_screen self tile.1 tile.2 |}
       else None).
Proof.
  unfold feature_placement. destruct element as [e |]; [| discriminate]. simpl.
  destruct (String.eqb_spec e "") as [-> | Hne]; [discriminate |].
  destruct (textures !! e) as [tex |] eqn:Htex; [| discriminate]. simpl.
  intros Heq. inversion Heq; subst. exists e. simpl.
  repeat split; try assumption; reflexivity.
Qed.

Lemma feature_placement_missing (self : Window) (tile : Z * Z) (e : string) :
  textures !! e = None -> feature_placement textures self tile (Some e) = None.
Proof.
  intros Hmiss. unfold feature_placement. simpl.
  destruct (String.eqb e ""); [reflexivity |]. rewrite Hmiss. reflexivity.
Qed.

Lemma feature_placement_loaded (self : Window) (tile : Z * Z) (e : string) (tex : Texture) :
  e <> "" -> textures !! e = Some tex ->
  feature_placement textures self tile (Some e) =
  Some (has_collision self e,
        {| texture := tex;
           center_x := (iso_to_screen self tile.1 tile.2).1;
           center_y := (iso_to_screen self tile.1 tile.2).2;
           iso_tile := Some tile;
           hit_box :=
             if has_collision self e
             then Some {| hb_points := get_hitbox_for_element self e;
                          hb_position := iso_to_screen self tile.1 tile.2 |}
             else None |}).
Proof.
  intros Hne Htex. unfold feature_placement. simpl.
  destruct (String.eqb_spec e "") as [-> | _]; [contradiction |].
  rewrite Htex. reflexivity.
Qed.

Lemma elem_of_walls (self : Window) (grass : Texture) (tiles : list (Z * Z)) (rng : Rng)
  (s : Sprite) :
  s ∈ walls (placements textures self grass tiles rng) <->
  exists te, te ∈ chunk_elements self tiles rng /\
             feature_placement textures self te.1 te.2 = Some (true, s).
Proof.
  unfold placements. simpl. rewrite list_elem_of_omap. split.
  - intros (te & Hin & Hw). exists te. split; [assumption |].
    destruct (feature_placement textures self te.1 te.2) as [[[] s'] |];
      simpl in Hw; congruence.
  - intros (te & Hin & Hw). exists te. split; [assumption |]. rewrite Hw. reflexivity.
Qed.

Lemma elem_of_objects (self : Window) (grass : Texture) (tiles : list (Z * Z)) (rng : Rng)
  (s : Sprite) :
  s ∈ objects (placements textures self grass tiles rng) <->
  exists te, te ∈ chunk_elements self tiles rng /\
             feature_placement textures self te.1 te.2 = Some (false, s).
Proof.
  unfold placements. simpl. rewrite list_elem_of_omap. split.
  - intros (te & Hin & Hw). exists te. split; [assumption |].
    destruct (feature_placement textures self te.1 te.2) as [[[] s'] |];
      simpl in Hw; congruence.
  - intros (te & Hin & Hw). exists te. split; [assumption |]. rewrite Hw. reflexivity.
Qed.

End placement_facts.

(** ** Creating a chunk twice *)

Section idempotent_creation.
Context `{RandomGen}.
Variable textures : gmap string Texture.

(** C9: two creations of the chunk (cx, cy), from whatever states of the
    window, in the same generation mode, return the same placement lists:
    the same ground placement for each of the CHUNK_SIZE × CHUNK_SIZE tiles
    and the same feature placements. *)
Theorem create_chunk_idempotent (self1 self2 : Window) (cx cy : Z) :
  is_Some (textures !! "grass") ->
  terrain_mode self1 = terrain_mode self2 ->
  exists (cs : ChunkSprites) (self1' self2' : Window),
    create_chunk textures self1 cx cy = Some (cs, self1') /\
    create_chunk textures self2 cx cy = Some (cs, self2') /\
    length (ground cs) = Z.to_nat (CHUNK_SIZE * CHUNK_SIZE).
Proof.
  intros [grass Hgrass] Hmode.
  destruct (create_chunk_spec textures grass self1 cx cy Hgrass) as (sc1 & Hc1 & _).
  destruct (create_chunk_spec textures grass self2 cx cy Hgrass) as (sc2 & Hc2 & _).
  rewrite (chunk_placements_mode textures self2 self1) in Hc2 by congruence.
  eexists _, _, _. split; [exact Hc1 |]. split; [exact Hc2 |].
  unfold chunk_placements, placements. cbn [ground].
  rewrite length_fmap. apply chunk_tiles_length.
Qed.

(** A chunk that leaves the window and enters it again is created anew
    with the placement lists it had. *)
Lemma evict_then_reenter (c1 c2 : Z * Z) (r : Z) (self : Window) (p : Z * Z) :
  is_Some (textures !! "grass") ->
  in_window c1 r p -> ~ in_window c2 r p -> chunks self !! p = None ->
  exists (s1 s2 s3 : Window) (cs : ChunkSprites),
    reconcile textures c1 r self = Some s1 /\
    reconcile textures c2 r s1 = Some s2 /\
    reconcile textures c1 r s2 = Some s3 /\
    chunks s1 !! p = Some cs /\ chunks s2 !! p = None /\ chunks s3 !! p = Some cs.
Proof.
  intros [grass Hgrass] Hin Hout Hnone.
  destruct (reconcile_spec textures grass c1 r self Hgrass)
    as (s1 & Hr1 & Hm1 & _ & _ & _ & _ & Hnew1).
  destruct (reconcile_spec textures grass c2 r s1 Hgrass)
    as (s2 & Hr2 & Hm2 & _ & _ & Hdom2 & _ & _).
  destruct (reconcile_spec textures grass c1 r s2 Hgrass)
    as (s3 & Hr3 & _ & _ & _ & _ & _ & Hnew3).
  assert (Hgone : chunks s2 !! p = None).
  { apply not_elem_of_dom. rewrite Hdom2. exact Hout. }
  exists s1, s2, s3, (chunk_placements textures self grass p.1 p.2).
  split_and!; try assumption.
  - apply Hnew1; assumption.
  - rewrite (chunk_placements_mode textures self s2) by congruence.
    apply Hnew3; assumption.
Qed.

End idempotent_creation.

(** Chunk (3, -2) in the random mode, before and after the camera moved. *)
Lemma create_chunk_idempotent_witness :
  exists (cs : ChunkSprites) (self1' self2' : Window),
    create_chunk (H := zero_rng) all_textures
      (set_terrain_mode "random" initial_window) 3 (-2) = Some (cs, self1') /\
    create_chunk (H := zero_rng) all_textures
      (set_camera_position (9600, 0)%R (set_terrain_mode "random" initial_window)) 3 (-2)
      = Some (cs, self2') /\
    length (ground cs) = Z.to_nat (CHUNK_SIZE * CHUNK_SIZE).
Proof.
  apply (create_chunk_idempotent (H := zero_rng) all_textures).
  - exists "assets/terrain/ground_grass_NE.png". reflexivity.
  - reflexivity.
Defined.

(** ** Missing textures *)

Lemma load_textures_all : load_textures (fun _ => true) = Some all_textures.
Proof. reflexivity. Qed.

Lemma load_textures_without_stone_tall :
  load_textures loadable_without_stone_tall = Some textures_without_stone_tall.
Proof. reflexivity. Qed.

Section missing_textures.
Context `{RandomGen}.
Variable textures : gmap string Texture.

(** C6 (amended): the elements generated for the tiles of a chunk do not
    depend on the texture table, and neither do the positions of the ground
    placements; a tile whose element has no texture in the table gets no
    feature placement at all (no sprite, no flag, no hitbox), a tile whose
    element has one gets the sprite with that texture, the collidable flag
    of the element and, when collidable, its hitbox. *)
Theorem missing_texture_drops_feature (self : Window) (cx cy : Z) (grass : Texture) :
  textures !! "grass" = Some grass ->
  let generated :=
    chunk_elements self (chunk_tiles cx cy) (Random (get_chunk_seed self cx cy)) in
  exists (cs : ChunkSprites) (self' : Window),
    create_chunk textures self cx cy = Some (cs, self') /\
    ground cs = ground_placement self grass <$> chunk_tiles cx cy /\
    objects cs = omap (fun te => object_of (feature_placement textures self te.1 te.2)) generated /\
    walls cs = omap (fun te => wall_of (feature_placement textures self te.1 te.2)) generated /\
    (forall tile e, textures !! e = None ->
       feature_placement textures self tile (Some e) = None) /\
    (forall tile e tex, e <> "" -> textures !! e = Some tex ->
       feature_placement textures self tile (Some e) =
       Some (has_collision self e,
             {| texture := tex;
                center_x := (iso_to_screen self tile.1 tile.2).1;
                center_y := (iso_to_screen self tile.1 tile.2).2;
                iso_tile := Some tile;
                hit_box :=
                  if has_collision self e
                  then Some {| hb_points := get_hitbox_for_element self e;
                               hb_position := iso_to_screen self tile.1 tile.2 |}
                  else None |})).
Proof.
  intros Hgrass generated.
  destruct (create_chunk_spec textures grass self cx cy Hgrass) as (sc' & Hcreate & _).
  eexists _, _. split; [exact Hcreate |].
  split_and!; try reflexivity.
  - apply feature_placement_missing.
  - apply feature_placement_loaded.
Qed.

(** With the texture of the tall stone loaded, chunk (-1, -1) of the
    quantum mode has a wall at tile (-2, -1). *)
Lemma stone_tall_wall_placed (self : Window) (grass tex : Texture) :
  terrain_mode self = "quantum" ->
  textures !! "stone_tall" = Some tex ->
  exists wall : Sprite,
    wall ∈ walls (chunk_placements textures self grass (-1) (-1)) /\
    iso_tile wall = Some (-2, -1)%Z /\ texture wall = tex /\ is_Some (hit_box wall).
Proof.
  intros Hmode Htex.
  pose proof (feature_placement_loaded textures self (-2, -1)%Z "stone_tall" tex
                ltac:(discriminate) Htex) as Hplace.
  change (has_collision self "stone_tall") with true in Hplace.
  match type of Hplace with _ = Some (_, ?w) => exists w end.
  split; [| split; [reflexivity | split; [reflexivity | eexists; reflexivity]]].
  unfold chunk_placements. apply elem_of_walls.
  exists ((-2, -1)%Z, Some "stone_tall"). split; [| exact Hplace].
  rewrite chunk_elements_quantum by assumption.
  apply list_elem_of_fmap. exists (-2, -1)%Z. split.
  - cbn [fst snd]. rewrite quantum_terrain_stone_tile. reflexivity.
  - apply elem_of_chunk_tiles. unfold CHUNK_SIZE. simpl. lia.
Qed.

(** Without it, the chunk has no feature placement at that tile. *)
Lemma stone_tall_wall_dropped (self : Window) (grass : Texture) (s : Sprite) :
  terrain_mode self = "quantum" ->
  textures !! "stone_tall" = None ->
  s ∈ walls (chunk_placements textures self grass (-1) (-1))
      ++ objects (chunk_placements textures self grass (-1) (-1)) ->
  iso_tile s <> Some (-2, -1)%Z.
Proof.
  intros Hmode Hmiss Hin Hiso. unfold chunk_placements in Hin.
  assert (Hte : exists te flag,
    te ∈ chunk_elements self (chunk_tiles (-1) (-1)) (Random (get_chunk_seed self (-1) (-1))) /\
    feature_placement textures self te.1 te.2 = Some (flag, s)).
  { apply elem_of_app in Hin as [Hin | Hin].
    - apply elem_of_walls in Hin as (te & Hte & Hp). eauto.
    - apply elem_of_objects in Hin as (te & Hte & Hp). eauto. }
  destruct Hte as (te & flag & Hte & Hplace).
  rewrite chunk_elements_quantum in Hte by assumption.
  apply list_elem_of_fmap in Hte as (t & -> & _). cbn [fst snd] in Hplace.
  apply feature_placement_Some in Hplace as (e & He & _ & Htex & _ & Htile & _).
  rewrite Hiso in Htile. inversion Htile; subst t.
  cbn [fst snd] in He. rewrite quantum_terrain_stone_tile in He.
  inversion He; subst e. congruence.
Qed.

End missing_textures.

(** C6 (counterexample): both tables are results of [load_textures]; with
    every file loaded, chunk (-1, -1) has a collidable tall stone with its
    hitbox at tile (-2, -1); when the image of the tall stone fails to
    load, the same chunk has no feature placement at that tile, and its
    list of walls is another one. *)
Lemma missing_texture_changes_chunk :
  load_textures (fun _ => true) = Some all_textures /\
  load_textures loadable_without_stone_tall = Some textures_without_stone_tall /\
  exists (cs1 cs2 : ChunkSprites) (w1 w2 : Window) (wall : Sprite),
    create_chunk (H := zero_rng) all_textures initial_window (-1) (-1) = Some (cs1, w1) /\
    create_chunk (H := zero_rng) textures_without_stone_tall initial_window (-1) (-1)
      = Some (cs2, w2) /\
    wall ∈ walls cs1 /\ iso_tile wall = Some (-2, -1)%Z /\ is_Some (hit_box wall) /\
    (forall s, s ∈ walls cs2 ++ objects cs2 -> iso_tile s <> Some (-2, -1)%Z) /\
    walls cs1 <> walls cs2.
Proof.
  split; [exact load_textures_all |].
  split; [exact load_textures_without_stone_tall |].
  destruct (create_chunk_spec (H := zero_rng) all_textures
              "assets/terrain/ground_grass_NE.png" initial_window (-1) (-1) eq_refl)
    as (sc1 & Hc1 & _).
  destruct (create_chunk_spec (H := zero_rng) textures_without_stone_tall
              ":resources:images/tiles/grassCenter.png" initial_window (-1) (-1) eq_refl)
    as (sc2 & Hc2 & _).
  destruct (stone_tall_wall_placed (H := zero_rng) all_textures initial_window
              "assets/terrain/ground_grass_NE.png" "assets/terrain/stone_tallG_NE.png"
              eq_refl eq_refl) as (wall & Hwall & Hiso & _ & Hbox).
  pose proof (fun s => stone_tall_wall_dropped (H := zero_rng) textures_without_stone_tall
                initial_window ":resources:images/tiles/grassCenter.png" s
                eq_refl eq_refl) as Hdropped.
  eexists _, _, _, _, wall.
  split; [exact Hc1 |]. split; [exact Hc2 |].
  split; [exact Hwall |]. split; [exact Hiso |]. split; [exact Hbox |].
  split; [exact Hdropped |].
  intros Heq. apply (Hdropped wall); [| exact Hiso].
  apply elem_of_app. left. rewrite <- Heq. exact Hwall.
Qed.

(** Chunk (-1, -1) with the table that lacks the tall stone. *)
Lemma missing_texture_drops_feature_witness :
  let generated :=
    chunk_elements (H := zero_rng) initial_window (chunk_tiles (-1) (-1))
      (Random (get_chunk_seed initial_window (-1) (-1))) in
  exists (cs : ChunkSprites) (self' : Window),
    create_chunk (H := zero_rng) textures_without_stone_tall initial_window (-1) (-1)
      = Some (cs, self') /\
    ground cs =
      ground_placement initial_window ":resources:images/tiles/grassCenter.png"
        <$> chunk_tiles (-1) (-1) /\
    objects cs =
      omap (fun te => object_of
                        (feature_placement textures_without_stone_tall initial_window
                           te.1 te.2)) generated /\
    walls cs =
      omap (fun te => wall_of
                        (feature_placement textures_without_stone_tall initial_window
                           te.1 te.2)) generated /\
    (forall tile e, textures_without_stone_tall !! e = None ->
       feature_placement textures_without_stone_tall initial_window tile (Some e) = None) /\
    (forall tile e tex, e <> "" -> textures_without_stone_tall !! e = Some tex ->
       feature_placement textures_without_stone_tall initial_window tile (Some e) =
       Some (has_collision initial_window e,
             {| texture := tex;
                center_x := (iso_to_screen initial_window tile.1 tile.2).1;
                center_y := (iso_to_screen initial_window tile.1 tile.2).2;
                iso_tile := Some tile;
                hit_box :=
                  if has_collision initial_window e
                  then Some {| hb_points := get_hitbox_for_element initial_window e;
                               hb_position := iso_to_screen initial_window tile.1 tile.2 |}
                  else None |})).
Proof.
  apply (missing_texture_drops_feature (H := zero_rng) textures_without_stone_tall
           initial_window (-1) (-1) ":resources:images/tiles/grassCenter.png").
  reflexivity.
Defined.

(** ** Eviction *)

Section eviction.
Context `{RandomGen}.
Local Open Scope R_scope.

Lemma center_chunk_at (self : Window) (cam_x cam_y : R) (cx cy : Z) :
  IZR cx * 1024 <= cam_x + 640 < IZR cx * 1024 + 1024 -> 0 <= IZR cx ->
  IZR cy * 512 <= cam_y + 360 < IZR cy * 512 + 512 -> 0 <= IZR cy ->
  screen_to_chunk self (cam_x + IZR SCREEN_WIDTH / 2) (cam_y + IZR SCREEN_HEIGHT / 2)
  = (cx, cy).
Proof.
  intros Hx Hcx Hy Hcy.
  unfold screen_to_chunk, SCREEN_WIDTH, SCREEN_HEIGHT, TILE_WIDTH, TILE_HEIGHT, CHUNK_SIZE.
  rewrite !mult_IZR.
  replace ((cam_x + 1280 / 2) / (128 * 16 / 2)) with ((cam_x + 640) / 1024) by field.
  replace ((cam_y + 720 / 2) / (64 * 16 / 2)) with ((cam_y + 360) / 512) by field.
  f_equal.
  - rewrite py_int_nonneg by lra. apply Int_part_unique. lra.
  - rewrite py_int_nonneg by lra. apply Int_part_unique. lra.
Qed.

(** C5 (the code at the failing input): the camera starts at the origin
    and [update_chunks] creates chunk (-1, -1), whose walls hold a tall
    stone with its hitbox; the camera then moves to (9600, 0), which makes
    (10, 0) the centre chunk, and [update_chunks] evicts the chunk from the
    resident map, yet the wall and all the ground sprites of the chunk are
    still in the layers of the scene. *)
Theorem evicted_chunk_sprites_stay :
  exists (w1 w2 : Window) (cs : ChunkSprites) (wall : Sprite),
    update_chunks all_textures initial_window = Some w1 /\
    chunks w1 !! (-1, -1)%Z = Some cs /\
    wall ∈ walls cs /\ is_Some (hit_box wall) /\
    length (ground cs) = 256%nat /\
    update_chunks all_textures (set_camera_position (9600, 0) w1) = Some w2 /\
    chunks w2 !! (-1, -1)%Z = None /\
    wall ∈ layer LAYER_NAME_WALLS (scene w2) /\
    (forall s, s ∈ ground cs -> s ∈ layer LAYER_NAME_GROUND (scene w2)).
Proof.
  set (grass := "assets/terrain/ground_grass_NE.png").
  assert (Hgrass : all_textures !! "grass" = Some grass) by reflexivity.
  destruct (reconcile_spec all_textures grass (0, 0)%Z RENDER_DISTANCE initial_window Hgrass)
    as (w1 & Hrun1 & Hmode1 & _ & _ & _ & _ & Hnew1).
  assert (Hupdate1 : update_chunks all_textures initial_window = Some w1).
  { unfold update_chunks.
    rewrite (center_chunk_at initial_window _ _ 0 0) by (simpl; lra). exact Hrun1. }
  destruct (Hnew1 (-1, -1)%Z) as [Hchunk (Hground & _ & Hwalls)].
  { unfold in_window, RENDER_DISTANCE. simpl. lia. }
  { reflexivity. }
  cbn [fst snd] in Hchunk, Hground, Hwalls.
  destruct (stone_tall_wall_placed all_textures initial_window grass
              "assets/terrain/stone_tallG_NE.png" eq_refl eq_refl)
    as (wall & Hwall & _ & _ & Hbox).
  destruct (reconcile_spec all_textures grass (10, 0)%Z RENDER_DISTANCE
              (set_camera_position (9600, 0) w1) Hgrass)
    as (w2 & Hrun2 & _ & _ & Hgrow & Hdom2 & _ & _).
  assert (Hupdate2 :
    update_chunks all_textures (set_camera_position (9600, 0) w1) = Some w2).
  { unfold update_chunks. cbn [camera_position set_camera_position fst snd].
    rewrite (center_chunk_at (set_camera_position (9600, 0) w1) _ _ 10 0) by (simpl; lra).
    exact Hrun2. }
  exists w1, w2, (chunk_placements all_textures initial_window grass (-1) (-1)), wall.
  split_and!; try assumption.
  - unfold chunk_placements, placements. cbn [ground]. rewrite length_fmap. reflexivity.
  - apply not_elem_of_dom. rewrite Hdom2. unfold in_window, RENDER_DISTANCE. simpl. lia.
  - apply Hgrow. cbn [scene set_camera_position]. apply Hwalls. exact Hwall.
  - intros s Hs. apply Hgrow. cbn [scene set_camera_position]. apply Hground. exact Hs.
Qed.

End eviction.

(** ** The kinds of the two modes *)

Section kinds.
Local Open Scope R_scope.

Lemma generate_terrain_element_kinds `{RandomGen} (self : Window) (x y : Z) (rng : Rng) :
  (generate_terrain_element self x y rng).1 ∈
    (if String.eqb (terrain_mode self) "quantum" then quantum_kinds else random_kinds).
Proof.
  unfold generate_terrain_element.
  destruct (String.eqb (terrain_mode self) "quantum").
  - apply quantum_band_kinds.
  - unfold random_kinds.
    destruct (rng_random rng) as [noise rng1].
    destruct (Rlt_dec noise 0.35).
    { destruct (rng_random rng1) as [tree_type rng2].
      repeat (destruct (Rlt_dec tree_type _); [simpl; set_solver |]).
      simpl; set_solver. }
    destruct (Rlt_dec noise 0.40).
    { destruct (rng_random rng1) as [draw rng2].
      destruct (Rlt_dec draw 0.7); simpl; set_solver. }
    destruct (Rlt_dec noise 0.43).
    { destruct (rng_random rng1) as [draw rng2].
      destruct (Rlt_dec draw 0.6); simpl; set_solver. }
    destruct (Rlt_dec noise 0.48); simpl; set_solver.
Qed.

Lemma quantum_terrain_never (x y : Z) (k : option string) :
  k ∉ quantum_kinds -> quantum_terrain x y <> k.
Proof. intros Hk Heq. apply Hk. rewrite <- Heq. apply quantum_band_kinds. Qed.

(** C10: the quantum mode returns one of its eight values and never a
    block tree, a fat tree or a large log; the random mode returns one of
    its eleven values, those three kinds among them; and every kind of
    either mode is collidable, but for the small bush, which is not. *)
Theorem terrain_kinds :
  (forall x y : Z, quantum_terrain x y ∈ quantum_kinds) /\
  (forall x y : Z,
      quantum_terrain x y <> Some "tree_blocks_fall" /\
      quantum_terrain x y <> Some "tree_fat_fall" /\
      quantum_terrain x y <> Some "log_large") /\
  (forall (G : RandomGen) (self : Window) (x y : Z) (rng : Rng),
      (generate_terrain_element self x y rng).1 ∈
        (if String.eqb (terrain_mode self) "quantum" then quantum_kinds else random_kinds)) /\
  (exists (G : RandomGen) (self : Window) (rng : Rng),
      terrain_mode self = "random" /\
      (generate_terrain_element self 0 0 rng).1 = Some "tree_blocks_fall") /\
  (exists (G : RandomGen) (self : Window) (rng : Rng),
      terrain_mode self = "random" /\
      (generate_terrain_element self 0 0 rng).1 = Some "tree_fat_fall") /\
  (exists (G : RandomGen) (self : Window) (rng : Rng),
      terrain_mode self = "random" /\
      (generate_terrain_element self 0 0 rng).1 = Some "log_large") /\
  (forall self : Window,
      Forall (fun kind => match kind with
                          | Some k => has_collision self k = negb (String.eqb k "bush_small")
                          | None => True
                          end)
             (quantum_kinds ++ random_kinds)).
Proof.
  split; [intros; apply quantum_band_kinds |].
  split.
  { intros x y. repeat split; apply quantum_terrain_never;
      unfold quantum_kinds; intros Hin;
      repeat (apply elem_of_cons in Hin as [Hin | Hin]; [discriminate |]);
      inversion Hin. }
  split; [intros; apply generate_terrain_element_kinds |].
  split.
  { exists scripted_rng, (set_terrain_mode "random" initial_window), [0; 0].
    split; [reflexivity |]. unfold generate_terrain_element. simpl.
    repeat (match goal with
            | |- context [Rlt_dec ?a ?b] => destruct (Rlt_dec a b); try lra
            end). reflexivity. }
  split.
  { exists scripted_rng, (set_terrain_mode "random" initial_window), [0; 0.8].
    split; [reflexivity |]. unfold generate_terrain_element. simpl.
    repeat (match goal with
            | |- context [Rlt_dec ?a ?b] => destruct (Rlt_dec a b); try lra
            end). reflexivity. }
  split.
  { exists scripted_rng, (set_terrain_mode "random" initial_window), [0.41; 0.9].
    split; [reflexivity |]. unfold generate_terrain_element. simpl.
    repeat (match goal with
            | |- context [Rlt_dec ?a ?b] => destruct (Rlt_dec a b); try lra
            end). reflexivity. }
  intros self. unfold quantum_kinds, random_kinds. simpl app.
  repeat (constructor; [first [exact I | reflexivity] |]). constructor.
Qed.

End kinds.


(** * Part III: further properties of the code *)

(** ** Projection and bucketing *)

Section projection_facts.
Local Open Scope R_scope.

(** X1: The projection can be inverted: the tile is read back from its screen
    position, so two tiles never share one. *)
Theorem iso_to_screen_inverse (self : Window) (x y : Z) :
  let '(screen_x, screen_y) := iso_to_screen self x y in
  IZR x = screen_x / IZR TILE_WIDTH + screen_y / IZR TILE_HEIGHT /\
  IZR y = screen_y / IZR TILE_HEIGHT - screen_x / IZR TILE_WIDTH /\
  forall x' y' : Z, iso_to_screen self x' y' = (screen_x, screen_y) -> x' = x /\ y' = y.
Proof.
  unfold iso_to_screen, TILE_WIDTH, TILE_HEIGHT.
  rewrite !minus_IZR, !plus_IZR.
  split; [field |]. split; [field |].
  intros x' y' Heq. inversion Heq as [[Hx Hy]].
  rewrite !minus_IZR in Hx. rewrite !plus_IZR in Hy.
  split; apply eq_IZR; lra.
Qed.

Lemma Int_part_div (a b : Z) : (0 < b)%Z -> Int_part (IZR a / IZR b) = (a `div` b)%Z.
Proof.
  intros Hb. apply Int_part_unique.
  assert (Hb' : 0 < IZR b) by (apply IZR_lt; lia).
  pose proof (Z.div_mod a b ltac:(lia)) as Hdm.
  pose proof (Z.mod_pos_bound a b Hb) as [Hm0 Hm1].
  assert (Ha : IZR a = IZR b * IZR (a `div` b) + IZR (a `mod` b)).
  { rewrite <- mult_IZR, <- plus_IZR. f_equal. exact Hdm. }
  apply IZR_le in Hm0. apply IZR_lt in Hm1.
  split.
  - apply (Rmult_le_reg_l (IZR b)); [assumption |].
    replace (IZR b * (IZR a / IZR b)) with (IZR a) by (field; lra). lra.
  - apply (Rmult_lt_reg_l (IZR b)); [assumption |].
    replace (IZR b * (IZR a / IZR b)) with (IZR a) by (field; lra). lra.
Qed.

(** [int(a / b)] on two integers is the quotient that rounds toward zero. *)
Lemma py_int_div (a b : Z) : (0 < b)%Z -> py_int (IZR a / IZR b) = (a ÷ b)%Z.
Proof.
  intros Hb. assert (Hb' : 0 < IZR b) by (apply IZR_lt; lia).
  destruct (Z_lt_le_dec a 0) as [Ha | Ha].
  - assert (Hneg : IZR a / IZR b < 0).
    { apply IZR_lt in Ha. apply Ropp_lt_cancel. rewrite Ropp_0.
      replace (- (IZR a / IZR b)) with ((- IZR a) / IZR b) by (field; lra).
      apply Rdiv_lt_0_compat; lra. }
    rewrite py_int_neg by assumption.
    replace (- (IZR a / IZR b)) with (IZR (- a) / IZR b)
      by (rewrite opp_IZR; field; lra).
    rewrite Int_part_div by assumption.
    rewrite <- (Z.opp_involutive a) at 2. rewrite Z.quot_opp_l by lia.
    rewrite Z.quot_div_nonneg by lia. reflexivity.
  - assert (Hpos : 0 <= IZR a / IZR b).
    { apply IZR_le in Ha. apply Rmult_le_pos; [assumption |].
      apply Rlt_le, Rinv_0_lt_compat. assumption. }
    rewrite py_int_nonneg by assumption.
    rewrite Int_part_div by assumption.
    rewrite Z.quot_div_nonneg by lia. reflexivity.
Qed.

(** X2: The chunk of the screen position of a tile is found on the diagonals of
    the grid: the truncated sixteenths of [x - y] and of [x + y]. *)
Theorem screen_to_chunk_of_tile (self : Window) (x y : Z) :
  let '(screen_x, screen_y) := iso_to_screen self x y in
  screen_to_chunk self screen_x screen_y = ((x - y) ÷ CHUNK_SIZE, (x + y) ÷ CHUNK_SIZE)%Z.
Proof.
  unfold iso_to_screen, screen_to_chunk, TILE_WIDTH, TILE_HEIGHT, CHUNK_SIZE.
  rewrite !mult_IZR.
  replace (IZR (x - y) * (128 / 2) / (128 * 16 / 2)) with (IZR (x - y) / IZR 16) by field.
  replace (IZR (x + y) * (64 / 2) / (64 * 16 / 2)) with (IZR (x + y) / IZR 16) by field.
  rewrite !py_int_div by lia. reflexivity.
Qed.

End projection_facts.

(** ** Hitboxes *)

Section hitbox_facts.
Local Open Scope R_scope.

Lemma polygon_area2_rectangle (a b c : R) : polygon_area2 (rectangle a b c) = 4 * a * (b + c).
Proof. unfold polygon_area2, rectangle, shoelace_from, cross. simpl. ring. Qed.

(** X3: Whatever the element, its hitbox is a rectangle around the anchor of
    the sprite, listed counter-clockwise, with the anchor strictly inside
    and a positive area. *)
Theorem hitbox_is_rectangle (self : Window) (element : string) :
  exists a b c : R,
    0 < a /\ 0 < b /\ 0 < c /\
    get_hitbox_for_element self element = rectangle a b c /\
    0 < polygon_area2 (get_hitbox_for_element self element).
Proof.
  assert (Hgen : forall a b c pts, 0 < a -> 0 < b -> 0 < c -> pts = rectangle a b c ->
            exists a b c : R, 0 < a /\ 0 < b /\ 0 < c /\ pts = rectangle a b c /\
                              0 < polygon_area2 pts).
  { intros a b c pts Ha Hb Hc ->. exists a, b, c. repeat split; try assumption.
    rewrite polygon_area2_rectangle. nra. }
  unfold get_hitbox_for_element, TILE_WIDTH, TILE_HEIGHT.
  destruct (str_contains "tree" element).
  { apply (Hgen (128 * 0.3 * 0.45) (64 * 0.3 * 3.0) (64 * 0.3 * 0.8)); try lra.
    unfold rectangle. repeat f_equal; lra. }
  destruct (String.eqb element "stone_large").
  { apply (Hgen (128 * 0.3 * 0.8) (64 * 0.3 * 1.2) (64 * 0.3 * 0.6)); try lra.
    unfold rectangle. repeat f_equal; lra. }
  destruct (bool_decide (element ∈ ["log"; "log_large"])).
  { apply (Hgen (128 * 0.3 * 0.9) (64 * 0.3 * 1.0) (64 * 0.3 * 0.5)); try lra.
    unfold rectangle. repeat f_equal; lra. }
  destruct (String.eqb element "stone_tall").
  { apply (Hgen (128 * 0.3 * 0.6) (64 * 0.3 * 0.8) (64 * 0.3 * 0.4)); try lra.
    unfold rectangle. repeat f_equal; lra. }
  apply (Hgen (128 * 0.3 / 2) (64 * 0.3 / 2) (64 * 0.3 / 2)); try lra.
  unfold rectangle. repeat f_equal; lra.
Qed.

End hitbox_facts.

Section hitbox_families.
Local Open Scope R_scope.

(** X4: A collidable kind never falls through to the default hitbox: it gets
    the rectangle written for trees, for the large stone, for logs or for
    the tall stone. *)
Theorem collidable_hitbox_is_dedicated (self : Window) (kind : string) :
  has_collision self kind = true ->
  let hitbox_width := IZR TILE_WIDTH * 0.3 in
  let hitbox_height := IZR TILE_HEIGHT * 0.3 in
  get_hitbox_for_element self kind ∈
    [ rectangle (hitbox_width * 0.45) (hitbox_height * 3.0) (hitbox_height * 0.8);
      rectangle (hitbox_width * 0.8) (hitbox_height * 1.2) (hitbox_height * 0.6);
      rectangle (hitbox_width * 0.9) (hitbox_height * 1.0) (hitbox_height * 0.5);
      rectangle (hitbox_width * 0.6) (hitbox_height * 0.8) (hitbox_height * 0.4) ] /\
  get_hitbox_for_element self kind <>
    rectangle (hitbox_width / 2) (hitbox_height / 2) (hitbox_height / 2).
Proof.
  intros Hcol hw hh.
  assert (Hrect : forall (pts : list (R * R)) (a b c : R),
            pts = [ (- a, - b); (a, - b); (a, c); (- a, c) ] -> pts = rectangle a b c).
  { intros; subst; reflexivity. }
  assert (Hdiff : forall a b c a' b' c' : R, a <> a' -> rectangle a b c <> rectangle a' b' c').
  { intros a b c a' b' c' Hne Heq. apply Hne. unfold rectangle in Heq.
    inversion Heq. reflexivity. }
  unfold has_collision, collision_types in Hcol.
  apply bool_decide_eq_true in Hcol. set_unfold in Hcol.
  assert (Hcases :
    get_hitbox_for_element self kind =
      rectangle (hw * 0.45) (hh * 3.0) (hh * 0.8) \/
    get_hitbox_for_element self kind =
      rectangle (hw * 0.8) (hh * 1.2) (hh * 0.6) \/
    get_hitbox_for_element self kind =
      rectangle (hw * 0.9) (hh * 1.0) (hh * 0.5) \/
    get_hitbox_for_element self kind =
      rectangle (hw * 0.6) (hh * 0.8) (hh * 0.4)).
  { subst hw hh.
    repeat match goal with
           | H : _ \/ _ |- _ => destruct H as [H | H]
           end;
      subst kind; unfold get_hitbox_for_element; simpl;
      first [ left; apply Hrect; repeat f_equal; lra
            | right; left; apply Hrect; repeat f_equal; lra
            | right; right; left; apply Hrect; repeat f_equal; lra
            | right; right; right; apply Hrect; repeat f_equal; lra ]. }
  split.
  - destruct Hcases as [-> | [-> | [-> | ->]]].
    + apply list_elem_of_here.
    + apply list_elem_of_further, list_elem_of_here.
    + do 2 apply list_elem_of_further. apply list_elem_of_here.
    + do 3 apply list_elem_of_further. apply list_elem_of_here.
  - subst hw hh. unfold TILE_WIDTH, TILE_HEIGHT in *.
    destruct Hcases as [-> | [-> | [-> | ->]]]; apply Hdiff; intros Heq; lra.
Qed.

End hitbox_families.

(** The hitbox of a log, a collidable kind. *)
Lemma collidable_hitbox_is_dedicated_witness :
  let hitbox_width := (IZR TILE_WIDTH * 0.3)%R in
  let hitbox_height := (IZR TILE_HEIGHT * 0.3)%R in
  get_hitbox_for_element initial_window "log" ∈
    [ rectangle (hitbox_width * 0.45) (hitbox_height * 3.0) (hitbox_height * 0.8);
      rectangle (hitbox_width * 0.8) (hitbox_height * 1.2) (hitbox_height * 0.6);
      rectangle (hitbox_width * 0.9) (hitbox_height * 1.0) (hitbox_height * 0.5);
      rectangle (hitbox_width * 0.6) (hitbox_height * 0.8) (hitbox_height * 0.4) ]%R /\
  get_hitbox_for_element initial_window "log" <>
    rectangle (hitbox_width / 2) (hitbox_height / 2) (hitbox_height / 2).
Proof.
  apply (collidable_hitbox_is_dedicated initial_window "log"). reflexivity.
Defined.

(** ** The algebra of the phase *)

Section phase_algebra.
Local Open Scope R_scope.

Lemma same_angle_sym (u v : R) : same_angle u v -> same_angle v u.
Proof. intros [k ->]. exists (- k)%Z. rewrite opp_IZR. ring. Qed.

Lemma same_angle_trans (u v w : R) : same_angle u v -> same_angle v w -> same_angle u w.
Proof. intros [k ->] [m ->]. exists (k + m)%Z. rewrite plus_IZR. ring. Qed.

(** A normalised angle is the only one of its class in [[0, 2π)]. *)
Lemma same_angle_unique (u v : R) :
  same_angle u v -> 0 <= u < 2 * PI -> 0 <= v < 2 * PI -> u = v.
Proof.
  intros [k ->] Hu Hv. pose proof two_PI_pos as Hpos.
  destruct (Z.lt_trichotomy k 0) as [Hk | [-> | Hk]].
  - assert (IZR k <= -1) by (apply (IZR_le k (-1)); lia). nra.
  - ring.
  - assert (1 <= IZR k) by (apply (IZR_le 1 k); lia). nra.
Qed.

Lemma py_fmod_same_angle (u v : R) :
  same_angle u v -> py_fmod u (2 * PI) = py_fmod v (2 * PI).
Proof.
  intros Huv. apply same_angle_unique; try (apply py_fmod_range, two_PI_pos).
  apply same_angle_fmod. apply same_angle_trans with v; [assumption |].
  apply same_angle_sym, same_angle_fmod, same_angle_refl.
Qed.

Lemma py_fmod_normalised (p : R) : 0 <= p < 2 * PI -> py_fmod p (2 * PI) = p.
Proof.
  intros Hp. apply same_angle_unique; try assumption.
  - apply same_angle_fmod, same_angle_refl.
  - apply py_fmod_range, two_PI_pos.
Qed.

Lemma times_hadamard_phase (n : nat) (q : QuantumState) :
  same_angle (phase (snd (times n hadamard q))) (phase q + INR n * (PI / 4)).
Proof.
  revert q. induction n as [| n IH]; intros q.
  - simpl. exists 0%Z. ring.
  - change (times (S n) hadamard q) with (times n hadamard (snd (hadamard q))).
    eapply same_angle_trans; [apply IH |].
    rewrite S_INR. simpl phase.
    replace (phase q + (INR n + 1) * (PI / 4))
      with (phase q + PI / 4 + INR n * (PI / 4)) by ring.
    apply same_angle_add; [| apply same_angle_refl].
    apply same_angle_fmod, same_angle_refl.
Qed.

Lemma times_hadamard_normalised (n : nat) (q : QuantumState) :
  0 <= phase q < 2 * PI -> 0 <= phase (snd (times n hadamard q)) < 2 * PI.
Proof.
  revert q. induction n as [| n IH]; intros q Hq; [exact Hq |].
  change (times (S n) hadamard q) with (times n hadamard (snd (hadamard q))).
  apply IH. simpl. apply py_fmod_range, two_PI_pos.
Qed.

Lemma method_unit_eq (r1 r2 : unit * QuantumState) :
  phase (snd r1) = phase (snd r2) -> r1 = r2.
Proof. destruct r1 as [[] [p1]], r2 as [[] [p2]]. simpl. intros ->. reflexivity. Qed.

(** X5: Rotations add up: two rotations are the rotation by the sum of their
    angles, a superposition step is the rotation by an eighth of a turn,
    whole turns do not count, and eight superposition steps in a row only
    normalise the phase. *)
Theorem rotations_compose (q : QuantumState) :
  (forall a b : R, (rotate a;; rotate b) q = rotate (a + b) q) /\
  hadamard q = rotate (PI / 4) q /\
  (forall (a : R) (k : Z), rotate (a + IZR k * (2 * PI)) q = rotate a q) /\
  (forall a : R, (rotate a;; rotate (- a)) q = rotate 0 q) /\
  times 8 hadamard q = rotate 0 q /\
  (forall a : R, (rotate a;; rotate 0) q = rotate a q).
Proof.
  split_and!.
  - intros a b. apply method_unit_eq. cbn.
    apply py_fmod_same_angle.
    replace (phase q + (a + b)) with (phase q + a + b) by ring.
    apply same_angle_add; [| apply same_angle_refl].
    apply same_angle_fmod, same_angle_refl.
  - reflexivity.
  - intros a k. apply method_unit_eq. cbn. apply py_fmod_same_angle.
    exists (- k)%Z. rewrite opp_IZR. ring.
  - intros a. apply method_unit_eq. cbn. apply py_fmod_same_angle.
    replace (phase q + 0) with (phase q + a + - a) by ring.
    apply same_angle_add; [| apply same_angle_refl].
    apply same_angle_fmod, same_angle_refl.
  - apply method_unit_eq.
    apply same_angle_unique.
    + eapply same_angle_trans; [apply times_hadamard_phase |].
      apply same_angle_sym. simpl phase.
      apply same_angle_fmod. exists 1%Z. rewrite (INR_IZR_INZ 8). change (Z.of_nat 8) with 8%Z. lra.
    + change (times 8 hadamard q) with (times 7 hadamard (snd (hadamard q))).
      apply times_hadamard_normalised. simpl. apply py_fmod_range, two_PI_pos.
    + simpl. apply py_fmod_range, two_PI_pos.
  - intros a. apply method_unit_eq. cbn. apply py_fmod_same_angle.
    replace (phase q + a) with (phase q + a + 0) at 2 by ring.
    apply same_angle_add; [| apply same_angle_refl].
    apply same_angle_fmod, same_angle_refl.
Qed.

End phase_algebra.

(** ** The score of the quantum mode *)

Section quantum_score.
Local Open Scope R_scope.

(** X6: The normalisations along the way do not count: the density is read off
    the sum of all the phase increments, and so is the variation; both and
    the score lie in [[0, 1]], and a tile whose density is below 0.475 has
    no feature. *)
Theorem quantum_score_closed_form (x y : Z) :
  quantum_density x y =
    (cos (IZR x * 0.1234 + IZR y * 0.4321 + sin (IZR x * 0.1) * cos (IZR y * 0.1)
          + PI / 2
          + (IZR x * 0.314 + IZR y * 0.271 + sin (IZR x * 0.05) * 3.14)
          + IZR x * IZR y * 0.001) + 1) / 2 /\
  quantum_variation x y =
    (cos (IZR y * 0.1234 + IZR x * 0.4321 + sin (IZR y * 0.1) * cos (IZR x * 0.1)
          + PI / 4 + IZR x * 0.1) + 1) / 2 /\
  0 <= quantum_density x y <= 1 /\
  0 <= quantum_variation x y <= 1 /\
  0 <= quantum_combined x y <= 1 /\
  (quantum_density x y < 0.475 -> quantum_terrain x y = None).
Proof.
  assert (Hd : quantum_density x y =
    (cos (IZR x * 0.1234 + IZR y * 0.4321 + sin (IZR x * 0.1) * cos (IZR y * 0.1)
          + PI / 2
          + (IZR x * 0.314 + IZR y * 0.271 + sin (IZR x * 0.05) * 3.14)
          + IZR x * IZR y * 0.001) + 1) / 2).
  { rewrite quantum_density_spec, spec_density_closed_form. do 3 f_equal. field. }
  assert (Hv : quantum_variation x y =
    (cos (IZR y * 0.1234 + IZR x * 0.4321 + sin (IZR y * 0.1) * cos (IZR x * 0.1)
          + PI / 4 + IZR x * 0.1) + 1) / 2).
  { rewrite quantum_variation_spec. apply spec_variation_closed_form. }
  assert (Hdr : 0 <= quantum_density x y <= 1).
  { rewrite Hd. match goal with |- context [cos ?u] => pose proof (COS_bound u) end. lra. }
  assert (Hvr : 0 <= quantum_variation x y <= 1).
  { rewrite Hv. match goal with |- context [cos (?u + PI / 4 + ?w)] =>
      pose proof (COS_bound (u + PI / 4 + w)) end. lra. }
  split; [exact Hd |]. split; [exact Hv |]. split; [exact Hdr |]. split; [exact Hvr |].
  unfold quantum_terrain, quantum_band, quantum_combined.
  split; [lra |].
  intros Hlow. destruct (Rlt_dec _ 0.65) as [_ | Hn]; [reflexivity | lra].
Qed.

End quantum_score.

(** ** The quantum mode and the generator *)

(** X7: In the quantum mode the chunk does not depend on the random generator:
    whatever [random.Random] is, the placement lists are the same. *)
Theorem quantum_chunk_ignores_generator (G1 G2 : RandomGen)
  (textures : gmap string Texture) (self : Window) (cx cy : Z) :
  terrain_mode self = "quantum" ->
  fst <$> create_chunk (H := G1) textures self cx cy =
  fst <$> create_chunk (H := G2) textures self cx cy.
Proof.
  intros Hmode. destruct (textures !! "grass") as [grass |] eqn:Hgrass.
  - destruct (create_chunk_spec (H := G1) textures grass self cx cy Hgrass) as (sc1 & -> & _).
    destruct (create_chunk_spec (H := G2) textures grass self cx cy Hgrass) as (sc2 & -> & _).
    simpl. f_equal. unfold chunk_placements, placements.
    rewrite !chunk_elements_quantum by assumption. reflexivity.
  - rewrite !create_chunk_raises by assumption. reflexivity.
Qed.

Lemma quantum_chunk_ignores_generator_witness :
  fst <$> create_chunk (H := zero_rng) all_textures initial_window 3 (-2) =
  fst <$> create_chunk (H := scripted_rng) all_textures initial_window 3 (-2).
Proof.
  apply (quantum_chunk_ignores_generator zero_rng scripted_rng all_textures
           initial_window 3 (-2)).
  reflexivity.
Defined.

(** ** What create_chunk leaves behind *)

Section create_chunk_effects.
Context `{RandomGen}.
Variable textures : gmap string Texture.

(** X8: [create_chunk] returns exactly the sprites it appended to the three
    terrain layers of the scene, in the same order; the other layers, the
    resident chunks, the mode and the camera are as before. *)
Theorem create_chunk_appends_to_scene (self : Window) (cx cy : Z) :
  is_Some (textures !! "grass") ->
  exists (cs : ChunkSprites) (self' : Window),
    create_chunk textures self cx cy = Some (cs, self') /\
    layer LAYER_NAME_GROUND (scene self') = layer LAYER_NAME_GROUND (scene self) ++ ground cs /\
    layer LAYER_NAME_OBJECTS (scene self') = layer LAYER_NAME_OBJECTS (scene self) ++ objects cs /\
    layer LAYER_NAME_WALLS (scene self') = layer LAYER_NAME_WALLS (scene self) ++ walls cs /\
    (forall name : string,
        name <> LAYER_NAME_GROUND -> name <> LAYER_NAME_OBJECTS -> name <> LAYER_NAME_WALLS ->
        scene self' !! name = scene self !! name) /\
    chunks self' = chunks self /\
    terrain_mode self' = terrain_mode self /\
    camera_position self' = camera_position self.
Proof.
  intros [grass Hgrass].
  destruct (create_chunk_spec textures grass self cx cy Hgrass)
    as (sc' & Hcreate & Hg & Ho & Hw & Hrest).
  eexists _, _. split; [exact Hcreate |].
  cbn [scene chunks terrain_mode camera_position set_scene].
  split_and!; auto.
Qed.

(** X9: The sprites of a chunk.  The call raises only on a table without
    grass.  Otherwise a ground sprite carries the grass texture and neither
    a tile nor a hitbox of its own; a wall stands on a tile of the chunk, at
    the projected position of the tile, carries the texture of a collidable
    element and the hitbox of that element placed at its own centre; an
    object is the same for an element that is not collidable, and has no
    hitbox of its own. *)
Theorem chunk_sprites_wellformed (self : Window) (cx cy : Z) :
  match create_chunk textures self cx cy with
  | None => textures !! "grass" = None
  | Some (cs, _) =>
      (forall s, s ∈ ground cs ->
         textures !! "grass" = Some (texture s) /\ iso_tile s = None /\ hit_box s = None /\
         exists tile, tile ∈ chunk_tiles cx cy /\
                      (center_x s, center_y s) = iso_to_screen self tile.1 tile.2) /\
      (forall s, s ∈ walls cs ->
         exists (tile : Z * Z) (e : string),
           tile ∈ chunk_tiles cx cy /\ iso_tile s = Some tile /\
           (center_x s, center_y s) = iso_to_screen self tile.1 tile.2 /\
           textures !! e = Some (texture s) /\ has_collision self e = true /\
           hit_box s = Some {| hb_points := get_hitbox_for_element self e;
                               hb_position := (center_x s, center_y s) |}) /\
      (forall s, s ∈ objects cs ->
         exists (tile : Z * Z) (e : string),
           tile ∈ chunk_tiles cx cy /\ iso_tile s = Some tile /\
           (center_x s, center_y s) = iso_to_screen self tile.1 tile.2 /\
           textures !! e = Some (texture s) /\ has_collision self e = false /\
           hit_box s = None)
  end.
Proof.
  destruct (textures !! "grass") as [grass |] eqn:Hgrass;
    [| rewrite create_chunk_raises by assumption; reflexivity].
  destruct (create_chunk_spec textures grass self cx cy Hgrass) as (sc' & -> & _).
  unfold chunk_placements. split_and!.
  - intros s Hs. unfold placements in Hs. cbn [ground] in Hs.
    apply list_elem_of_fmap in Hs as (tile & -> & Htile).
    split_and!; try reflexivity. exists tile. split; [assumption |].
    unfold ground_placement. cbn [center_x center_y].
    destruct (iso_to_screen self tile.1 tile.2); reflexivity.
  - intros s Hs. apply elem_of_walls in Hs as ([tile element] & Hin & Hplace).
    apply elem_of_chunk_elements_tile in Hin. cbn [fst snd] in *.
    apply feature_placement_Some in Hplace as (e & _ & _ & Htex & Hflag & Hiso & Hpos & Hbox).
    exists tile, e. rewrite Hpos. split_and!; auto.
  - intros s Hs. apply elem_of_objects in Hs as ([tile element] & Hin & Hplace).
    apply elem_of_chunk_elements_tile in Hin. cbn [fst snd] in *.
    apply feature_placement_Some in Hplace as (e & _ & _ & Htex & Hflag & Hiso & Hpos & Hbox).
    exists tile, e. split_and!; auto.
Qed.

Lemma chunk_elements_tiles (self : Window) (tiles : list (Z * Z)) (rng : Rng) :
  (chunk_elements self tiles rng).*1 = tiles.
Proof.
  revert rng. induction tiles as [| tile tiles IH]; intros rng; [reflexivity |].
  simpl. destruct (generate_terrain_element self tile.1 tile.2 rng) as [e rng'].
  simpl. f_equal. apply IH.
Qed.

Lemma NoDup_chunk_tiles (cx cy : Z) : NoDup (chunk_tiles cx cy).
Proof.
  unfold chunk_tiles. apply NoDup_bind.
  - intros x1 x2 t _ _ H1 H2.
    apply list_elem_of_bind in H1 as (y1 & H1 & _).
    apply list_elem_of_bind in H2 as (y2 & H2 & _).
    apply list_elem_of_singleton in H1, H2. subst t. inversion H2. lia.
  - intros x _. apply NoDup_bind.
    + intros y1 y2 t _ _ H1 H2.
      apply list_elem_of_singleton in H1, H2. subst t. inversion H2. lia.
    + intros y _. apply NoDup_singleton.
    + apply NoDup_seqZ.
  - apply NoDup_seqZ.
Qed.

(** The features of a list of generated elements stand on distinct tiles. *)
Lemma features_on_distinct_tiles (self : Window)
  (generated : list ((Z * Z) * option string)) :
  NoDup generated.*1 ->
  let features :=
    omap (fun te => wall_of (feature_placement textures self te.1 te.2)) generated ++
    omap (fun te => object_of (feature_placement textures self te.1 te.2)) generated in
  NoDup (iso_tile <$> features) /\
  (forall s, s ∈ features -> exists tile, tile ∈ generated.*1 /\ iso_tile s = Some tile) /\
  (length features <= length generated)%nat.
Proof.
  induction generated as [| [tile element] rest IH]; intros Hnodup features.
  - subst features. simpl. split_and!; [constructor | | lia].
    intros s Hs. inversion Hs.
  - apply NoDup_cons in Hnodup as [Hfresh Hrest].
    destruct (IH Hrest) as (IHnodup & IHtiles & IHlen). clear IH.
    set (rest_features :=
      omap (fun te => wall_of (feature_placement textures self te.1 te.2)) rest ++
      omap (fun te => object_of (feature_placement textures self te.1 te.2)) rest) in *.
    assert (Hhead : features = rest_features \/
              exists flag s, feature_placement textures self tile element = Some (flag, s) /\
                             features ≡ₚ s :: rest_features).
    { subst features rest_features. cbn [omap list_omap fst snd].
      destruct (feature_placement textures self tile element) as [[[] s] |] eqn:Hplace;
        cbn [wall_of object_of].
      - right. exists true, s. split; [reflexivity |]. reflexivity.
      - right. exists false, s. split; [reflexivity |].
        symmetry. apply Permutation_middle.
      - left. reflexivity. }
    destruct Hhead as [-> | (flag & s & Hplace & Hperm)].
    + split_and!.
      * exact IHnodup.
      * intros s Hs. destruct (IHtiles s Hs) as (t & Ht & Hiso).
        exists t. split; [right; exact Ht | exact Hiso].
      * simpl. lia.
    + apply feature_placement_Some in Hplace as (_ & _ & _ & _ & _ & Hiso & _).
      split_and!.
      * rewrite Hperm. rewrite fmap_cons. apply NoDup_cons. split; [| exact IHnodup].
        rewrite Hiso. intros Hin. apply list_elem_of_fmap in Hin as (s' & Hs' & Hin).
        destruct (IHtiles s' Hin) as (t & Ht & Hiso'). apply Hfresh.
        rewrite Hiso' in Hs'. inversion Hs'; subst. exact Ht.
      * intros s' Hs'. rewrite Hperm in Hs'. apply elem_of_cons in Hs' as [-> | Hs'].
        -- exists tile. split; [left | exact Hiso].
        -- destruct (IHtiles s' Hs') as (t & Ht & Hiso').
           exists t. split; [right; exact Ht | exact Hiso'].
      * rewrite Hperm. simpl. lia.
Qed.

(** X10: A tile has at most one feature: over the walls and the objects of a
    chunk together no tile occurs twice, so the features are at most as
    many as the tiles, of which each has its ground sprite. *)
Theorem one_feature_per_tile (self : Window) (cx cy : Z) :
  match create_chunk textures self cx cy with
  | None => textures !! "grass" = None
  | Some (cs, _) =>
      NoDup (iso_tile <$> (walls cs ++ objects cs)) /\
      length (ground cs) = Z.to_nat (CHUNK_SIZE * CHUNK_SIZE) /\
      (length (walls cs) + length (objects cs) <= length (ground cs))%nat
  end.
Proof.
  destruct (textures !! "grass") as [grass |] eqn:Hgrass;
    [| rewrite create_chunk_raises by assumption; reflexivity].
  destruct (create_chunk_spec textures grass self cx cy Hgrass) as (sc' & -> & _).
  unfold chunk_placements, placements. cbn [ground walls objects].
  destruct (features_on_distinct_tiles self
              (chunk_elements self (chunk_tiles cx cy) (Random (get_chunk_seed self cx cy))))
    as (Hnodup & _ & Hlen).
  { rewrite chunk_elements_tiles. apply NoDup_chunk_tiles. }
  split; [exact Hnodup |].
  rewrite length_fmap, chunk_tiles_length. split; [reflexivity |].
  rewrite length_app in Hlen.
  rewrite <- (length_fmap fst), chunk_elements_tiles, chunk_tiles_length in Hlen. exact Hlen.
Qed.

End create_chunk_effects.

Lemma create_chunk_appends_to_scene_witness :
  exists (cs : ChunkSprites) (self' : Window),
    create_chunk (H := zero_rng) all_textures initial_window 0 0 = Some (cs, self') /\
    layer LAYER_NAME_GROUND (scene self') =
      layer LAYER_NAME_GROUND (scene initial_window) ++ ground cs /\
    layer LAYER_NAME_OBJECTS (scene self') =
      layer LAYER_NAME_OBJECTS (scene initial_window) ++ objects cs /\
    layer LAYER_NAME_WALLS (scene self') =
      layer LAYER_NAME_WALLS (scene initial_window) ++ walls cs /\
    (forall name : string,
        name <> LAYER_NAME_GROUND -> name <> LAYER_NAME_OBJECTS -> name <> LAYER_NAME_WALLS ->
        scene self' !! name = scene initial_window !! name) /\
    chunks self' = chunks initial_window /\
    terrain_mode self' = terrain_mode initial_window /\
    camera_position self' = camera_position initial_window.
Proof.
  apply (create_chunk_appends_to_scene (H := zero_rng) all_textures initial_window 0 0).
  exists "assets/terrain/ground_grass_NE.png". reflexivity.
Defined.

(** ** Streaming: what update_chunks keeps, evicts and creates *)

Section streaming.
Context `{RandomGen}.
Variable textures : gmap string Texture.
Local Open Scope R_scope.

(** The centre chunk [update_chunks] computes from the camera. *)
Lemma update_chunks_unfold (self : Window) :
  update_chunks textures self =
  reconcile textures
    (screen_to_chunk self ((camera_position self).1 + IZR SCREEN_WIDTH / 2)
                          ((camera_position self).2 + IZR SCREEN_HEIGHT / 2))
    RENDER_DISTANCE self.
Proof. reflexivity. Qed.

(** X11: A resident chunk that is still in the window around the camera keeps
    its record as it is (it is not generated again, whatever the mode is
    now), a resident chunk outside the window is evicted, a chunk of the
    window that was not resident becomes resident with its sprites in the
    scene, and no position outside the window is resident afterwards. *)
Theorem update_chunks_keeps_resident (self : Window) :
  is_Some (textures !! "grass") ->
  let center :=
    screen_to_chunk self ((camera_position self).1 + IZR SCREEN_WIDTH / 2)
                         ((camera_position self).2 + IZR SCREEN_HEIGHT / 2) in
  exists self',
    update_chunks textures self = Some self' /\
    (forall p cs, chunks self !! p = Some cs -> in_window center RENDER_DISTANCE p ->
       chunks self' !! p = Some cs) /\
    (forall p, ~ in_window center RENDER_DISTANCE p -> chunks self' !! p = None) /\
    (forall p, chunks self !! p = None -> in_window center RENDER_DISTANCE p ->
       exists cs, chunks self' !! p = Some cs /\ sprites_in_scene cs (scene self')) /\
    terrain_mode self' = terrain_mode self /\
    camera_position self' = camera_position self.
Proof.
  intros [grass Hgrass] center. rewrite update_chunks_unfold. fold center.
  destruct (reconcile_spec textures grass center RENDER_DISTANCE self Hgrass)
    as (self' & Hrun & Hmode & Hcam & _ & Hdom & Hold & Hnew).
  exists self'. split; [exact Hrun |]. split_and!; try assumption.
  - intros p cs Hp Hwin. eapply Hold; eassumption.
  - intros p Hout. apply not_elem_of_dom. rewrite Hdom. exact Hout.
  - intros p Hp Hwin. destruct (Hnew p Hwin Hp) as [Hlook Hin]. eauto.
Qed.

End streaming.

Lemma update_chunks_keeps_resident_witness :
  let center :=
    screen_to_chunk initial_window
      ((camera_position initial_window).1 + IZR SCREEN_WIDTH / 2)%R
      ((camera_position initial_window).2 + IZR SCREEN_HEIGHT / 2)%R in
  exists self',
    update_chunks (H := zero_rng) all_textures initial_window = Some self' /\
    (forall p cs, chunks initial_window !! p = Some cs -> in_window center RENDER_DISTANCE p ->
       chunks self' !! p = Some cs) /\
    (forall p, ~ in_window center RENDER_DISTANCE p -> chunks self' !! p = None) /\
    (forall p, chunks initial_window !! p = None -> in_window center RENDER_DISTANCE p ->
       exists cs, chunks self' !! p = Some cs /\ sprites_in_scene cs (scene self')) /\
    terrain_mode self' = terrain_mode initial_window /\
    camera_position self' = camera_position initial_window.
Proof.
  apply (update_chunks_keeps_resident (H := zero_rng) all_textures initial_window).
  exists "assets/terrain/ground_grass_NE.png". reflexivity.
Defined.

Section streaming_counts.
Context `{RandomGen}.
Variable textures : gmap string Texture.
Local Open Scope R_scope.

Lemma filter_ext_in {X : Type} (P Q : X -> Prop)
  `{!forall x, Decision (P x)} `{!forall x, Decision (Q x)} (l : list X) :
  (forall x, x ∈ l -> P x <-> Q x) -> filter P l = filter Q l.
Proof.
  induction l as [| x l IH]; intros Hext; [reflexivity |].
  rewrite !filter_cons.
  destruct (decide (P x)) as [HP | HP], (decide (Q x)) as [HQ | HQ].
  - f_equal. apply IH. intros z Hz. apply Hext. right. assumption.
  - exfalso. apply HQ, (Hext x); [left | assumption].
  - exfalso. apply HP, (Hext x); [left | assumption].
  - apply IH. intros z Hz. apply Hext. right. assumption.
Qed.

(** The creation loop on a list without repetition: it only appends to the
    terrain layers, and the ground layer gains one chunk's worth of sprites
    for every position that was not resident. *)
Lemma creation_loop_counts (grass : Texture) (l : list (Z * Z)) (self : Window) :
  textures !! "grass" = Some grass -> NoDup l ->
  exists self',
    for_each
      (fun chunk_pos self =>
         if decide (chunk_pos ∉ dom (chunks self)) then
           ('(chunk_sprites, self) ← create_chunk textures self chunk_pos.1 chunk_pos.2;
            Some (set_chunks (<[chunk_pos := chunk_sprites]> (chunks self)) self))
         else Some self) l self = Some self' /\
    (forall name, layer name (scene self) `prefix_of` layer name (scene self')) /\
    (forall name, name <> LAYER_NAME_GROUND -> name <> LAYER_NAME_OBJECTS ->
       name <> LAYER_NAME_WALLS -> scene self' !! name = scene self !! name) /\
    Z.of_nat (length (layer LAYER_NAME_GROUND (scene self'))) =
      (Z.of_nat (length (layer LAYER_NAME_GROUND (scene self)))
       + CHUNK_SIZE * CHUNK_SIZE
         * Z.of_nat (length (filter (fun p => p ∉ dom (chunks self)) l)))%Z.
Proof.
  intros Hgrass. revert self. induction l as [| p l IH]; intros self Hnodup.
  - exists self. cbn [for_each filter list_filter length]. split_and!; auto; lia.
  - apply NoDup_cons in Hnodup as [Hfresh Hnodup].
    cbn [for_each]. rewrite filter_cons.
    destruct (decide (p ∉ dom (chunks self))) as [Habsent | Hpresent].
    + destruct (create_chunk_spec textures grass self p.1 p.2 Hgrass)
        as (sc' & Hcreate & Hg & Ho & Hw & Hother).
      rewrite Hcreate. cbn [mbind option_bind].
      destruct (IH (set_chunks (<[p := chunk_placements textures self grass p.1 p.2]>
                                  (chunks (set_scene sc' self))) (set_scene sc' self))
                   Hnodup) as (self' & Hloop & Hpre & Hrest & Hlen).
      cbn [scene chunks set_chunks set_scene] in *.
      exists self'. split; [exact Hloop |]. split_and!.
      * intros name. etrans; [| apply Hpre].
        destruct (decide (name = LAYER_NAME_GROUND)) as [-> |];
          [rewrite Hg; apply prefix_app_r; reflexivity |].
        destruct (decide (name = LAYER_NAME_OBJECTS)) as [-> |];
          [rewrite Ho; apply prefix_app_r; reflexivity |].
        destruct (decide (name = LAYER_NAME_WALLS)) as [-> |];
          [rewrite Hw; apply prefix_app_r; reflexivity |].
        unfold layer. rewrite Hother by assumption. reflexivity.
      * intros name H1 H2 H3. rewrite Hrest, Hother by assumption. reflexivity.
      * rewrite Hlen, Hg, length_app.
        assert (Hchunk : length (ground (chunk_placements textures self grass p.1 p.2))
                         = Z.to_nat (CHUNK_SIZE * CHUNK_SIZE)).
        { unfold chunk_placements, placements. cbn [ground].
          rewrite length_fmap. apply chunk_tiles_length. }
        rewrite Hchunk, length_cons.
        rewrite (filter_ext_in (fun q => q ∉ dom (<[p := chunk_placements textures self grass p.1 p.2]> (chunks self)))
                               (fun q => q ∉ dom (chunks self)) l).
        -- unfold CHUNK_SIZE. lia.
        -- intros q Hq. rewrite dom_insert_L, not_elem_of_union, not_elem_of_singleton.
           split; [tauto |]. intros Hnq. split; [| assumption]. congruence.
    + cbn [mbind option_bind].
      destruct (IH self Hnodup) as (self' & Hloop & Hpre & Hrest & Hlen).
      exists self'. split; [exact Hloop |]. split_and!; assumption.
Qed.

(** The counts of [reconcile]: what the creation loop appends, with the
    chunks of the window that were not resident counted before the
    eviction. *)
Lemma reconcile_counts (grass : Texture) (center : Z * Z) (r : Z) (self : Window) :
  textures !! "grass" = Some grass ->
  exists self',
    reconcile textures center r self = Some self' /\
    (forall name, layer name (scene self) `prefix_of` layer name (scene self')) /\
    (forall name, name <> LAYER_NAME_GROUND -> name <> LAYER_NAME_OBJECTS ->
       name <> LAYER_NAME_WALLS -> scene self' !! name = scene self !! name) /\
    Z.of_nat (length (layer LAYER_NAME_GROUND (scene self'))) =
      (Z.of_nat (length (layer LAYER_NAME_GROUND (scene self)))
       + CHUNK_SIZE * CHUNK_SIZE
         * Z.of_nat (size (chunks_needed_around center r ∖ dom (chunks self))))%Z.
Proof.
  intros Hgrass. unfold reconcile.
  set (needed := chunks_needed_around center r).
  set (to_remove := filter (fun chunk_pos => chunk_pos ∉ needed) (map_to_list (chunks self)).*1).
  destruct (evict_spec to_remove self) as (Hsc & _ & _ & Hgone & Hkept).
  assert (Hrem : forall p, p ∈ to_remove <-> (p ∉ needed) /\ p ∈ dom (chunks self))
    by (intros p; apply elem_of_chunks_to_remove).
  set (start := foldl (fun self chunk_pos => set_chunks (delete chunk_pos (chunks self)) self)
                      self to_remove) in *.
  destruct (creation_loop_counts grass (elements needed) start Hgrass (NoDup_elements needed))
    as (self' & Hloop & Hpre & Hrest & Hlen).
  exists self'. split; [exact Hloop |]. rewrite Hsc in Hpre, Hrest, Hlen.
  split; [exact Hpre |]. split; [exact Hrest |].
  rewrite Hlen. do 3 f_equal.
  unfold size, set_size. cbn beta. apply Permutation_length.
  apply NoDup_Permutation.
  - apply NoDup_filter, NoDup_elements.
  - apply NoDup_elements.
  - intros p. rewrite list_elem_of_filter, !elem_of_elements, elem_of_difference.
    split.
    + intros [Hp Hn]. split; [assumption |]. intros Hin. apply Hp.
      apply elem_of_dom. apply elem_of_dom in Hin as [cs Hcs].
      exists cs. rewrite Hkept; [assumption |]. rewrite Hrem. tauto.
    + intros [Hn Hp]. split; [| assumption]. intros Hin. apply Hp.
      apply elem_of_dom. apply elem_of_dom in Hin as [cs Hcs].
      destruct (decide (p ∈ to_remove)) as [Hr | Hr].
      * rewrite Hgone in Hcs by assumption. discriminate.
      * rewrite Hkept in Hcs by assumption. eauto.
Qed.

(** Everything the game needs to know of one [update_chunks]. *)
Lemma update_chunks_spec (self : Window) :
  is_Some (textures !! "grass") ->
  let center :=
    screen_to_chunk self ((camera_position self).1 + IZR SCREEN_WIDTH / 2)
                         ((camera_position self).2 + IZR SCREEN_HEIGHT / 2) in
  exists self',
    update_chunks textures self = Some self' /\
    terrain_mode self' = terrain_mode self /\
    camera_position self' = camera_position self /\
    (forall p, p ∈ dom (chunks self') <-> in_window center RENDER_DISTANCE p) /\
    (forall p cs, in_window center RENDER_DISTANCE p -> chunks self !! p = Some cs ->
       chunks self' !! p = Some cs) /\
    (forall name, layer name (scene self) `prefix_of` layer name (scene self')) /\
    (forall name, name <> LAYER_NAME_GROUND -> name <> LAYER_NAME_OBJECTS ->
       name <> LAYER_NAME_WALLS -> scene self' !! name = scene self !! name) /\
    Z.of_nat (length (layer LAYER_NAME_GROUND (scene self'))) =
      (Z.of_nat (length (layer LAYER_NAME_GROUND (scene self)))
       + CHUNK_SIZE * CHUNK_SIZE
         * Z.of_nat (size (chunks_needed_around center RENDER_DISTANCE ∖ dom (chunks self))))%Z.
Proof.
  intros [grass Hgrass] center. rewrite update_chunks_unfold. fold center.
  destruct (reconcile_spec textures grass center RENDER_DISTANCE self Hgrass)
    as (self' & Hrun & Hmode & Hcam & _ & Hdom & Hkeep & _).
  destruct (reconcile_counts grass center RENDER_DISTANCE self Hgrass)
    as (self'' & Hrun' & Hpre & Hrest & Hlen).
  rewrite Hrun in Hrun'. injection Hrun' as <-.
  exists self'. split_and!; assumption.
Qed.

(** X12: [update_chunks] only ever appends to the terrain layers: the sprite
    list of every layer before the call begins the list after it, no other
    layer changes, and the ground layer grows by 256 sprites for every
    chunk of the window that was not resident. *)
Theorem update_chunks_only_appends (self : Window) :
  is_Some (textures !! "grass") ->
  let center :=
    screen_to_chunk self ((camera_position self).1 + IZR SCREEN_WIDTH / 2)
                         ((camera_position self).2 + IZR SCREEN_HEIGHT / 2) in
  exists self',
    update_chunks textures self = Some self' /\
    (forall name, layer name (scene self) `prefix_of` layer name (scene self')) /\
    (forall name, name <> LAYER_NAME_GROUND -> name <> LAYER_NAME_OBJECTS ->
       name <> LAYER_NAME_WALLS -> scene self' !! name = scene self !! name) /\
    Z.of_nat (length (layer LAYER_NAME_GROUND (scene self'))) =
      (Z.of_nat (length (layer LAYER_NAME_GROUND (scene self)))
       + CHUNK_SIZE * CHUNK_SIZE
         * Z.of_nat (size (chunks_needed_around center RENDER_DISTANCE ∖ dom (chunks self))))%Z.
Proof.
  intros Hgrass center.
  destruct (update_chunks_spec self Hgrass)
    as (self' & Hrun & _ & _ & _ & _ & Hpre & Hrest & Hlen).
  exists self'. split_and!; assumption.
Qed.

End streaming_counts.

(** The first [update_chunks] of a run, every file loaded. *)
Lemma update_chunks_only_appends_witness :
  let center :=
    screen_to_chunk initial_window
      ((camera_position initial_window).1 + IZR SCREEN_WIDTH / 2)%R
      ((camera_position initial_window).2 + IZR SCREEN_HEIGHT / 2)%R in
  exists self',
    update_chunks (H := zero_rng) all_textures initial_window = Some self' /\
    (forall name, layer name (scene initial_window) `prefix_of` layer name (scene self')) /\
    (forall name, name <> LAYER_NAME_GROUND -> name <> LAYER_NAME_OBJECTS ->
       name <> LAYER_NAME_WALLS -> scene self' !! name = scene initial_window !! name) /\
    Z.of_nat (length (layer LAYER_NAME_GROUND (scene self'))) =
      (Z.of_nat (length (layer LAYER_NAME_GROUND (scene initial_window)))
       + CHUNK_SIZE * CHUNK_SIZE
         * Z.of_nat (size (chunks_needed_around center RENDER_DISTANCE
                           ∖ dom (chunks initial_window))))%Z.
Proof.
  apply (update_chunks_only_appends (H := zero_rng) all_textures initial_window).
  exists "assets/terrain/ground_grass_NE.png". reflexivity.
Defined.

(** ** Loading the texture table *)

Section loading.
Variable loadable : string -> bool.

(** The [try] block assigns the keys of an initial segment of the list, each
    to its own file, and stops at the first file that fails. *)
Lemma load_all_spec (files : list (string * string)) (acc : gmap string Texture) :
  exists n : nat,
    (n <= length files)%nat /\
    load_all loadable files acc =
      (foldl (fun m kv => <[kv.1 := kv.2]> m) acc (take n files),
       bool_decide (n = length files)) /\
    (forall i k path, (i < n)%nat -> files !! i = Some (k, path) -> loadable path = true) /\
    ((n < length files)%nat ->
       exists k path, files !! n = Some (k, path) /\ loadable path = false).
Proof.
  revert acc. induction files as [| [key path] rest IH]; intros acc.
  - exists 0%nat. cbn. split_and!; [lia | reflexivity | intros; lia | lia].
  - cbn [load_all]. unfold load_texture.
    destruct (loadable path) eqn:Hload; cbv iota beta.
    + destruct (IH (<[key := path]> acc)) as (n & Hn & Hrun & Hpre & Hstop).
      exists (S n). cbn [length take foldl fst snd]. split_and!.
      * lia.
      * etrans; [exact Hrun |]. f_equal. apply bool_decide_ext. lia.
      * intros [| i] k p Hi Hlook; cbn in Hlook.
        -- congruence.
        -- apply (Hpre i k p); [lia | assumption].
      * intros Hlt. destruct Hstop as (k & p & Hlook & Hp); [lia |].
        exists k, p. split; assumption.
    + exists 0%nat. cbn [length take foldl]. split_and!.
      * lia.
      * reflexivity.
      * intros; lia.
      * intros _. exists key, path. split; [reflexivity | assumption].
Qed.

Lemma lookup_foldl_insert_notin (l : list (string * string))
  (acc : gmap string Texture) (k : string) :
  k ∉ l.*1 -> foldl (fun m kv => <[kv.1 := kv.2]> m) acc l !! k = acc !! k.
Proof.
  revert acc. induction l as [| [k' p'] l IH]; intros acc Hk; [reflexivity |].
  cbn [foldl fst snd]. rewrite fmap_cons, not_elem_of_cons in Hk.
  destruct Hk as [Hne Hk]. rewrite IH by assumption.
  apply lookup_insert_ne. cbn in Hne. congruence.
Qed.

Lemma lookup_foldl_insert_in (l : list (string * string))
  (acc : gmap string Texture) (k p : string) :
  NoDup l.*1 -> (k, p) ∈ l ->
  foldl (fun m kv => <[kv.1 := kv.2]> m) acc l !! k = Some p.
Proof.
  revert acc. induction l as [| [k' p'] l IH]; intros acc Hnodup Hin.
  - apply elem_of_nil in Hin. contradiction.
  - rewrite fmap_cons in Hnodup. apply NoDup_cons in Hnodup as [Hfresh Hnodup].
    cbn [foldl fst snd]. apply elem_of_cons in Hin as [Heq | Hin].
    + injection Heq as -> ->. rewrite lookup_foldl_insert_notin by assumption.
      apply lookup_insert_eq.
    + apply IH; assumption.
Qed.

Lemma texture_files_NoDup : NoDup texture_files.*1.
Proof. compute_done. Qed.


(** A table that [load_textures] returns has the grass key. *)
Lemma load_textures_grass (textures : gmap string Texture) :
  load_textures loadable = Some textures -> is_Some (textures !! "grass").
Proof.
  unfold load_textures.
  destruct (load_all_spec texture_files ∅) as (n & Hn & Hrun & _ & _).
  rewrite Hrun. clear Hrun.
  destruct (bool_decide_reflect (n = length texture_files)) as [Hall | Hpart].
  - intros [= <-]. exists "assets/terrain/ground_grass_NE.png".
    apply lookup_foldl_insert_in.
    + rewrite fmap_take. eapply sublist_NoDup; [apply texture_files_NoDup | apply sublist_take].
    + rewrite Hall. cbn. left.
  - unfold load_texture.
    destruct (loadable ":resources:images/tiles/grassCenter.png"); [| discriminate].
    cbn [mbind option_bind]. intros [= <-]. rewrite lookup_insert_eq. eauto.
Qed.

(** X13: What a successful [load_textures] leaves in the table: the grass key is
    always there; it is the grass of the assets exactly when every file
    loaded, and as soon as one file fails it is the fallback grass, which
    then has loaded; any other key present is a key of the load order,
    holds its own file, and so does every other key before it in that
    order. *)
Theorem load_textures_initial_segment (textures : gmap string Texture) :
  load_textures loadable = Some textures ->
  is_Some (textures !! "grass") /\
  ((textures !! "grass" = Some "assets/terrain/ground_grass_NE.png") <->
     (forall k path, (k, path) ∈ texture_files -> loadable path = true)) /\
  ((exists k path, (k, path) ∈ texture_files /\ loadable path = false) ->
     textures !! "grass" = Some ":resources:images/tiles/grassCenter.png" /\
     loadable ":resources:images/tiles/grassCenter.png" = true) /\
  (forall k, k <> "grass" -> is_Some (textures !! k) ->
     exists j path, texture_files !! j = Some (k, path) /\
       textures !! k = Some path /\
       forall i k' path', (i <= j)%nat -> texture_files !! i = Some (k', path') ->
         loadable path' = true /\ (k' <> "grass" -> textures !! k' = Some path')).
Proof.
  unfold load_textures.
  destruct (load_all_spec texture_files ∅) as (n & Hn & Hrun & Hpre & Hstop).
  rewrite Hrun. clear Hrun.
  set (loaded := foldl (fun m kv => <[kv.1 := kv.2]> m) ∅ (take n texture_files)).
  assert (Hin : forall i k path, (i < n)%nat -> texture_files !! i = Some (k, path) ->
                  loaded !! k = Some path).
  { intros i k path Hi Hlook. apply lookup_foldl_insert_in.
    - rewrite fmap_take. eapply sublist_NoDup; [apply texture_files_NoDup | apply sublist_take].
    - apply list_elem_of_lookup. exists i. rewrite lookup_take_lt by assumption.
      assumption. }
  assert (Hout : forall k, is_Some (loaded !! k) ->
                   exists j path, (j < n)%nat /\ texture_files !! j = Some (k, path)).
  { intros k [t Ht].
    destruct (decide (k ∈ (take n texture_files).*1)) as [Hk | Hk].
    - apply list_elem_of_fmap in Hk as ([k' path] & -> & Hk).
      apply list_elem_of_lookup in Hk as [j Hj].
      apply lookup_take_Some in Hj as [Hj Hlt]. exists j, path. split; assumption.
    - unfold loaded in Ht. rewrite lookup_foldl_insert_notin in Ht by assumption.
      rewrite lookup_empty in Ht. discriminate. }
  assert (Hseg : forall k, k <> "grass" -> is_Some (loaded !! k) ->
     exists j path, texture_files !! j = Some (k, path) /\
       loaded !! k = Some path /\
       forall i k' path', (i <= j)%nat -> texture_files !! i = Some (k', path') ->
         loadable path' = true /\ loaded !! k' = Some path').
  { intros k Hk Hsome. destruct (Hout k Hsome) as (j & path & Hj & Hlook).
    exists j, path. split; [assumption |]. split; [apply (Hin j); assumption |].
    intros i k' path' Hi Hlook'. split.
    - apply (Hpre i k'); [lia | assumption].
    - apply (Hin i); [lia | assumption]. }
  destruct (bool_decide_reflect (n = length texture_files)) as [Hall | Hpart].
  - intros [= <-]. split_and!.
    + exists "assets/terrain/ground_grass_NE.png".
      apply (Hin 0%nat); [rewrite Hall; cbn; lia | reflexivity].
    + split; [| intros _; apply (Hin 0%nat); [rewrite Hall; cbn; lia | reflexivity]].
      intros _ k path Hk. apply list_elem_of_lookup in Hk as [i Hi].
      apply (Hpre i k); [| assumption]. rewrite Hall.
      apply lookup_lt_Some in Hi. assumption.
    + intros (k & path & Hk & Hfail). exfalso.
      apply list_elem_of_lookup in Hk as [i Hi].
      rewrite (Hpre i k path) in Hfail; [discriminate | | assumption].
      rewrite Hall. apply lookup_lt_Some in Hi. assumption.
    + intros k Hk Hsome. destruct (Hseg k Hk Hsome) as (j & path & Hj & Hlook & Hbefore).
      exists j, path. split_and!; [assumption .. |].
      intros i k' path' Hi Hlook'. destruct (Hbefore i k' path' Hi Hlook'). auto.
  - unfold load_texture.
    destruct (loadable ":resources:images/tiles/grassCenter.png") eqn:Hfallback;
      [| discriminate].
    cbn [mbind option_bind]. intros [= <-]. split_and!.
    + rewrite lookup_insert_eq. eauto.
    + rewrite lookup_insert_eq. split; [discriminate |].
      intros Hall. destruct Hstop as (k & path & Hlook & Hfail); [lia |].
      rewrite (Hall k path) in Hfail; [discriminate |].
      apply list_elem_of_lookup. eauto.
    + intros _. rewrite lookup_insert_eq. split; reflexivity.
    + intros k Hk. rewrite lookup_insert_ne by congruence. intros Hsome.
      destruct (Hseg k Hk Hsome) as (j & path & Hj & Hlook & Hbefore).
      exists j, path.
      split_and!; [assumption | rewrite lookup_insert_ne by congruence; assumption |].
      intros i k' path' Hi Hlook'. destruct (Hbefore i k' path' Hi Hlook').
      split; [assumption |]. intros Hk'. rewrite lookup_insert_ne by congruence.
      assumption.
Qed.

End loading.

(** The initial segment, when the image of the tall stone fails to load. *)
Lemma load_textures_initial_segment_witness :
  is_Some (textures_without_stone_tall !! "grass") /\
  ((textures_without_stone_tall !! "grass" = Some "assets/terrain/ground_grass_NE.png") <->
     (forall k path, (k, path) ∈ texture_files -> loadable_without_stone_tall path = true)) /\
  ((exists k path, (k, path) ∈ texture_files /\ loadable_without_stone_tall path = false) ->
     textures_without_stone_tall !! "grass" = Some ":resources:images/tiles/grassCenter.png" /\
     loadable_without_stone_tall ":resources:images/tiles/grassCenter.png" = true) /\
  (forall k, k <> "grass" -> is_Some (textures_without_stone_tall !! k) ->
     exists j path, texture_files !! j = Some (k, path) /\
       textures_without_stone_tall !! k = Some path /\
       forall i k' path', (i <= j)%nat -> texture_files !! i = Some (k', path') ->
         loadable_without_stone_tall path' = true /\
         (k' <> "grass" -> textures_without_stone_tall !! k' = Some path')).
Proof.
  apply (load_textures_initial_segment loadable_without_stone_tall
           textures_without_stone_tall).
  reflexivity.
Defined.

(** ** The character and its animation *)

Lemma py_getitem_nonneg {A : Type} (l : list A) (i : Z) :
  (0 <= i)%Z -> py_getitem l i = l !! Z.to_nat i.
Proof.
  intros Hi. unfold py_getitem.
  destruct (Z.leb_spec 0 i); [reflexivity | lia].
Qed.

Lemma py_getitem_in_range {A : Type} (l : list A) (i : Z) :
  (0 <= i < Z.of_nat (length l))%Z -> is_Some (py_getitem l i).
Proof.
  intros Hi. rewrite py_getitem_nonneg by lia.
  apply lookup_lt_is_Some. lia.
Qed.

Section character_facts.
Variable loadable : string -> bool.

Lemma length_try_append (path : string) (acc : list Texture) :
  (length (try_append loadable path acc) <= S (length acc))%nat.
Proof.
  unfold try_append. destruct (load_texture loadable path).
  - rewrite length_app. cbn. lia.
  - lia.
Qed.

Lemma length_load_first (patterns : list string) (acc : list Texture) :
  (length (load_first loadable patterns acc) <= S (length acc))%nat.
Proof.
  induction patterns as [| p rest IH]; cbn [load_first]; [lia |].
  destruct (load_texture loadable p); [| exact IH].
  rewrite length_app. cbn. lia.
Qed.

Lemma length_foldl_step {X : Type} (f : list Texture -> X -> list Texture)
  (l : list X) (acc : list Texture) :
  (forall acc x, (length (f acc x) <= S (length acc))%nat) ->
  (length (foldl f acc l) <= length acc + length l)%nat.
Proof.
  intros Hstep. revert acc. induction l as [| x l IH]; intros acc; cbn [foldl length].
  - lia.
  - specialize (IH (f acc x)). specialize (Hstep acc x). lia.
Qed.

(** The constructor never raises, and the character starts on the first of
    its run textures. *)
Lemma Character_init_start (character_folder : string) :
  exists self,
    Character_init loadable character_folder = Some self /\
    head (run_textures self) = Some (texture (sprite self)) /\
    current_frame self = 0%Z /\ frame_counter self = 0%Z.
Proof.
  unfold Character_init.
  destruct (foldl (fun acc i => load_first loadable (idle_patterns i) acc) [] (py_range 1 9))
    as [| i0 idle];
  destruct (if String.eqb character_folder "assets/characters/character_run" then _ else _)
    as [| r0 run];
  cbn [py_getitem Z.leb Z.compare Z.to_nat mbind option_bind lookup list_lookup];
  eexists; (split; [reflexivity |]); split_and!; reflexivity.
Qed.

(** X14: The constructor never raises.  The character it builds has at least one
    and at most eight run textures, shows the first of them, and starts the
    animation at frame 0.  For a folder other than the two the constructor
    knows, the default [character_run] among them, no run texture is
    loaded, whatever the files are: the run textures are the idle
    textures. *)
Theorem Character_init_textures (character_folder : string) :
  exists self,
    Character_init loadable character_folder = Some self /\
    (1 <= length (idle_textures self) <= 8)%nat /\
    (1 <= length (run_textures self) <= 8)%nat /\
    head (run_textures self) = Some (texture (sprite self)) /\
    current_frame self = 0%Z /\ frame_counter self = 0%Z /\
    (character_folder <> "assets/characters/character_run" ->
     character_folder <> "assets/characters/character2_run" ->
     run_textures self = idle_textures self).
Proof.
  unfold Character_init.
  set (idle := foldl (fun acc i => load_first loadable (idle_patterns i) acc) [] (py_range 1 9)).
  set (run :=
    if String.eqb character_folder "assets/characters/character_run" then
      foldl (fun acc i =>
               try_append loadable
                 (character_folder +:+ "/sprite_3_" +:+ pretty i +:+ ".png") acc)
            [] (py_range 0 8)
    else if String.eqb character_folder "assets/characters/character2_run" then
      foldl (fun acc pattern => try_append loadable pattern acc) []
            (run_patterns character_folder)
    else []).
  assert (Hidle : (length idle <= 8)%nat).
  { unfold idle.
    etrans; [apply length_foldl_step; intros; apply length_load_first |].
    vm_compute. lia. }
  assert (Hrun : (length run <= 8)%nat).
  { unfold run.
    destruct (String.eqb character_folder "assets/characters/character_run");
      [| destruct (String.eqb character_folder "assets/characters/character2_run")].
    - etrans; [apply length_foldl_step; intros; apply length_try_append |].
      vm_compute. lia.
    - etrans; [apply length_foldl_step; intros; apply length_try_append |].
      cbn. lia.
    - cbn. lia. }
  assert (Hother : character_folder <> "assets/characters/character_run" ->
                   character_folder <> "assets/characters/character2_run" -> run = []).
  { intros H1 H2. unfold run.
    destruct (String.eqb_spec character_folder "assets/characters/character_run");
      [contradiction |].
    destruct (String.eqb_spec character_folder "assets/characters/character2_run");
      [contradiction | reflexivity]. }
  clearbody idle run.
  destruct idle as [| i0 idle], run as [| r0 run];
    cbn [py_getitem Z.leb Z.compare Z.to_nat mbind option_bind lookup list_lookup];
    eexists; (split; [reflexivity |]);
    cbn [idle_textures run_textures sprite texture current_frame frame_counter
         head length] in *;
    (split_and!; try reflexivity; try lia);
    intros H1 H2; specialize (Hother H1 H2); discriminate.
Qed.

End character_facts.

Section animation.
Local Open Scope Z_scope.

(** One call, for any character: it never raises and keeps the frame index
    within the run textures when it changes it. *)
Lemma update_animation_step (self : Character) (delta_time : R) :
  exists self',
    update_animation self delta_time = Some self' /\
    run_textures self' = run_textures self /\
    idle_textures self' = idle_textures self /\
    direction self' = direction self /\
    change_x self' = change_x self /\ change_y self' = change_y self /\
    center_x (sprite self') = center_x (sprite self) /\
    center_y (sprite self') = center_y (sprite self) /\
    (frame_counter self + 1 < 6 ->
       frame_counter self' = frame_counter self + 1 /\
       current_frame self' = current_frame self /\
       texture (sprite self') = texture (sprite self)) /\
    (6 <= frame_counter self + 1 -> run_textures self <> [] ->
       frame_counter self' = 0 /\
       current_frame self' =
         (current_frame self + 1) `mod` Z.of_nat (length (run_textures self)) /\
       run_textures self !! Z.to_nat (current_frame self') = Some (texture (sprite self'))).
Proof.
  unfold update_animation.
  cbn [frame_counter set_frame_counter run_textures current_frame set_current_frame sprite].
  destruct (Z.leb_spec 6 (frame_counter self + 1)) as [Hle | Hlt].
  - destruct (run_textures self) as [| r0 run] eqn:Hrun.
    + eexists. split; [reflexivity |].
      cbn [frame_counter set_frame_counter run_textures idle_textures current_frame
           sprite direction change_x change_y].
      split_and!; try reflexivity; try assumption; try lia.
      intros _ Hne. contradiction.
    + set (len := Z.of_nat (length (r0 :: run))).
      assert (Hlen : 0 < len) by (unfold len; cbn [length]; lia).
      assert (Hidx : 0 <= (current_frame self + 1) `mod` len < len)
        by (apply Z.mod_pos_bound; assumption).
      destruct (py_getitem_in_range (r0 :: run) ((current_frame self + 1) `mod` len))
        as [t Ht]; [exact Hidx |].
      rewrite Ht. cbn [mbind option_bind].
      eexists. split; [reflexivity |].
      cbn [frame_counter set_frame_counter run_textures idle_textures current_frame
           set_current_frame set_sprite set_texture sprite direction change_x change_y
           center_x center_y texture].
      split_and!; try reflexivity; try assumption; try lia.
      intros _ _. split_and!; try reflexivity.
      rewrite py_getitem_nonneg in Ht by lia. exact Ht.
  - eexists. split; [reflexivity |].
    cbn [frame_counter set_frame_counter run_textures idle_textures current_frame
         sprite direction change_x change_y].
    split_and!; try reflexivity; try lia.
    intros _. split_and!; reflexivity.
Qed.

(** [n] calls from a state whose frame index is valid. *)
Lemma animate_spec (n : nat) (self : Character) (delta_time : R) :
  let len := Z.of_nat (length (run_textures self)) in
  0 <= frame_counter self < 6 ->
  0 <= current_frame self < len ->
  run_textures self !! Z.to_nat (current_frame self) = Some (texture (sprite self)) ->
  exists self',
    animate n self delta_time = Some self' /\
    run_textures self' = run_textures self /\
    frame_counter self' = (frame_counter self + Z.of_nat n) `mod` 6 /\
    current_frame self' =
      (current_frame self + (frame_counter self + Z.of_nat n) `div` 6) `mod` len /\
    run_textures self !! Z.to_nat (current_frame self') = Some (texture (sprite self')).
Proof.
  revert self. induction n as [| n IH]; intros self len Hf Hk Htex.
  - exists self. cbn [animate]. split_and!; try reflexivity.
    + rewrite Z.add_0_r, Z.mod_small by lia. reflexivity.
    + rewrite Z.add_0_r, (Z.div_small (frame_counter self) 6), Z.add_0_r by lia.
      rewrite Z.mod_small by lia. reflexivity.
    + exact Htex.
  - cbn [animate].
    destruct (update_animation_step self delta_time)
      as (s1 & Hstep & Hrun & _ & _ & _ & _ & _ & _ & Hstay & Hturn).
    rewrite Hstep. cbn [mbind option_bind].
    assert (Hne : run_textures self <> []).
    { intros Heq. unfold len in Hk. rewrite Heq in Hk. cbn in Hk. lia. }
    destruct (Z.lt_ge_cases (frame_counter self + 1) 6) as [Hlt | Hge].
    + destruct (Hstay Hlt) as (Hf1 & Hk1 & Ht1).
      destruct (IH s1) as (s' & Hrest & Hrun' & Hf' & Hk' & Htex').
      * rewrite Hf1. lia.
      * rewrite Hrun, Hk1. exact Hk.
      * rewrite Hrun, Hk1, Ht1. exact Htex.
      * exists s'. split; [exact Hrest |].
        rewrite Hrun in *. rewrite Hf1, Hk1 in *.
        replace (frame_counter self + Z.of_nat (S n))
          with (frame_counter self + 1 + Z.of_nat n) by lia.
        split_and!; assumption.
    + destruct (Hturn Hge Hne) as (Hf1 & Hk1 & Ht1).
      assert (Hbound : 0 <= current_frame s1 < len).
      { rewrite Hk1. apply Z.mod_pos_bound. lia. }
      destruct (IH s1) as (s' & Hrest & Hrun' & Hf' & Hk' & Htex').
      * rewrite Hf1. lia.
      * rewrite Hrun. exact Hbound.
      * rewrite Hrun. exact Ht1.
      * exists s'. split; [exact Hrest |].
        rewrite Hrun in *. rewrite Hf1 in *.
        assert (Hfive : frame_counter self = 5) by lia.
        replace (frame_counter self + Z.of_nat (S n)) with (Z.of_nat n + 1 * 6) by lia.
        rewrite Z.div_add, Z.mod_add by lia.
        split_and!; try assumption.
        rewrite Hk', Hk1. fold len.
        rewrite Z.add_0_l, Zplus_mod_idemp_l. f_equal. lia.
Qed.

(** X15: The animation of a new character: after [n] calls of [update_animation]
    the frame counter is [n mod 6], the frame is [n / 6] modulo the number
    of run textures, and the character shows the run texture of that
    frame.  No call raises. *)
Theorem animation_cycle (loadable : string -> bool) (character_folder : string)
  (delta_time : R) (n : nat) :
  exists self self',
    Character_init loadable character_folder = Some self /\
    animate n self delta_time = Some self' /\
    run_textures self' = run_textures self /\
    frame_counter self' = Z.of_nat n `mod` 6 /\
    current_frame self' =
      (Z.of_nat n `div` 6) `mod` Z.of_nat (length (run_textures self)) /\
    run_textures self !! Z.to_nat (current_frame self') = Some (texture (sprite self')).
Proof.
  destruct (Character_init_start loadable character_folder)
    as (self & Hinit & Hhead & Hk & Hf).
  exists self.
  assert (Hlen : 0 < Z.of_nat (length (run_textures self))).
  { destruct (run_textures self); [discriminate | cbn [length]; lia]. }
  destruct (animate_spec n self delta_time) as (self' & Hrest & Hrun' & Hf' & Hk' & Htex').
  - rewrite Hf. lia.
  - rewrite Hk. lia.
  - rewrite Hk. cbn. destruct (run_textures self); [discriminate | exact Hhead].
  - exists self'. rewrite Hf, Hk in *. rewrite Z.add_0_l in *.
    split_and!; assumption.
Qed.

End animation.

(** ** The game: one update *)

Lemma window_satisfied_ext (w w' : Window) :
  chunks w' = chunks w -> camera_position w' = camera_position w ->
  window_satisfied w -> window_satisfied w'.
Proof.
  unfold window_satisfied, camera_chunk, screen_to_chunk.
  intros -> ->. auto.
Qed.

Lemma set_character_layer (c : Character) (self : Game) (name : string) :
  layer name (scene (window (set_character c self))) =
  if decide (name = LAYER_NAME_CHARACTERS)
  then (fun _ => sprite c) <$> layer name (scene (window self))
  else layer name (scene (window self)).
Proof.
  unfold set_character, layer. cbn [window scene set_scene].
  destruct (decide (name = LAYER_NAME_CHARACTERS)) as [-> | Hne].
  - rewrite lookup_alter_eq.
    destruct (scene (window self) !! LAYER_NAME_CHARACTERS); reflexivity.
  - rewrite lookup_alter_ne by congruence. reflexivity.
Qed.

Section update_facts.
Context `{RandomGen} {arcade : Arcade}.
Variable textures : gmap string Texture.
Local Open Scope R_scope.

(** The two ways out of [on_update] for a game in progress. *)
Lemma on_update_spec (self : Game) (c : Character) (delta_time : R) :
  is_Some (textures !! "grass") ->
  game_over self = false -> character self = Some c ->
  let c1 := steer (turn_direction self) c in
  let c2 := PhysicsEngineSimple_update (layer LAYER_NAME_WALLS (scene (window self))) c1 in
  let move_x := center_x (sprite c2) - center_x (sprite c) in
  let move_y := center_y (sprite c2) - center_y (sprite c) in
  exists self',
    on_update textures self delta_time = Some self' /\
    ((blocked (center_x (sprite c)) (center_y (sprite c)) c2 /\
      self' = set_game_over true (set_character c2 self)) \/
     (~ blocked (center_x (sprite c)) (center_y (sprite c)) c2 /\
      exists w c',
        update_chunks textures
          (set_camera_position
             ((camera_position (window self)).1 + move_x,
              (camera_position (window self)).2 + move_y)
             (window (set_character c2 self))) = Some w /\
        update_animation c2 delta_time = Some c' /\
        self' =
          set_character c'
            (set_window w
               (set_window
                  (set_camera_position
                     ((camera_position (window self)).1 + move_x,
                      (camera_position (window self)).2 + move_y)
                     (window (set_character c2 self)))
                  (set_distance_traveled
                     (distance_traveled self + sqrt (move_x ^ 2 + move_y ^ 2))
                     (set_character c2 self)))))).
Proof.
  intros Hgrass Hgo Hc c1 c2 move_x move_y.
  assert (Hx : center_x (sprite c1) = center_x (sprite c)).
  { unfold c1, steer. destruct (turn_direction self =? 0)%Z; reflexivity. }
  assert (Hy : center_y (sprite c1) = center_y (sprite c)).
  { unfold c1, steer. destruct (turn_direction self =? 0)%Z; reflexivity. }
  unfold on_update. rewrite Hgo, Hc. cbn [mbind option_bind]. cbv zeta.
  change (set_change _ _ (if (turn_direction self =? 0)%Z then c else _)) with c1.
  fold c2. rewrite Hx, Hy. fold move_x. fold move_y.
  unfold blocked. fold move_x. fold move_y.
  destruct (Rlt_dec (Rabs move_x) (Rabs (change_x c2) * 0.5)) as [Hbx | Hbx].
  { eexists. split; [reflexivity |]. left. split; [left; exact Hbx | reflexivity]. }
  destruct (Rlt_dec (Rabs move_y) (Rabs (change_y c2) * 0.5)) as [Hby | Hby].
  { eexists. split; [reflexivity |]. left. split; [right; exact Hby | reflexivity]. }
  cbn [window set_window set_distance_traveled camera_position set_camera_position].
  match goal with
  | |- context [update_chunks textures ?W] =>
      destruct (update_chunks_spec textures W Hgrass) as (w & Hrun & _)
  end.
  destruct (update_animation_step c2 delta_time) as (c' & Hanim & _).
  rewrite Hrun. cbn [mbind option_bind]. rewrite Hanim. cbn [mbind option_bind].
  eexists. split; [reflexivity |]. right. split; [tauto |].
  exists w, c'. split_and!; first [reflexivity | exact Hrun | exact Hanim].
Qed.

Lemma steer_velocity (turn : Z) (c : Character) :
  change_x (steer turn c) = cos (direction (steer turn c)) * IZR CHARACTER_SPEED /\
  change_y (steer turn c) = sin (direction (steer turn c)) * IZR CHARACTER_SPEED /\
  direction (steer turn c) = direction c + IZR turn * TURN_SPEED /\
  sprite (steer turn c) = sprite c.
Proof.
  unfold steer. destruct (Z.eqb_spec turn 0) as [-> | Hne];
    cbn [change_x change_y direction sprite set_change set_direction];
    split_and!; try reflexivity.
  lra.
Qed.

(** What [update_chunks] leaves, for a window the game hands it. *)
Lemma update_chunks_satisfied (w0 w : Window) :
  is_Some (textures !! "grass") ->
  update_chunks textures w0 = Some w ->
  window_satisfied w /\
  camera_position w = camera_position w0 /\
  terrain_mode w = terrain_mode w0 /\
  (forall p cs, in_window (camera_chunk w0) RENDER_DISTANCE p ->
     chunks w0 !! p = Some cs -> chunks w !! p = Some cs) /\
  (forall name, layer name (scene w0) `prefix_of` layer name (scene w)) /\
  layer LAYER_NAME_CHARACTERS (scene w) = layer LAYER_NAME_CHARACTERS (scene w0) /\
  Z.of_nat (length (layer LAYER_NAME_GROUND (scene w))) =
    (Z.of_nat (length (layer LAYER_NAME_GROUND (scene w0)))
     + CHUNK_SIZE * CHUNK_SIZE
       * Z.of_nat (size (chunks_needed_around (camera_chunk w0) RENDER_DISTANCE
                         ∖ dom (chunks w0))))%Z.
Proof.
  intros Hgrass Hrun.
  destruct (update_chunks_spec textures w0 Hgrass)
    as (w' & Hrun' & Hmode & Hcam & Hdom & Hkeep & Hpre & Hrest & Hlen).
  rewrite Hrun in Hrun'. injection Hrun' as <-.
  split_and!; try assumption.
  - unfold window_satisfied, camera_chunk. rewrite Hcam. exact Hdom.
  - unfold layer. rewrite Hrest by discriminate. reflexivity.
Qed.

(** X16: The camera follows the character.  Whatever the physics engine does,
    [on_update] on a game in progress returns, and the distance does not
    decrease.  If the game goes on, the camera has moved by exactly the
    displacement of the character, the distance has grown by the length of
    that displacement, and the resident chunks are those around the new
    camera.  If the game is over, the camera, the resident chunks, the
    distance and the terrain layers are as before. *)
Theorem on_update_camera_follows (self : Game) (c : Character) (delta_time : R) :
  is_Some (textures !! "grass") ->
  game_over self = false -> character self = Some c ->
  exists self' c',
    on_update textures self delta_time = Some self' /\
    character self' = Some c' /\
    distance_traveled self <= distance_traveled self' /\
    (game_over self' = false ->
       (camera_position (window self')).1 - (camera_position (window self)).1
         = center_x (sprite c') - center_x (sprite c) /\
       (camera_position (window self')).2 - (camera_position (window self)).2
         = center_y (sprite c') - center_y (sprite c) /\
       distance_traveled self' - distance_traveled self
         = sqrt ((center_x (sprite c') - center_x (sprite c)) ^ 2
                 + (center_y (sprite c') - center_y (sprite c)) ^ 2) /\
       window_satisfied (window self')) /\
    (game_over self' = true ->
       camera_position (window self') = camera_position (window self) /\
       chunks (window self') = chunks (window self) /\
       distance_traveled self' = distance_traveled self /\
       forall name, name <> LAYER_NAME_CHARACTERS ->
         layer name (scene (window self')) = layer name (scene (window self))).
Proof.
  intros Hgrass Hgo Hc.
  destruct (on_update_spec self c delta_time Hgrass Hgo Hc)
    as (self' & Hrun & [[_ ->] | [_ (w & c' & Hchunks & Hanim & ->)]]).
  - eexists _, _. split; [exact Hrun |].
    cbn [character set_game_over set_character distance_traveled game_over window].
    split_and!; [reflexivity | lra | discriminate |].
    intros _. cbn [camera_position chunks set_scene]. split_and!; try reflexivity.
    intros name Hname.
    pose proof (set_character_layer
                  (PhysicsEngineSimple_update
                     (layer LAYER_NAME_WALLS (scene (window self)))
                     (steer (turn_direction self) c)) self name) as Hlayer.
    destruct (decide (name = LAYER_NAME_CHARACTERS)); [contradiction |].
    exact Hlayer.
  - destruct (update_chunks_satisfied _ _ Hgrass Hchunks) as (Hsat & Hcam & _).
    destruct (update_animation_step
                (PhysicsEngineSimple_update
                   (layer LAYER_NAME_WALLS (scene (window self)))
                   (steer (turn_direction self) c)) delta_time)
      as (c'' & Hanim' & _ & _ & _ & _ & _ & Hcx & Hcy & _).
    rewrite Hanim in Hanim'. injection Hanim' as <-.
    eexists. exists c'. split; [exact Hrun |].
    cbn [character set_character set_window set_distance_traveled distance_traveled
         game_over window camera_position set_scene] in *.
    rewrite Hcam, Hcx, Hcy. cbn [fst snd camera_position set_camera_position].
    split_and!; [reflexivity | | | congruence].
    + match goal with |- _ <= _ + sqrt ?a => pose proof (sqrt_pos a) end. lra.
    + intros _. split_and!; try lra.
      eapply window_satisfied_ext; [| | exact Hsat]; reflexivity.
Qed.


(** X18: A character that cannot move ends the game.  If the physics engine
    leaves the character where it was, with its velocity, then whatever the
    direction the game is over after the update, and the distance, the
    camera and the resident chunks are as before. *)
Theorem on_update_stuck_ends_game (self : Game) (c c1 c2 : Character) (delta_time : R) :
  c1 = steer (turn_direction self) c ->
  c2 = PhysicsEngineSimple_update (layer LAYER_NAME_WALLS (scene (window self))) c1 ->
  is_Some (textures !! "grass") ->
  game_over self = false -> character self = Some c ->
  center_x (sprite c2) = center_x (sprite c1) ->
  center_y (sprite c2) = center_y (sprite c1) ->
  change_x c2 = change_x c1 -> change_y c2 = change_y c1 ->
  exists self',
    on_update textures self delta_time = Some self' /\
    game_over self' = true /\
    character self' = Some c2 /\
    distance_traveled self' = distance_traveled self /\
    camera_position (window self') = camera_position (window self) /\
    chunks (window self') = chunks (window self).
Proof.
  intros Hc1 Hc2. subst c2. subst c1.
  set (c1 := steer (turn_direction self) c).
  set (c2 := PhysicsEngineSimple_update (layer LAYER_NAME_WALLS (scene (window self))) c1).
  intros Hgrass Hgo Hc Hmx Hmy Hvx Hvy.
  destruct (steer_velocity (turn_direction self) c) as (Hcx & Hcy & Hdir & Hsprite).
  fold c1 in Hcx, Hcy, Hdir, Hsprite.
  rewrite Hsprite in Hmx, Hmy. rewrite Hcx in Hvx. rewrite Hcy in Hvy.
  set (d := direction c1) in *.
  assert (Hstuck : blocked (center_x (sprite c)) (center_y (sprite c)) c2).
  { unfold blocked. rewrite Hmx, Hmy, Hvx, Hvy.
    rewrite !Rminus_diag, Rabs_R0.
    pose proof (sin2_cos2 d) as Hunit. unfold Rsqr in Hunit.
    destruct (Req_dec (cos d) 0) as [Hzero | Hnz].
    - right. assert (Hs : sin d <> 0) by (intros Hs; rewrite Hs, Hzero in Hunit; lra).
      assert (0 < Rabs (sin d * IZR CHARACTER_SPEED)); [| lra].
      apply Rabs_pos_lt. unfold CHARACTER_SPEED. nra.
    - left. assert (0 < Rabs (cos d * IZR CHARACTER_SPEED)); [| lra].
      apply Rabs_pos_lt. unfold CHARACTER_SPEED. nra. }
  destruct (on_update_spec self c delta_time Hgrass Hgo Hc)
    as (self' & Hrun & [[_ ->] | [Hfree _]]); [| contradiction].
  eexists. split; [exact Hrun |]. split_and!; reflexivity.
Qed.

End update_facts.

(** ** The game: start, keys and the event loop *)

Section game_facts.
Context `{RandomGen} {arcade : Arcade}.
Variable textures : gmap string Texture.
Variable loadable : string -> bool.
Local Open Scope R_scope.

(** What [setup] builds before it streams the chunks in, and what it
    returns. *)
Lemma setup_spec (self : Game) :
  is_Some (textures !! "grass") ->
  exists self' c w0,
    setup textures loadable self = Some self' /\
    update_chunks textures w0 = Some (window self') /\
    chunks w0 = chunks (window self) /\
    camera_position w0 = camera_position (window self) /\
    terrain_mode w0 = terrain_mode (window self) /\
    layer LAYER_NAME_GROUND (scene w0) = [] /\
    layer LAYER_NAME_OBJECTS (scene w0) = [] /\
    layer LAYER_NAME_WALLS (scene w0) = [] /\
    layer LAYER_NAME_CHARACTERS (scene w0) = [sprite c] /\
    character self' = Some c /\
    center_x (sprite c) = IZR SCREEN_WIDTH / 2 /\
    center_y (sprite c) = IZR SCREEN_HEIGHT / 2 /\
    direction c = PI / 4 /\
    turn_direction self' = turn_direction self /\
    game_over self' = false /\
    distance_traveled self' = 0.
Proof.
  intros Hgrass. unfold setup.
  destruct (Character_init_start loadable "character_run") as (c0 & Hinit & _).
  rewrite Hinit. cbn [mbind option_bind].
  match goal with
  | |- context [update_chunks textures ?W] =>
      destruct (update_chunks_spec textures W Hgrass) as (w & Hrun & _);
      rewrite Hrun; cbn [mbind option_bind];
      eexists; eexists; exists W
  end.
  split; [reflexivity |].
  cbn [window character turn_direction game_over distance_traveled
       chunks camera_position terrain_mode scene set_scene
       sprite direction set_direction set_sprite center_x center_y set_iso_tile set_center].
  split_and!; try reflexivity.
  - exact Hrun.
  - rewrite layer_add_sprite_eq. reflexivity.
Qed.

Lemma started_setup (self : Game) :
  is_Some (textures !! "grass") ->
  (turn_direction self = -1 \/ turn_direction self = 0 \/ turn_direction self = 1)%Z ->
  terrain_mode (window self) = "quantum" \/ terrain_mode (window self) = "random" ->
  exists self', setup textures loadable self = Some self' /\ started self'.
Proof.
  intros Hgrass Hturn Hmode.
  destruct (setup_spec self Hgrass)
    as (self' & c & w0 & Hsetup & Hrun & _ & _ & Hm & _ & _ & _ & Hchar & Hc & _ & _ & _
        & Ht & _ & Hd).
  destruct (update_chunks_satisfied textures _ _ Hgrass Hrun)
    as (Hsat & _ & Hm' & _ & _ & Hlayer & _).
  exists self'. split; [exact Hsetup |]. unfold started. split_and!.
  - exists c. split; [exact Hc |]. rewrite Hlayer. exact Hchar.
  - exact Hsat.
  - rewrite Ht. exact Hturn.
  - rewrite Hm', Hm. exact Hmode.
  - rewrite Hd. lra.
Qed.

Lemma started_on_key_press (self : Game) (key modifiers : Z) :
  is_Some (textures !! "grass") -> started self ->
  exists self', on_key_press textures loadable self key modifiers = Some self' /\
                started self'.
Proof.
  intros Hgrass (Hchar & Hsat & Hturn & Hmode & Hdist). unfold on_key_press.
  destruct (game_over self).
  - destruct (key =? key_R)%Z.
    + apply started_setup; assumption.
    + exists self. split; [reflexivity |]. unfold started. auto.
  - destruct ((key =? key_LEFT)%Z || (key =? key_A)%Z);
      [| destruct ((key =? key_RIGHT)%Z || (key =? key_D)%Z);
         [| destruct (key =? key_Q)%Z;
            [destruct (String.eqb (terrain_mode (window self)) "quantum") |]]];
      (eexists; split; [reflexivity |]); unfold started;
      cbn [window character turn_direction distance_traveled set_turn_direction
           set_window scene chunks terrain_mode set_terrain_mode];
      split_and!;
      first [ assumption
            | eapply window_satisfied_ext; [| | exact Hsat]; reflexivity
            | auto ].
Qed.

Lemma started_on_key_release (self : Game) (key modifiers : Z) :
  started self -> started (on_key_release self key modifiers).
Proof.
  intros (Hchar & Hsat & Hturn & Hmode & Hdist). unfold on_key_release.
  destruct ((key =? key_LEFT)%Z || (key =? key_A)%Z);
    [destruct (turn_direction self =? -1)%Z
    | destruct ((key =? key_RIGHT)%Z || (key =? key_D)%Z);
      [destruct (turn_direction self =? 1)%Z |]];
    unfold started;
    cbn [window character turn_direction distance_traveled set_turn_direction];
    split_and!; auto.
Qed.

Lemma started_on_update (self : Game) (delta_time : R) :
  is_Some (textures !! "grass") -> started self ->
  exists self', on_update textures self delta_time = Some self' /\ started self'.
Proof.
  intros Hgrass Hstarted.
  destruct (game_over self) eqn:Hgo.
  { exists self. split; [| exact Hstarted]. unfold on_update. rewrite Hgo. reflexivity. }
  destruct Hstarted as ((c & Hc & Hlayer) & Hsat & Hturn & Hmode & Hdist).
  destruct (on_update_spec textures self c delta_time Hgrass Hgo Hc)
    as (self' & Hrun & [[_ ->] | [_ (w & c' & Hchunks & Hanim & ->)]]);
    (eexists; split; [exact Hrun |]); unfold started.
  - cbn [character set_game_over set_character distance_traveled turn_direction window].
    split_and!; [| exact Hsat | exact Hturn | exact Hmode | exact Hdist].
    eexists. split; [reflexivity |].
    transitivity
      (layer LAYER_NAME_CHARACTERS
         (scene (window (set_character
                           (PhysicsEngineSimple_update
                              (layer LAYER_NAME_WALLS (scene (window self)))
                              (steer (turn_direction self) c)) self))));
      [reflexivity |].
    rewrite set_character_layer, decide_True by reflexivity.
    rewrite Hlayer. reflexivity.
  - destruct (update_chunks_satisfied textures _ _ Hgrass Hchunks)
      as (Hsat' & _ & Hmode' & _ & _ & Hlayer' & _).
    split_and!.
    + exists c'. split; [reflexivity |].
      rewrite set_character_layer, decide_True by reflexivity.
      cbn [window set_window]. rewrite Hlayer'.
      transitivity
        ((fun _ => sprite c') <$>
         layer LAYER_NAME_CHARACTERS
           (scene (window (set_character
                             (PhysicsEngineSimple_update
                                (layer LAYER_NAME_WALLS (scene (window self)))
                                (steer (turn_direction self) c)) self))));
        [reflexivity |].
      rewrite set_character_layer, decide_True by reflexivity.
      rewrite Hlayer. reflexivity.
    + eapply window_satisfied_ext; [| | exact Hsat']; reflexivity.
    + exact Hturn.
    + cbn [window set_character set_window terrain_mode set_scene].
      rewrite Hmode'. exact Hmode.
    + cbn [distance_traveled set_character set_window set_distance_traveled].
      match goal with |- _ <= _ + sqrt ?a => pose proof (sqrt_pos a) end. lra.
Qed.

Lemma started_run_events (events : list Event) (self : Game) :
  is_Some (textures !! "grass") -> started self ->
  exists self', run_events textures loadable events self = Some self' /\ started self'.
Proof.
  intros Hgrass. revert self. unfold run_events.
  induction events as [| event events IH]; intros self Hstarted.
  - exists self. split; [reflexivity | exact Hstarted].
  - cbn [for_each].
    assert (Hstep : exists self1, dispatch textures loadable event self = Some self1 /\
                                  started self1).
    { destruct event as [key modifiers | key modifiers | delta_time]; cbn [dispatch].
      - apply started_on_key_press; assumption.
      - eexists. split; [reflexivity |]. apply started_on_key_release. assumption.
      - apply started_on_update; assumption. }
    destruct Hstep as (self1 & Hstep & Hstarted1).
    rewrite Hstep. cbn [mbind option_bind]. apply IH. exact Hstarted1.
Qed.

(** X19: While the game is in progress the keys only steer.  A key press
    returns, and leaves the character, the scene, the resident chunks, the
    camera and the distance as they are; it sets the turn input to -1 or 1,
    or flips the terrain mode (any mode other than "quantum" becomes
    "quantum"), or does nothing.  A key release, in any state, changes
    nothing but the turn input, which it leaves or sets to 0. *)
Theorem keys_only_steer (self : Game) (key modifiers : Z) :
  game_over self = false ->
  (exists self',
     on_key_press textures loadable self key modifiers = Some self' /\
     character self' = character self /\
     scene (window self') = scene (window self) /\
     chunks (window self') = chunks (window self) /\
     camera_position (window self') = camera_position (window self) /\
     distance_traveled self' = distance_traveled self /\
     game_over self' = false /\
     ((turn_direction self' = -1 /\ terrain_mode (window self') = terrain_mode (window self)) \/
      (turn_direction self' = 1 /\ terrain_mode (window self') = terrain_mode (window self)) \/
      (turn_direction self' = turn_direction self /\
       terrain_mode (window self') =
         if String.eqb (terrain_mode (window self)) "quantum" then "random" else "quantum") \/
      self' = self)%Z) /\
  (let self' := on_key_release self key modifiers in
   window self' = window self /\
   character self' = character self /\
   distance_traveled self' = distance_traveled self /\
   game_over self' = game_over self /\
   (turn_direction self' = turn_direction self \/ turn_direction self' = 0)%Z).
Proof.
  intros Hgo. split.
  - unfold on_key_press. rewrite Hgo.
    destruct ((key =? key_LEFT)%Z || (key =? key_A)%Z);
      [| destruct ((key =? key_RIGHT)%Z || (key =? key_D)%Z);
         [| destruct (key =? key_Q)%Z]].
    + eexists. split; [reflexivity |].
      cbn [window character turn_direction distance_traveled game_over set_turn_direction].
      split_and!; auto.
    + eexists. split; [reflexivity |].
      cbn [window character turn_direction distance_traveled game_over set_turn_direction].
      split_and!; auto.
    + destruct (String.eqb (terrain_mode (window self)) "quantum");
        (eexists; split; [reflexivity |]);
        cbn [window character turn_direction distance_traveled game_over set_window
             scene chunks camera_position terrain_mode set_terrain_mode];
        split_and!; auto.
    + exists self. split; [reflexivity |]. split_and!; auto.
  - cbv zeta. unfold on_key_release.
    destruct ((key =? key_LEFT)%Z || (key =? key_A)%Z);
      [destruct (turn_direction self =? -1)%Z
      | destruct ((key =? key_RIGHT)%Z || (key =? key_D)%Z);
        [destruct (turn_direction self =? 1)%Z |]];
      cbn [window character turn_direction distance_traveled game_over set_turn_direction];
      split_and!; auto.
Qed.

(** X20: A restart keeps the camera and the resident chunks.  When the game is
    over and the resident chunks are those around the camera, which they
    are after every update, the key R starts a new game whose character is
    back at the centre of the first screen, while the camera stays where
    the last game ended, no chunk is generated, and the ground, object and
    wall layers of the new scene are empty. *)
Theorem restart_keeps_camera_and_chunks (self : Game) (modifiers : Z) :
  game_over self = true -> window_satisfied (window self) ->
  exists self' c,
    on_key_press textures loadable self key_R modifiers = Some self' /\
    game_over self' = false /\
    distance_traveled self' = 0 /\
    turn_direction self' = turn_direction self /\
    character self' = Some c /\
    center_x (sprite c) = IZR SCREEN_WIDTH / 2 /\
    center_y (sprite c) = IZR SCREEN_HEIGHT / 2 /\
    direction c = PI / 4 /\
    camera_position (window self') = camera_position (window self) /\
    chunks (window self') = chunks (window self) /\
    layer LAYER_NAME_GROUND (scene (window self')) = [] /\
    layer LAYER_NAME_OBJECTS (scene (window self')) = [] /\
    layer LAYER_NAME_WALLS (scene (window self')) = [] /\
    layer LAYER_NAME_CHARACTERS (scene (window self')) = [sprite c].
Proof.
  intros Hover Hsat. unfold on_key_press. rewrite Hover, Z.eqb_refl.
  unfold setup.
  destruct (Character_init_start loadable "character_run") as (c0 & Hinit & _).
  rewrite Hinit. cbn [mbind option_bind].
  match goal with
  | |- context [update_chunks textures ?W] =>
      assert (Hrun : update_chunks textures W = Some W)
  end.
  { rewrite update_chunks_unfold. apply reconcile_satisfied. exact Hsat. }
  rewrite Hrun. cbn [mbind option_bind].
  eexists. eexists. split; [reflexivity |].
  cbn [window character turn_direction game_over distance_traveled
       chunks camera_position scene set_scene
       sprite direction set_direction set_sprite center_x center_y set_iso_tile set_center].
  split_and!; reflexivity.
Qed.

End game_facts.

(** ** The program from its start *)

Section program.
Context `{RandomGen} {arcade : Arcade}.
Local Open Scope R_scope.

(** X21: [main] fails exactly when [load_textures] does.  Otherwise the game
    starts with the 81 chunks around the camera resident, their
    81 * 256 = 20736 ground sprites in the scene, the character alone in
    its layer at the centre of the screen and heading up-right, in the
    quantum mode. *)
Theorem main_starts_game (loadable : string -> bool) :
  match load_textures loadable with
  | None => main loadable = None
  | Some textures =>
      exists self c,
        main loadable = Some (textures, self) /\
        character self = Some c /\
        center_x (sprite c) = 640 /\ center_y (sprite c) = 360 /\
        direction c = PI / 4 /\
        layer LAYER_NAME_CHARACTERS (scene (window self)) = [sprite c] /\
        game_over self = false /\ distance_traveled self = 0 /\
        turn_direction self = 0%Z /\
        terrain_mode (window self) = "quantum" /\
        camera_position (window self) = Camera2D_position /\
        window_satisfied (window self) /\
        size (dom (chunks (window self))) = 81%nat /\
        Z.of_nat (length (layer LAYER_NAME_GROUND (scene (window self)))) = 20736%Z
  end.
Proof.
  unfold main, ProceduralForestTerrain_init.
  destruct (load_textures loadable) as [textures |] eqn:Hload; [| reflexivity].
  cbn [mbind option_bind].
  pose proof (load_textures_grass loadable textures Hload) as Hgrass.
  destruct (setup_spec textures loadable
              {| window := {| scene := ∅; chunks := ∅; terrain_mode := "quantum";
                              camera_position := Camera2D_position |};
                 character := None; turn_direction := 0;
                 game_over := false; distance_traveled := 0 |} Hgrass)
    as (self' & c & w0 & Hsetup & Hrun & Hch & Hcam & Hm & Hg & _ & _ & Hchar & Hc & Hx & Hy
        & Hd & Ht & Hgo & Hdist).
  cbn [window chunks camera_position terrain_mode turn_direction] in Hch, Hcam, Hm, Ht.
  destruct (update_chunks_satisfied textures _ _ Hgrass Hrun)
    as (Hsat & Hcam' & Hm' & _ & _ & Hlayer & Hlen).
  rewrite Hsetup. cbn [mbind option_bind].
  assert (Hdom : dom (chunks (window self')) =
                 chunks_needed_around (camera_chunk (window self')) RENDER_DISTANCE).
  { apply set_eq. intros p. rewrite elem_of_chunks_needed_around. apply Hsat. }
  assert (Hsize : forall center, size (chunks_needed_around center RENDER_DISTANCE) = 81%nat).
  { intros center. rewrite size_chunks_needed_around by (unfold RENDER_DISTANCE; lia).
    reflexivity. }
  exists self', c. split; [reflexivity |].
  split_and!; try assumption.
  - rewrite Hx. unfold SCREEN_WIDTH. lra.
  - rewrite Hy. unfold SCREEN_HEIGHT. lra.
  - rewrite Hlayer. exact Hchar.
  - rewrite Hm', Hm. reflexivity.
  - rewrite Hcam', Hcam. reflexivity.
  - rewrite Hdom. apply Hsize.
  - rewrite Hlen, Hg, Hch, dom_empty_L, difference_empty_L, Hsize. reflexivity.
Qed.

(** X22: The event loop never raises.  Once the texture table is loaded, [main]
    starts the game, and after any sequence of key presses, key releases
    and updates, restarts included, every handler has returned and the
    game is in a started state: it has its character, which is the one
    sprite of its layer, the resident chunks are those around the camera,
    the turn input is -1, 0 or 1, the mode is "quantum" or "random", and
    the distance is not negative. *)
Theorem event_loop_never_raises (loadable : string -> bool)
  (textures : gmap string Texture) :
  load_textures loadable = Some textures ->
  exists self0,
    main loadable = Some (textures, self0) /\
    forall events : list Event,
      exists self,
        run_events textures loadable events self0 = Some self /\ started self.
Proof.
  intros Hload.
  pose proof (load_textures_grass loadable textures Hload) as Hgrass.
  unfold main, ProceduralForestTerrain_init. rewrite Hload. cbn [mbind option_bind].
  destruct (started_setup textures loadable
              {| window := {| scene := ∅; chunks := ∅; terrain_mode := "quantum";
                              camera_position := Camera2D_position |};
                 character := None; turn_direction := 0;
                 game_over := false; distance_traveled := 0 |} Hgrass)
    as (self0 & Hsetup & Hstarted).
  - cbn. lia.
  - cbn. auto.
  - rewrite Hsetup. cbn [mbind option_bind].
    exists self0. split; [reflexivity |].
    intros events. apply started_run_events; assumption.
Qed.

End program.

(** ** The game properties on the example configurations *)

Lemma all_textures_grass_loaded : is_Some (all_textures !! "grass").
Proof. exists "assets/terrain/ground_grass_NE.png". reflexivity. Qed.

Lemma satisfied_window_satisfied : window_satisfied satisfied_window.
Proof.
  intros p. unfold satisfied_window. cbn [chunks set_chunks].
  rewrite dom_gset_to_gmap, elem_of_chunks_needed_around.
  replace (camera_chunk (set_chunks _ initial_window)) with (0, 0)%Z; [reflexivity |].
  symmetry. unfold camera_chunk.
  cbn [camera_position set_chunks initial_window fst snd].
  apply (center_chunk_at _ 0 0 0 0); lra.
Qed.

(** One update of the example game, with the engine that meets no wall. *)
Lemma on_update_camera_follows_witness :
  exists self' c',
    on_update (H := zero_rng) (arcade := free_arcade) all_textures example_game (1 / 60)
      = Some self' /\
    character self' = Some c' /\
    (distance_traveled example_game <= distance_traveled self')%R /\
    (game_over self' = false ->
       ((camera_position (window self')).1 - (camera_position (window example_game)).1
         = center_x (sprite c') - center_x (sprite example_character))%R /\
       ((camera_position (window self')).2 - (camera_position (window example_game)).2
         = center_y (sprite c') - center_y (sprite example_character))%R /\
       (distance_traveled self' - distance_traveled example_game
         = sqrt ((center_x (sprite c') - center_x (sprite example_character)) ^ 2
                 + (center_y (sprite c') - center_y (sprite example_character)) ^ 2))%R /\
       window_satisfied (window self')) /\
    (game_over self' = true ->
       camera_position (window self') = camera_position (window example_game) /\
       chunks (window self') = chunks (window example_game) /\
       distance_traveled self' = distance_traveled example_game /\
       forall name, name <> LAYER_NAME_CHARACTERS ->
         layer name (scene (window self')) = layer name (scene (window example_game))).
Proof.
  apply (on_update_camera_follows (H := zero_rng) (arcade := free_arcade)
           all_textures example_game example_character (1 / 60)).
  - exact all_textures_grass_loaded.
  - reflexivity.
  - reflexivity.
Defined.


(** One update of the example game, with the engine that lets nothing
    move. *)
Lemma on_update_stuck_ends_game_witness :
  exists self',
    on_update (H := zero_rng) (arcade := stuck_arcade) all_textures example_game (1 / 60)
      = Some self' /\
    game_over self' = true /\
    character self' = Some (steer 0 example_character) /\
    distance_traveled self' = distance_traveled example_game /\
    camera_position (window self') = camera_position (window example_game) /\
    chunks (window self') = chunks (window example_game).
Proof.
  apply (on_update_stuck_ends_game (H := zero_rng) (arcade := stuck_arcade)
           all_textures example_game example_character
           (steer 0 example_character) (steer 0 example_character) (1 / 60)).
  - reflexivity.
  - reflexivity.
  - exact all_textures_grass_loaded.
  - reflexivity.
  - reflexivity.
  - reflexivity.
  - reflexivity.
  - reflexivity.
  - reflexivity.
Defined.

(** The key Q on the example game. *)
Lemma keys_only_steer_witness :
  (exists self',
     on_key_press (H := zero_rng) (arcade := free_arcade) all_textures (fun _ => true)
       example_game 113 0 = Some self' /\
     character self' = character example_game /\
     scene (window self') = scene (window example_game) /\
     chunks (window self') = chunks (window example_game) /\
     camera_position (window self') = camera_position (window example_game) /\
     distance_traveled self' = distance_traveled example_game /\
     game_over self' = false /\
     ((turn_direction self' = -1 /\
       terrain_mode (window self') = terrain_mode (window example_game)) \/
      (turn_direction self' = 1 /\
       terrain_mode (window self') = terrain_mode (window example_game)) \/
      (turn_direction self' = turn_direction example_game /\
       terrain_mode (window self') =
         if String.eqb (terrain_mode (window example_game)) "quantum"
         then "random" else "quantum") \/
      self' = example_game)%Z) /\
  (let self' := on_key_release (arcade := free_arcade) example_game 113 0 in
   window self' = window example_game /\
   character self' = character example_game /\
   distance_traveled self' = distance_traveled example_game /\
   game_over self' = game_over example_game /\
   (turn_direction self' = turn_direction example_game \/ turn_direction self' = 0)%Z).
Proof.
  apply (keys_only_steer (H := zero_rng) (arcade := free_arcade) all_textures (fun _ => true)
           example_game 113 0).
  reflexivity.
Defined.

(** The key R on the game that is over. *)
Lemma restart_keeps_camera_and_chunks_witness :
  exists self' c,
    on_key_press (H := zero_rng) (arcade := free_arcade) all_textures (fun _ => true)
      finished_game (key_R (Arcade := free_arcade)) 0 = Some self' /\
    game_over self' = false /\
    distance_traveled self' = 0%R /\
    turn_direction self' = turn_direction finished_game /\
    character self' = Some c /\
    center_x (sprite c) = (IZR SCREEN_WIDTH / 2)%R /\
    center_y (sprite c) = (IZR SCREEN_HEIGHT / 2)%R /\
    direction c = (PI / 4)%R /\
    camera_position (window self') = camera_position (window finished_game) /\
    chunks (window self') = chunks (window finished_game) /\
    layer LAYER_NAME_GROUND (scene (window self')) = [] /\
    layer LAYER_NAME_OBJECTS (scene (window self')) = [] /\
    layer LAYER_NAME_WALLS (scene (window self')) = [] /\
    layer LAYER_NAME_CHARACTERS (scene (window self')) = [sprite c].
Proof.
  apply (restart_keeps_camera_and_chunks (H := zero_rng) (arcade := free_arcade)
           all_textures (fun _ => true) finished_game 0).
  - reflexivity.
  - exact satisfied_window_satisfied.
Defined.

(** The event loop when every file loads. *)
Lemma event_loop_never_raises_witness :
  exists self0,
    main (H := zero_rng) (arcade := free_arcade) (fun _ => true) = Some (all_textures, self0) /\
    forall events : list Event,
      exists self,
        run_events (H := zero_rng) (arcade := free_arcade) all_textures (fun _ => true)
          events self0 = Some self /\
        started self.
Proof.
  apply (event_loop_never_raises (H := zero_rng) (arcade := free_arcade)
           (fun _ => true) all_textures).
  reflexivity.
Defined.
